(** * Kolp Notes: the backup container codec and the Google Drive sync flows

    A shallow embedding of [src/main/main.ts]: the [.klp] container
    ([createKolpFile], [parseKolpFile]), the token refresh policy and the
    sync handlers ([google-sync-upload], [google-sync-download]), the
    loopback OAuth flow ([startGoogleAuth]), the requests as they are
    written to the socket, the account handlers ([google-status],
    [google-disconnect]) and the local file handlers ([save-file],
    [read-file], [kolp-export], [kolp-import], [kolp-save-local],
    [kolp-load-local]).

    Conventions.
    - A byte is a [Z] in [0, 256); a [Buffer] is a list of bytes.
    - A JavaScript string is the list of its UTF-16 code units.
    - A JavaScript exception is a value of [Result]; [try]/[catch] is a
      match on it. *)

From Stdlib Require Import String Ascii ZArith List Bool Lia.
Import ListNotations.
Local Open Scope Z_scope.
Set Warnings "-register-all".

Ltac divlia := Z.div_mod_to_equations; lia.

(** ** JavaScript strings *)

Definition jsstring := list Z.

(** The code units of an ASCII literal. *)
Definition js (s : string) : jsstring :=
  map (fun a => Z.of_N (N_of_ascii a)) (list_ascii_of_string s).
Arguments js s%_string.

Fixpoint jsstring_eqb (a b : jsstring) : bool :=
  match a, b with
  | [], [] => true
  | x :: a', y :: b' => (x =? y) && jsstring_eqb a' b'
  | _, _ => false
  end.

Definition is_ascii (c : Z) : Prop := 0 <= c < 128.

Definition is_high_surrogate (c : Z) : bool := (0xD800 <=? c) && (c <=? 0xDBFF).
Definition is_low_surrogate (c : Z) : bool := (0xDC00 <=? c) && (c <=? 0xDFFF).

(** A string is well formed when every surrogate is half of a pair and
    every code unit is a 16-bit value. *)
Fixpoint well_formed (s : jsstring) : bool :=
  match s with
  | [] => true
  | c :: t =>
      if negb ((0 <=? c) && (c <=? 0xFFFF)) then false
      else if is_high_surrogate c then
        match t with
        | d :: t' => is_low_surrogate d && well_formed t'
        | [] => false
        end
      else if is_low_surrogate c then false
      else well_formed t
  end.

(** ** Results of code that can throw *)

Inductive Result (A : Type) : Type :=
| Ok (a : A)
| Throw (message : jsstring).
Arguments Ok {A} a.
Arguments Throw {A} message.

Definition bind {A B} (r : Result A) (k : A -> Result B) : Result B :=
  match r with
  | Ok a => k a
  | Throw m => Throw m
  end.

Declare Scope result_scope.
Delimit Scope result_scope with result.
Notation "x <- r ;; k" := (bind r (fun x => k))
  (at level 61, r at next level, right associativity) : result_scope.

(** ** UTF-8, as [Buffer.from(s, 'utf-8')] and [buf.toString('utf-8')] *)

Module Utf8.

Definition replacement : list Z := [0xEF; 0xBF; 0xBD].

(** Encoding: a surrogate pair is one four-byte sequence, a lone
    surrogate is written as U+FFFD. *)
Fixpoint encode (s : jsstring) : list Z :=
  match s with
  | [] => []
  | c :: t =>
      if c <? 0x80 then c :: encode t
      else if c <? 0x800 then
        (0xC0 + c / 64) :: (0x80 + c mod 64) :: encode t
      else if is_high_surrogate c then
        match t with
        | d :: t' =>
            if is_low_surrogate d then
              let cp := 0x10000 + (c - 0xD800) * 0x400 + (d - 0xDC00) in
              (0xF0 + cp / 262144) :: (0x80 + (cp / 4096) mod 64)
                :: (0x80 + (cp / 64) mod 64) :: (0x80 + cp mod 64)
                :: encode t'
            else replacement ++ encode t
        | [] => replacement
        end
      else if is_low_surrogate c then replacement ++ encode t
      else
        (0xE0 + c / 4096) :: (0x80 + (c / 64) mod 64) :: (0x80 + c mod 64)
          :: encode t
  end.

(** Decoding is the WHATWG decoder: a state machine over the bytes that
    replaces every ill-formed subsequence by U+FFFD. *)
Record pending := {
  code_point : Z;
  needed : nat;      (* continuation bytes still expected, less one *)
  lower : Z;
  upper : Z
}.

Definition units (cp : Z) : list Z :=
  if cp <? 0x10000 then [cp]
  else [0xD800 + (cp - 0x10000) / 0x400; 0xDC00 + (cp - 0x10000) mod 0x400].

Definition in_range (lo hi b : Z) : bool := (lo <=? b) && (b <=? hi).

Definition first_byte (b : Z) : list Z * option pending :=
  if b <=? 0x7F then ([b], None)
  else if in_range 0xC2 0xDF b then
    ([], Some {| code_point := b - 0xC0; needed := 0; lower := 0x80; upper := 0xBF |})
  else if in_range 0xE0 0xEF b then
    ([], Some {| code_point := b - 0xE0; needed := 1;
                 lower := if b =? 0xE0 then 0xA0 else 0x80;
                 upper := if b =? 0xED then 0x9F else 0xBF |})
  else if in_range 0xF0 0xF4 b then
    ([], Some {| code_point := b - 0xF0; needed := 2;
                 lower := if b =? 0xF0 then 0x90 else 0x80;
                 upper := if b =? 0xF4 then 0x8F else 0xBF |})
  else ([0xFFFD], None).

Definition step (st : option pending) (b : Z) : list Z * option pending :=
  match st with
  | None => first_byte b
  | Some p =>
      if in_range (lower p) (upper p) b then
        let cp := code_point p * 64 + (b - 0x80) in
        match needed p with
        | O => (units cp, None)
        | S n => ([], Some {| code_point := cp; needed := n;
                              lower := 0x80; upper := 0xBF |})
        end
      else
        let '(out, st') := first_byte b in (0xFFFD :: out, st')
  end.

Fixpoint decode_from (st : option pending) (bytes : list Z) : jsstring :=
  match bytes with
  | [] => match st with None => [] | Some _ => [0xFFFD] end
  | b :: t => let '(out, st') := step st b in out ++ decode_from st' t
  end.

Definition decode (bytes : list Z) : jsstring := decode_from None bytes.

End Utf8.

(** ** SHA-256 (FIPS 180-4), as [crypto.createHash('sha256')] *)

Module Sha256.

Definition w32 (x : Z) : Z := x mod 4294967296.
Definition add32 (a b : Z) : Z := w32 (a + b).
Definition rotr (n x : Z) : Z :=
  Z.lor (Z.shiftr x n) (w32 (Z.shiftl x (32 - n))).
Definition not32 (x : Z) : Z := Z.lxor x 0xFFFFFFFF.

Definition Ch (x y z : Z) : Z := Z.lxor (Z.land x y) (Z.land (not32 x) z).
Definition Maj (x y z : Z) : Z :=
  Z.lxor (Z.lxor (Z.land x y) (Z.land x z)) (Z.land y z).
Definition Sigma0 (x : Z) : Z := Z.lxor (Z.lxor (rotr 2 x) (rotr 13 x)) (rotr 22 x).
Definition Sigma1 (x : Z) : Z := Z.lxor (Z.lxor (rotr 6 x) (rotr 11 x)) (rotr 25 x).
Definition sigma0 (x : Z) : Z := Z.lxor (Z.lxor (rotr 7 x) (rotr 18 x)) (Z.shiftr x 3).
Definition sigma1 (x : Z) : Z := Z.lxor (Z.lxor (rotr 17 x) (rotr 19 x)) (Z.shiftr x 10).

(** The constants are fractional bits of roots of the first primes:
    [root k n] is the integer part of the [k]-th root of [n]. *)
Fixpoint bisect (fuel : nat) (k n lo hi : Z) : Z :=
  match fuel with
  | O => lo
  | S fuel' =>
      let mid := (lo + hi + 1) / 2 in
      if mid ^ k <=? n then bisect fuel' k n mid hi
      else bisect fuel' k n lo (mid - 1)
  end.

Definition root (k n : Z) : Z := bisect 64 k n 0 (2 ^ 40).

Definition primes : list Z :=
  [2; 3; 5; 7; 11; 13; 17; 19; 23; 29; 31; 37; 41; 43; 47; 53; 59; 61; 67; 71;
   73; 79; 83; 89; 97; 101; 103; 107; 109; 113; 127; 131; 137; 139; 149; 151;
   157; 163; 167; 173; 179; 181; 191; 193; 197; 199; 211; 223; 227; 229; 233;
   239; 241; 251; 257; 263; 269; 271; 277; 281; 283; 293; 307; 311].

(** The first thirty-two bits of the fractional part of the cube root of
    each of the first sixty-four primes. *)
Definition K : list Z :=
  Eval vm_compute in map (fun p => w32 (root 3 (p * 2 ^ 96))) primes.

Record state := {
  ha : Z; hb : Z; hc : Z; hd : Z; he : Z; hf : Z; hg : Z; hh : Z
}.

(** The same of the square roots of the first eight. *)
Definition initial : state :=
  Eval vm_compute in
    let h := fun i => w32 (root 2 (nth i primes 0 * 2 ^ 64)) in
    {| ha := h 0%nat; hb := h 1%nat; hc := h 2%nat; hd := h 3%nat;
       he := h 4%nat; hf := h 5%nat; hg := h 6%nat; hh := h 7%nat |}.

Definition round (s : state) (k w : Z) : state :=
  let t1 := add32 (add32 (add32 (add32 (hh s) (Sigma1 (he s)))
                                (Ch (he s) (hf s) (hg s))) k) w in
  let t2 := add32 (Sigma0 (ha s)) (Maj (ha s) (hb s) (hc s)) in
  {| ha := add32 t1 t2; hb := ha s; hc := hb s; hd := hc s;
     he := add32 (hd s) t1; hf := he s; hg := hf s; hh := hg s |}.

(** The message schedule is kept as a window of sixteen words
    [W t .. W (t+15)]; each round consumes its head and appends
    [W (t+16)]. *)
Definition next_word (window : list Z) : Z :=
  add32 (add32 (add32 (sigma1 (nth 14 window 0)) (nth 9 window 0))
               (sigma0 (nth 1 window 0))) (nth 0 window 0).

Fixpoint rounds (ks : list Z) (window : list Z) (s : state) : state :=
  match ks with
  | [] => s
  | k :: ks' =>
      rounds ks' (tl window ++ [next_word window]) (round s k (nth 0 window 0))
  end.

Definition compress (s : state) (block : list Z) : state :=
  let r := rounds K block s in
  {| ha := add32 (ha s) (ha r); hb := add32 (hb s) (hb r);
     hc := add32 (hc s) (hc r); hd := add32 (hd s) (hd r);
     he := add32 (he s) (he r); hf := add32 (hf s) (hf r);
     hg := add32 (hg s) (hg r); hh := add32 (hh s) (hh r) |}.

(** Big-endian words of the padded message. *)
Fixpoint words (bytes : list Z) : list Z :=
  match bytes with
  | a :: b :: c :: d :: t =>
      (a * 16777216 + b * 65536 + c * 256 + d) :: words t
  | _ => []
  end.

Definition be64 (n : Z) : list Z :=
  map (fun i => (n / 2 ^ (8 * i)) mod 256) [7; 6; 5; 4; 3; 2; 1; 0].

Definition pad (message : list Z) : list Z :=
  let len := Z.of_nat (length message) in
  let zeros := Z.to_nat ((55 - len) mod 64) in
  message ++ [0x80] ++ repeat 0 zeros ++ be64 (8 * len).

Fixpoint blocks (n : nat) (ws : list Z) (s : state) : state :=
  match n with
  | O => s
  | S n' => blocks n' (skipn 16 ws) (compress s (firstn 16 ws))
  end.

Definition digest (message : list Z) : state :=
  let ws := words (pad message) in
  blocks (length ws / 16) ws initial.

Definition hex_digit (d : Z) : Z := if d <? 10 then 48 + d else 87 + d.

Definition hex32 (x : Z) : jsstring :=
  map (fun i => hex_digit ((x / 16 ^ i) mod 16)) [7; 6; 5; 4; 3; 2; 1; 0].

(** [.digest('hex')]: sixty-four lower-case hexadecimal characters. *)
Definition hex (message : list Z) : jsstring :=
  let s := digest message in
  hex32 (ha s) ++ hex32 (hb s) ++ hex32 (hc s) ++ hex32 (hd s) ++
  hex32 (he s) ++ hex32 (hf s) ++ hex32 (hg s) ++ hex32 (hh s).

End Sha256.

(** ** Node's [Buffer] *)

Definition Buffer := list Z.

Module Buf.

Definition alloc (size : nat) : Buffer := repeat 0 size.

(** [Buffer.from(string, 'utf-8')] *)
Definition from (s : jsstring) : Buffer := Utf8.encode s.

(** [buf.toString()], UTF-8 by default *)
Definition toString (b : Buffer) : jsstring := Utf8.decode b.

(** [buf.slice(start, end)] for non-negative indices: the bytes from
    [start] up to [end], clamped to the buffer. *)
Definition slice (b : Buffer) (start stop : Z) : Buffer :=
  firstn (Z.to_nat (stop - start)) (skipn (Z.to_nat start) b).

(** [src.copy(target, targetStart)]: as many bytes of [src] as fit. *)
Definition copy (src target : Buffer) (targetStart : nat) : Buffer :=
  firstn targetStart target
    ++ firstn (length target - targetStart) src
    ++ skipn (targetStart + length src) target.

Definition concat (parts : list Buffer) : Buffer := List.concat parts.

Fixpoint le_bytes (n : nat) (v : Z) : list Z :=
  match n with
  | O => []
  | S n' => v mod 256 :: le_bytes n' (v / 256)
  end.

Fixpoint le_value (bytes : list Z) : Z :=
  match bytes with
  | [] => 0
  | b :: t => b + 256 * le_value t
  end.

Definition out_of_range : jsstring := js "ERR_OUT_OF_RANGE".

(** The write and read methods check the value and the offset and throw
    a RangeError otherwise. *)
Definition write (b : Buffer) (width : nat) (lo hi value : Z) (offset : nat)
  : Result Buffer :=
  if (lo <=? value) && (value <=? hi) && (offset + width <=? length b)%nat
  then Ok (copy (le_bytes width (value mod 256 ^ Z.of_nat width)) b offset)
  else Throw out_of_range.

Definition read (b : Buffer) (width : nat) (offset : nat) : Result Z :=
  if (offset + width <=? length b)%nat
  then Ok (le_value (firstn width (skipn offset b)))
  else Throw out_of_range.

Definition writeUInt8 (b : Buffer) (value : Z) (offset : nat) :=
  write b 1 0 255 value offset.
Definition writeUInt32LE (b : Buffer) (value : Z) (offset : nat) :=
  write b 4 0 4294967295 value offset.
Definition writeBigInt64LE (b : Buffer) (value : Z) (offset : nat) :=
  write b 8 (- 2 ^ 63) (2 ^ 63 - 1) value offset.

Definition readUInt8 (b : Buffer) (offset : nat) := read b 1 offset.
Definition readUInt32LE (b : Buffer) (offset : nat) := read b 4 offset.
Definition readBigInt64LE (b : Buffer) (offset : nat) : Result Z :=
  match read b 8 offset with
  | Ok u => Ok (if u <? 2 ^ 63 then u else u - 2 ^ 64)
  | Throw m => Throw m
  end.

End Buf.

(** ** The KOLP container *)

Definition KOLP_MAGIC : Buffer := Buf.from (js "KOLP").
Definition KOLP_VERSION : Z := 1.

(** [new Date(ms).toISOString()]: the text is determined by the instant,
    which stands for it here.  The call throws a RangeError outside the
    range of [Date], 8.64e15 ms either side of the epoch. *)
Inductive ISOString : Type := ISO (ms : Z).

Definition toISOString (ms : Z) : Result ISOString :=
  if Z.abs ms <=? 8640000000000000 then Ok (ISO ms)
  else Throw (js "Invalid time value").

Record KolpFile (Data : Type) : Type := {
  version : Z;
  timestamp : ISOString;
  checksum : jsstring;
  data : Data
}.
Arguments version {Data} k.
Arguments timestamp {Data} k.
Arguments checksum {Data} k.
Arguments data {Data} k.

Section Codec.

(** The values exchanged with the renderer and the two functions of the
    [JSON] object.  [JSON_stringify] returns a string, or [undefined]
    ([None]) for a value that has no JSON form, or throws. *)
Variable Data : Type.
Variable JSON_stringify : Data -> Result (option jsstring).
Variable JSON_parse : jsstring -> Result Data.

(** [Buffer.from(jsonData, 'utf-8')] throws a TypeError on [undefined]. *)
Definition Buffer_from (s : option jsstring) : Result Buffer :=
  match s with
  | Some text => Ok (Buf.from text)
  | None => Throw (js "ERR_INVALID_ARG_TYPE")
  end.

(** [now] is the value of [Date.now()]. *)
Definition createKolpFile (now : Z) (data : Data) : Result Buffer :=
  (jsonData <- JSON_stringify data;;
   compressed <- Buffer_from jsonData;;
   let checksum := Sha256.hex compressed in
   let timestamp := now in
   let header := Buf.alloc 49 in
   let header := Buf.copy KOLP_MAGIC header 0 in
   header <- Buf.writeUInt8 header KOLP_VERSION 4;;
   header <- Buf.writeBigInt64LE header timestamp 5;;
   let header := Buf.copy (Buf.from (firstn 32 checksum)) header 13 in
   header <- Buf.writeUInt32LE header (Z.of_nat (length compressed)) 45;;
   Ok (Buf.concat [header; compressed]))%result.

(** The body of the [try] block. *)
Definition parseKolpFile_try (buffer : Buffer) : Result (KolpFile Data) :=
  (if negb (jsstring_eqb (Buf.toString (Buf.slice buffer 0 4)) (js "KOLP"))
   then Throw (js "Invalid KOLP file format")
   else
     version <- Buf.readUInt8 buffer 4;;
     timestamp <- Buf.readBigInt64LE buffer 5;;
     let checksumStored := Buf.toString (Buf.slice buffer 13 45) in
     dataLength <- Buf.readUInt32LE buffer 45;;
     let dataBuffer := Buf.slice buffer 49 (49 + dataLength) in
     let checksumCalculated := firstn 32 (Sha256.hex dataBuffer) in
     if negb (jsstring_eqb checksumStored checksumCalculated)
     then Throw (js "Checksum verification failed")
     else
       data <- JSON_parse (Buf.toString dataBuffer);;
       iso <- toISOString timestamp;;
       Ok {| version := version; timestamp := iso;
             checksum := checksumStored; data := data |})%result.

(** [catch (e) { ...; return null; }] *)
Definition parseKolpFile (buffer : Buffer) : option (KolpFile Data) :=
  match parseKolpFile_try buffer with
  | Ok file => Some file
  | Throw _ => None
  end.

End Codec.

Arguments createKolpFile {Data} JSON_stringify now data.
Arguments parseKolpFile_try {Data} JSON_parse buffer.
Arguments parseKolpFile {Data} JSON_parse buffer.

(** ** JavaScript values, as far as the flows look into them

    Numbers are the integers: every number these flows compute with is a
    count of seconds or milliseconds. *)

Inductive JSValue : Type :=
| JSUndefined
| JSNull
| JSBool (b : bool)
| JSNumber (n : Z)
| JSString (s : jsstring)
| JSArray (items : list JSValue)
| JSObject (fields : list (jsstring * JSValue)).

(** A small implementation of [JSON] over [JSValue], used to run the
    codec on concrete snapshots. *)
Module MiniJSON.

Definition hex4 (c : Z) : jsstring :=
  map (fun i => Sha256.hex_digit ((c / 16 ^ i) mod 16)) [3; 2; 1; 0].

(** The character after the backslash, for the characters that
    [QuoteJSONString] writes as two: backspace, tab, line feed, form
    feed, carriage return, the quote and the backslash. *)
Definition short_escape (c : Z) : option Z :=
  if c =? 8 then Some 98
  else if c =? 9 then Some 116
  else if c =? 10 then Some 110
  else if c =? 12 then Some 102
  else if c =? 13 then Some 114
  else if (c =? 34) || (c =? 92) then Some c
  else None.

(** [QuoteJSONString]: quotes, backslashes, control characters and lone
    surrogates are escaped. *)
Fixpoint quote_body (s : jsstring) : jsstring :=
  match s with
  | [] => []
  | c :: t =>
      match short_escape c with
      | Some e => 92 :: e :: quote_body t
      | None =>
          if c <? 32 then js "\u" ++ hex4 c ++ quote_body t
          else if is_high_surrogate c then
            match t with
            | d :: t' =>
                if is_low_surrogate d then c :: d :: quote_body t'
                else js "\u" ++ hex4 c ++ quote_body t
            | [] => js "\u" ++ hex4 c
            end
          else if is_low_surrogate c then js "\u" ++ hex4 c ++ quote_body t
          else c :: quote_body t
      end
  end.

Definition quote (s : jsstring) : jsstring := [34] ++ quote_body s ++ [34].

Fixpoint digits (fuel : nat) (n : Z) (acc : jsstring) : jsstring :=
  match fuel with
  | O => acc
  | S fuel' =>
      let acc' := (48 + n mod 10) :: acc in
      if n <? 10 then acc' else digits fuel' (n / 10) acc'
  end.

Definition number_text (n : Z) : jsstring :=
  let m := Z.abs n in
  (if n <? 0 then [45] else []) ++ digits (S (Z.to_nat (Z.log2 m))) m [].

Fixpoint text (v : JSValue) : option jsstring :=
  match v with
  | JSUndefined => None
  | JSNull => Some (js "null")
  | JSBool true => Some (js "true")
  | JSBool false => Some (js "false")
  | JSNumber n => Some (number_text n)
  | JSString s => Some (quote s)
  | JSArray items =>
      Some (js "[" ++
            (fix elements (l : list JSValue) (first : bool) : jsstring :=
               match l with
               | [] => []
               | x :: r =>
                   (if first then [] else [44]) ++
                   match text x with Some t => t | None => js "null" end ++
                   elements r false
               end) items true ++ js "]")
  | JSObject fields =>
      Some (js "{" ++
            (fix members (l : list (jsstring * JSValue)) (first : bool)
               : jsstring :=
               match l with
               | [] => []
               | (k, x) :: r =>
                   match text x with
                   | None => members r first
                   | Some t =>
                       (if first then [] else [44]) ++ quote k ++ [58] ++ t
                         ++ members r false
                   end
               end) fields true ++ js "}")
  end.

Definition stringify (v : JSValue) : Result (option jsstring) := Ok (text v).

(** The parser. *)
Definition is_space (c : Z) : bool :=
  (c =? 32) || (c =? 9) || (c =? 10) || (c =? 13).

Fixpoint skip_space (s : jsstring) : jsstring :=
  match s with
  | c :: t => if is_space c then skip_space t else s
  | [] => []
  end.

Fixpoint strip (prefix s : jsstring) : option jsstring :=
  match prefix, s with
  | [], _ => Some s
  | p :: prefix', c :: s' => if p =? c then strip prefix' s' else None
  | _ :: _, [] => None
  end.

Definition hex_value (c : Z) : option Z :=
  if (48 <=? c) && (c <=? 57) then Some (c - 48)
  else if (97 <=? c) && (c <=? 102) then Some (c - 87)
  else if (65 <=? c) && (c <=? 70) then Some (c - 55)
  else None.

Definition escape (e : Z) : option Z :=
  if (e =? 34) || (e =? 92) || (e =? 47) then Some e
  else if e =? 98 then Some 8
  else if e =? 102 then Some 12
  else if e =? 110 then Some 10
  else if e =? 114 then Some 13
  else if e =? 116 then Some 9
  else None.

Fixpoint string_body (s : jsstring) : option (jsstring * jsstring) :=
  match s with
  | [] => None
  | c :: r =>
      if c =? 34 then Some ([], r)
      else if c <? 32 then None
      else if c =? 92 then
        match r with
        | [] => None
        | e :: r' =>
            if e =? 117 then
              match r' with
              | h3 :: h2 :: h1 :: h0 :: r'' =>
                  match hex_value h3, hex_value h2, hex_value h1, hex_value h0,
                        string_body r'' with
                  | Some a, Some b, Some c', Some d, Some (body, rest) =>
                      Some ((a * 4096 + b * 256 + c' * 16 + d) :: body, rest)
                  | _, _, _, _, _ => None
                  end
              | _ => None
              end
            else
              match escape e, string_body r' with
              | Some u, Some (body, rest) => Some (u :: body, rest)
              | _, _ => None
              end
        end
      else
        match string_body r with
        | Some (body, rest) => Some (c :: body, rest)
        | None => None
        end
  end.

Definition is_digit (c : Z) : bool := (48 <=? c) && (c <=? 57).

Fixpoint number_body (s : jsstring) (acc : Z) : Z * jsstring :=
  match s with
  | c :: t => if is_digit c then number_body t (10 * acc + (c - 48)) else (acc, s)
  | [] => (acc, [])
  end.

(** The digits of a number: a zero alone, or digits of which the first
    is not a zero. *)
Definition unsigned (s : jsstring) : option (Z * jsstring) :=
  match s with
  | c :: t =>
      if c =? 48 then
        match t with
        | d :: _ => if is_digit d then None else Some (0, t)
        | [] => Some (0, [])
        end
      else if is_digit c then Some (number_body s 0)
      else None
  | [] => None
  end.

Definition number (s : jsstring) : option (JSValue * jsstring) :=
  match s with
  | c :: t =>
      if c =? 45 then
        match unsigned t with
        | Some (n, rest) => Some (JSNumber (- n), rest)
        | None => None
        end
      else
        match unsigned s with
        | Some (n, rest) => Some (JSNumber n, rest)
        | None => None
        end
  | [] => None
  end.

(** [JSON.parse] keeps the last of two members with one key. *)
Fixpoint set_member (k : jsstring) (v : JSValue)
  (fields : list (jsstring * JSValue)) : list (jsstring * JSValue) :=
  match fields with
  | [] => [(k, v)]
  | (k', v') :: r =>
      if jsstring_eqb k k' then (k, v) :: r else (k', v') :: set_member k v r
  end.

Fixpoint value (fuel : nat) (s : jsstring) : option (JSValue * jsstring) :=
  match fuel with
  | O => None
  | S fuel' =>
      let s := skip_space s in
      match s with
      | [] => None
      | c :: r =>
          if c =? 34 then
            match string_body r with
            | Some (str, rest) => Some (JSString str, rest)
            | None => None
            end
          else if c =? 91 then
            match skip_space r with
            | d :: r' =>
                if d =? 93 then Some (JSArray [], r')
                else
                  match elements fuel' r with
                  | Some (items, rest) => Some (JSArray items, rest)
                  | None => None
                  end
            | [] => None
            end
          else if c =? 123 then
            match skip_space r with
            | d :: r' =>
                if d =? 125 then Some (JSObject [], r')
                else
                  match members fuel' r [] with
                  | Some (fields, rest) => Some (JSObject fields, rest)
                  | None => None
                  end
            | [] => None
            end
          else
            match strip (js "null") s, strip (js "true") s,
                  strip (js "false") s with
            | Some rest, _, _ => Some (JSNull, rest)
            | _, Some rest, _ => Some (JSBool true, rest)
            | _, _, Some rest => Some (JSBool false, rest)
            | _, _, _ => number s
            end
      end
  end
with elements (fuel : nat) (s : jsstring) : option (list JSValue * jsstring) :=
  match fuel with
  | O => None
  | S fuel' =>
      match value fuel' s with
      | Some (v, rest) =>
          match skip_space rest with
          | c :: r =>
              if c =? 93 then Some ([v], r)
              else if c =? 44 then
                match elements fuel' r with
                | Some (vs, rest') => Some (v :: vs, rest')
                | None => None
                end
              else None
          | [] => None
          end
      | None => None
      end
  end
with members (fuel : nat) (s : jsstring) (acc : list (jsstring * JSValue))
  : option (list (jsstring * JSValue) * jsstring) :=
  match fuel with
  | O => None
  | S fuel' =>
      match skip_space s with
      | q :: r =>
          if q =? 34 then
            match string_body r with
            | Some (k, rest) =>
                match skip_space rest with
                | colon :: r' =>
                    if colon =? 58 then
                      match value fuel' r' with
                      | Some (v, rest') =>
                          let acc' := set_member k v acc in
                          match skip_space rest' with
                          | c :: r'' =>
                              if c =? 125 then Some (acc', r'')
                              else if c =? 44 then members fuel' r'' acc'
                              else None
                          | [] => None
                          end
                      | None => None
                      end
                    else None
                | [] => None
                end
            | None => None
            end
          else None
      | [] => None
      end
  end.

Definition parse (s : jsstring) : Result JSValue :=
  match value (S (length s)) s with
  | Some (v, rest) =>
      match skip_space rest with
      | [] => Ok v
      | _ :: _ => Throw (js "SyntaxError")
      end
  | None => Throw (js "SyntaxError")
  end.

End MiniJSON.

(** A snapshot with three notes, one folder, two tags and no attachment. *)
Definition note (id title : jsstring) : JSValue :=
  JSObject [(js "id", JSString id); (js "title", JSString title);
            (js "pinned", JSBool false)].

Definition sample_snapshot : JSValue :=
  JSObject
    [ (js "notes", JSArray [note (js "n1") (js "Groceries");
                            note (js "n2") [0x4B; 0xF6; 0x6C; 0x70; 0x20AC];
                            note (js "n3") [0xD83D; 0xDE00]]);
      (js "folders", JSArray [JSObject [(js "id", JSString (js "f1"))]]);
      (js "tags", JSArray [JSString (js "work"); JSString (js "home")]);
      (js "settings", JSObject [(js "fontSize", JSNumber 14)]);
      (js "attachments", JSObject []) ].

Definition sample_time : Z := 1700000000000.

Definition sample_text : jsstring :=
  match MiniJSON.text sample_snapshot with Some t => t | None => [] end.

(** A single bit of a buffer inverted: bit [bit] of the byte at [index]. *)
Definition flip_bit (buffer : Buffer) (index : nat) (bit : Z) : Buffer :=
  firstn index buffer ++
  match skipn index buffer with
  | b :: t => Z.lxor b (2 ^ bit) :: t
  | [] => []
  end.


(** ** Property access and truthiness on [JSValue] *)

Fixpoint lookup (key : jsstring) (fields : list (jsstring * JSValue)) : JSValue :=
  match fields with
  | [] => JSUndefined
  | (k, v) :: rest => if jsstring_eqb key k then v else lookup key rest
  end.

(** The message of the TypeError that a property read on [null] or
    [undefined] throws. *)
Definition cannot_read (v : JSValue) (key : jsstring) : jsstring :=
  js "Cannot read properties of "
    ++ match v with JSNull => js "null" | _ => js "undefined" end
    ++ js " (reading '" ++ key ++ js "')".

(** [v.key] for a key that is not an index: a TypeError on [null] and
    [undefined], the member of an object, the [length] of an array or a
    string, [undefined] otherwise. *)
Definition get (v : JSValue) (key : jsstring) : Result JSValue :=
  match v with
  | JSUndefined | JSNull => Throw (cannot_read v key)
  | JSObject fields => Ok (lookup key fields)
  | JSArray items =>
      if jsstring_eqb key (js "length")
      then Ok (JSNumber (Z.of_nat (length items))) else Ok JSUndefined
  | JSString s =>
      if jsstring_eqb key (js "length")
      then Ok (JSNumber (Z.of_nat (length s))) else Ok JSUndefined
  | JSBool _ | JSNumber _ => Ok JSUndefined
  end.

(** [v[0]] *)
Definition get_first (v : JSValue) : Result JSValue :=
  match v with
  | JSUndefined | JSNull => Throw (cannot_read v (js "0"))
  | JSObject fields => Ok (lookup (js "0") fields)
  | JSArray items => Ok (nth 0 items JSUndefined)
  | JSString s => Ok (match s with c :: _ => JSString [c] | [] => JSUndefined end)
  | JSBool _ | JSNumber _ => Ok JSUndefined
  end.

Definition truthy (v : JSValue) : bool :=
  match v with
  | JSUndefined | JSNull | JSBool false | JSNumber 0 | JSString [] => false
  | _ => true
  end.

(** [a || b] *)
Definition or_else (a b : JSValue) : JSValue := if truthy a then a else b.

(** ** The credential store *)

Record GoogleTokens : Type := {
  access_token : JSValue;
  refresh_token : JSValue;
  expiry_date : Z;
  email : JSValue
}.

Record GoogleCredentials : Type := {
  clientId : jsstring;
  clientSecret : jsstring
}.

(** ** Requests to Google

    One constructor for each request the program builds, with the parts
    of it that vary. *)
Inductive Request : Type :=
| TokenExchange (code : JSValue) (client_id client_secret : jsstring)
    (* POST oauth2.googleapis.com/token, grant_type=authorization_code *)
| TokenRefresh (client_id client_secret : jsstring) (refresh : JSValue)
    (* POST oauth2.googleapis.com/token, grant_type=refresh_token *)
| UserInfo (token : JSValue)
    (* GET www.googleapis.com/oauth2/v2/userinfo *)
| DriveUpload (token : JSValue) (name mimeType : jsstring) (content : Buffer)
    (* POST /upload/drive/v3/files?uploadType=multipart *)
| DriveList (token : JSValue) (q orderBy : jsstring) (pageSize : Z)
    (* GET /drive/v3/files?q=..&orderBy=..&pageSize=.. *)
| DriveDownload (token : JSValue) (fileId : JSValue)
    (* GET /drive/v3/files/<fileId>?alt=media *)
| DriveDelete (token : JSValue) (fileId : JSValue).
    (* DELETE /drive/v3/files/<fileId> *)

(** What comes back: the request's ['error'] event, or a response read
    to its end.  [json] is what [JSON.parse] makes of the body. *)
Inductive Reply : Type :=
| NetworkError (message : jsstring)
| Response (statusCode : Z) (body : Buffer) (json : Result JSValue).

Definition is_drive_request (r : Request) : bool :=
  match r with
  | DriveUpload _ _ _ _ | DriveList _ _ _ _ | DriveDownload _ _
  | DriveDelete _ _ => true
  | _ => false
  end.

(** ** The request path *)

(** [encodeURIComponent]: letters, digits and [- _ . ! ~ * ' ( )] stand
    for themselves, any other character is the percent-encoding of its
    UTF-8 bytes, and a lone surrogate is a URIError. *)
Definition unreserved (c : Z) : bool :=
  ((65 <=? c) && (c <=? 90)) || ((97 <=? c) && (c <=? 122))
  || ((48 <=? c) && (c <=? 57))
  || existsb (Z.eqb c) [45; 95; 46; 33; 126; 42; 39; 40; 41].

Definition upper_hex (d : Z) : Z := if d <? 10 then 48 + d else 55 + d.

Definition percent (bytes : list Z) : jsstring :=
  flat_map (fun b => [37; upper_hex (b / 16); upper_hex (b mod 16)]) bytes.

Definition URI_malformed : jsstring := js "URI malformed".

Fixpoint encodeURIComponent (s : jsstring) : Result jsstring :=
  match s with
  | [] => Ok []
  | c :: t =>
      if unreserved c then
        match encodeURIComponent t with
        | Ok rest => Ok (c :: rest)
        | Throw e => Throw e
        end
      else if is_low_surrogate c then Throw URI_malformed
      else if is_high_surrogate c then
        match t with
        | d :: t' =>
            if is_low_surrogate d then
              match encodeURIComponent t' with
              | Ok rest => Ok (percent (Utf8.encode [c; d]) ++ rest)
              | Throw e => Throw e
              end
            else Throw URI_malformed
        | [] => Throw URI_malformed
        end
      else
        match encodeURIComponent t with
        | Ok rest => Ok (percent (Utf8.encode [c]) ++ rest)
        | Throw e => Throw e
        end
  end.

(** Before it opens a connection, the constructor of Node's
    [ClientRequest] tests the path against the expression [[^\u0021-\u00ff]] and
    throws a TypeError when a character matches. *)
Definition INVALID_PATH (path : jsstring) : bool :=
  existsb (fun c => negb ((0x21 <=? c) && (c <=? 0xFF))) path.

Definition ERR_UNESCAPED_CHARACTERS : jsstring :=
  js "Request path contains unescaped characters".

Definition ClientRequest_path (path : jsstring) : Result jsstring :=
  if INVALID_PATH path then Throw ERR_UNESCAPED_CHARACTERS else Ok path.

Definition BACKUP_QUERY : jsstring :=
  js "name contains 'kolp_backup' and mimeType='application/octet-stream' and trashed=false".

(** The path that [findKolpFileInDrive] hands to [https.get]. *)
Definition findKolpFileInDrive_path : Result jsstring :=
  (query <- encodeURIComponent BACKUP_QUERY;;
   ClientRequest_path
     (js "/drive/v3/files?q=" ++ query
        ++ js "&orderBy=modifiedTime desc&pageSize=1"))%result.

(** The paths of [downloadFromGoogleDrive] and [deleteFileFromDrive]. *)
Definition downloadFromGoogleDrive_path (fileId : jsstring) : Result jsstring :=
  ClientRequest_path (js "/drive/v3/files/" ++ fileId ++ js "?alt=media").

Definition deleteFileFromDrive_path (fileId : jsstring) : Result jsstring :=
  ClientRequest_path (js "/drive/v3/files/" ++ fileId).

(** ** What a sync handler returns *)

Inductive IpcResult (Data : Type) : Type :=
| Uploaded (fileId : JSValue)
    (* { success: true, fileId } *)
| Downloaded (file : KolpFile Data)
    (* { success: true, data: parsed } *)
| Failed (error : JSValue).
    (* { success: false, error } *)
Arguments Uploaded {Data} fileId.
Arguments Downloaded {Data} file.
Arguments Failed {Data} error.

Definition succeeded {Data} (r : IpcResult Data) : bool :=
  match r with Failed _ => false | _ => true end.

(** ** The world of the main process *)

Inductive Event : Type :=
| EvRefresh                              (* refreshAccessToken is entered *)
| EvHttp (request : Request) (reply : Reply)
| EvRefused (request : Request) (message : jsstring)
                                         (* the client threw, nothing sent *)
| EvSaveTokens (tokens : GoogleTokens)
| EvWriteBackup (bytes : Buffer).        (* kolp_backup.klp is written *)

(** What the handlers take from the platform and the network. *)
Class Platform : Type := {
  (** the values exchanged with the renderer, and the [JSON] object *)
  Data : Type;
  JSON_stringify : Data -> Result (option jsstring);
  JSON_parse : jsstring -> Result Data;
  (** the numeric value of a string, an array or an object where
      JavaScript coerces one to a number; [None] is NaN *)
  StringToNumber : JSValue -> option Z;
  (** [new Date(ms).toISOString().replace(/[:.]/g, '-')] *)
  iso_stamp : Z -> jsstring;
  (** the services on the network, as a machine that answers requests *)
  Remote : Type;
  serve : Remote -> Request -> Reply * Remote
}.

Section Sync.

Context {P : Platform}.

Definition ToNumber (v : JSValue) : option Z :=
  match v with
  | JSUndefined => None
  | JSNull => Some 0
  | JSBool b => Some (if b then 1 else 0)
  | JSNumber n => Some n
  | _ => StringToNumber v
  end.

(** [v > 0] *)
Definition greater_than_zero (v : JSValue) : bool :=
  match ToNumber v with Some n => 0 <? n | None => false end.

(** [Date.now() + (expires_in * 1000)], as the token file gives it back:
    NaN is written as [null], which counts as 0 where the handlers
    subtract from it. *)
Definition expiry_after (now : Z) (expires_in : JSValue) : Z :=
  match ToNumber expires_in with Some n => now + n * 1000 | None => 0 end.

(** The files are reliable: a write succeeds and a read returns what
    was written.  [clock] lists the successive readings of [Date.now()]. *)
Record World : Type := {
  tokenFile : option GoogleTokens;             (* google_tokens.json *)
  credentialsFile : option GoogleCredentials;  (* google_credentials.json *)
  kolpFile : option Buffer;                    (* kolp_backup.klp *)
  clock : nat -> Z;
  reads : nat;
  remote : Remote;
  log : list Event
}.

Definition M (A : Type) : Type := World -> Result A * World.

Definition ret {A} (a : A) : M A := fun w => (Ok a, w).
Definition throw {A} (message : jsstring) : M A := fun w => (Throw message, w).
Definition mbind {A B} (m : M A) (k : A -> M B) : M B :=
  fun w => match m w with
           | (Ok a, w') => k a w'
           | (Throw e, w') => (Throw e, w')
           end.
Definition lift {A} (r : Result A) : M A := fun w => (r, w).

(** [try { m } catch (error) { handler(error.message) }] *)
Definition try_catch {A} (m : M A) (handler : jsstring -> M A) : M A :=
  fun w => match m w with
           | (Ok a, w') => (Ok a, w')
           | (Throw e, w') => handler e w'
           end.

Definition emit (e : Event) : M unit :=
  fun w => (Ok tt,
            {| tokenFile := tokenFile w; credentialsFile := credentialsFile w;
               kolpFile := kolpFile w; clock := clock w; reads := reads w;
               remote := remote w; log := log w ++ [e] |}).

Definition Date_now : M Z :=
  fun w => (Ok (clock w (reads w)),
            {| tokenFile := tokenFile w; credentialsFile := credentialsFile w;
               kolpFile := kolpFile w; clock := clock w; reads := S (reads w);
               remote := remote w; log := log w |}).

(** An [https] request and the wait for its outcome. *)
Definition https (request : Request) : M Reply :=
  fun w => let '(reply, remote') := serve (remote w) request in
           (Ok reply,
            {| tokenFile := tokenFile w; credentialsFile := credentialsFile w;
               kolpFile := kolpFile w; clock := clock w; reads := reads w;
               remote := remote'; log := log w ++ [EvHttp request reply] |}).

Definition loadTokens : M (option GoogleTokens) :=
  fun w => (Ok (tokenFile w), w).

Definition saveTokens (tokens : GoogleTokens) : M unit :=
  fun w => (Ok tt,
            {| tokenFile := Some tokens; credentialsFile := credentialsFile w;
               kolpFile := kolpFile w; clock := clock w; reads := reads w;
               remote := remote w; log := log w ++ [EvSaveTokens tokens] |}).

Definition loadCredentials : M (option GoogleCredentials) :=
  fun w => (Ok (credentialsFile w), w).

(** [fs.writeFileSync(kolpFilePath(), bytes)] *)
Definition writeKolpFile (bytes : Buffer) : M unit :=
  fun w => (Ok tt,
            {| tokenFile := tokenFile w; credentialsFile := credentialsFile w;
               kolpFile := Some bytes; clock := clock w; reads := reads w;
               remote := remote w; log := log w ++ [EvWriteBackup bytes] |}).

Local Notation "x <- m ;; k" := (mbind m (fun x => k))
  (at level 61, m at next level, right associativity).

Definition refreshAccessToken : M JSValue :=
  _ <- emit EvRefresh;;
  tokens <- loadTokens;;
  credentials <- loadCredentials;;
  match tokens, credentials with
  | Some tokens, Some credentials =>
      if negb (truthy (refresh_token tokens)) then ret JSNull
      else
        reply <- https (TokenRefresh (clientId credentials)
                          (clientSecret credentials) (refresh_token tokens));;
        match reply with
        | NetworkError _ => ret JSNull
        | Response _ _ (Throw _) => ret JSNull
        | Response _ _ (Ok response) =>
            match get response (js "access_token"),
                  get response (js "expires_in") with
            | Ok token, Ok expires_in =>
                if truthy token then
                  now <- Date_now;;
                  _ <- saveTokens
                         {| access_token := token;
                            refresh_token := refresh_token tokens;
                            expiry_date := expiry_after now expires_in;
                            email := email tokens |};;
                  ret token
                else ret JSNull
            | _, _ => ret JSNull
            end
        end
  | _, _ => ret JSNull
  end.

(** [response.files[0].id], or [null], inside [try]/[catch]. *)
Definition first_file_id (json : Result JSValue) : JSValue :=
  match
    (response <- json;;
     files <- get response (js "files");;
     if truthy files then
       len <- get files (js "length");;
       if greater_than_zero len then
         first <- get_first files;;
         get first (js "id")
       else Ok JSNull
     else Ok JSNull)%result
  with
  | Ok id => id
  | Throw _ => JSNull
  end.

(** [https.get] is called inside the executor of the promise that
    [findKolpFileInDrive] returns.  When the client throws on the path,
    nothing is sent, the promise is rejected, and the [await] in the
    handler throws the error into the handler's [catch]. *)
Definition findKolpFileInDrive (accessToken : JSValue) : M JSValue :=
  let request := DriveList accessToken BACKUP_QUERY (js "modifiedTime desc") 1 in
  match findKolpFileInDrive_path with
  | Throw message =>
      _ <- emit (EvRefused request message);;
      throw message
  | Ok _ =>
      reply <- https request;;
      match reply with
      | NetworkError _ => ret JSNull
      | Response _ _ json => ret (first_file_id json)
      end
  end.

Definition upload_result (json : Result JSValue) : IpcResult Data :=
  match
    (response <- json;;
     id <- get response (js "id");;
     if truthy id then Ok (Uploaded id)
     else
       error <- get response (js "error");;
       message <- match error with
                  | JSUndefined | JSNull => Ok JSUndefined
                  | _ => get error (js "message")
                  end;;
       Ok (Failed (or_else message (JSString (js "Upload failed")))))%result
  with
  | Ok result => result
  | Throw _ => Failed (JSString (js "Parse error"))
  end.

Definition uploadToGoogleDrive (accessToken : JSValue) (kolpBuffer : Buffer)
  (filename : jsstring) : M (IpcResult Data) :=
  reply <- https (DriveUpload accessToken filename
                    (js "application/octet-stream") kolpBuffer);;
  match reply with
  | NetworkError message => ret (Failed (JSString message))
  | Response _ _ json => ret (upload_result json)
  end.

Definition downloadFromGoogleDrive (accessToken fileId : JSValue)
  : M (option Buffer) :=
  reply <- https (DriveDownload accessToken fileId);;
  match reply with
  | NetworkError _ => ret None
  | Response _ body _ => ret (Some body)
  end.

Definition deleteFileFromDrive (accessToken fileId : JSValue) : M bool :=
  reply <- https (DriveDelete accessToken fileId);;
  match reply with
  | NetworkError _ => ret false
  | Response statusCode _ _ => ret ((statusCode =? 204) || (statusCode =? 200))
  end.

(** The opening of both sync handlers: load the tokens and refresh them
    when they expire within a minute.  [inl] is the result the handler
    returns at once, [inr] the tokens it carries on with. *)
Definition authorize : M (IpcResult Data + option GoogleTokens) :=
  tokens <- loadTokens;;
  match tokens with
  | None => ret (inl (Failed (JSString (js "Not authenticated"))))
  | Some current =>
      now <- Date_now;;
      if now >=? expiry_date current - 60000 then
        newToken <- refreshAccessToken;;
        if negb (truthy newToken)
        then ret (inl (Failed (JSString (js "Token refresh failed"))))
        else
          reloaded <- loadTokens;;
          ret (inr reloaded)
      else ret (inr (Some current))
  end.

(** [tokens.access_token], a TypeError when [tokens] is null. *)
Definition token_of (tokens : option GoogleTokens) : M JSValue :=
  match tokens with
  | Some t => ret (access_token t)
  | None => throw (cannot_read JSNull (js "access_token"))
  end.

Definition backup_name (stamp : Z) : jsstring :=
  js "kolp_backup_" ++ iso_stamp stamp ++ js ".klp".

Definition google_sync_upload (data : Data) : M (IpcResult Data) :=
  try_catch
    (start <- authorize;;
     match start with
     | inl result => ret result
     | inr tokens =>
         now <- Date_now;;
         kolpBuffer <- lift (createKolpFile JSON_stringify now data);;
         _ <- writeKolpFile kolpBuffer;;
         token <- token_of tokens;;
         existingFileId <- findKolpFileInDrive token;;
         _ <- (if truthy existingFileId
               then deleteFileFromDrive token existingFileId
               else ret false);;
         stamp <- Date_now;;
         uploadToGoogleDrive token kolpBuffer (backup_name stamp)
     end)
    (fun message => ret (Failed (JSString message))).

Definition google_sync_download : M (IpcResult Data) :=
  try_catch
    (start <- authorize;;
     match start with
     | inl result => ret result
     | inr tokens =>
         token <- token_of tokens;;
         fileId <- findKolpFileInDrive token;;
         if negb (truthy fileId)
         then ret (Failed (JSString (js "No backup found in Google Drive")))
         else
           buffer <- downloadFromGoogleDrive token fileId;;
           match buffer with
           | None => ret (Failed (JSString (js "Download failed")))
           | Some buffer =>
               match parseKolpFile JSON_parse buffer with
               | None => ret (Failed (JSString (js "Invalid KOLP file")))
               | Some parsed =>
                   _ <- writeKolpFile buffer;;
                   ret (Downloaded parsed)
               end
           end
     end)
    (fun message => ret (Failed (JSString message))).

End Sync.

Arguments World P : clear implicits.
Arguments M P A : clear implicits.

(** ** A model of the remote store

    Google Drive as the handlers see it: a set of files, listed by the
    backup query newest first, removed by [DELETE], added by an upload.
    [outages] schedules the requests that fail to reach it. *)

Record DriveFile : Type := {
  file_id : jsstring;
  file_name : jsstring;
  file_mimeType : jsstring;
  file_trashed : bool;
  file_modified : Z;
  file_content : Buffer
}.

Record Google : Type := {
  drive_files : list DriveFile;
  drive_time : Z;
  drive_next : Z;
  token_reply : Result JSValue;   (* what the token endpoint answers *)
  outages : list bool
}.

Fixpoint is_prefix (p s : jsstring) : bool :=
  match p, s with
  | [], _ => true
  | x :: p', y :: s' => (x =? y) && is_prefix p' s'
  | _ :: _, [] => false
  end.

Fixpoint contains (needle hay : jsstring) : bool :=
  is_prefix needle hay ||
  match hay with
  | [] => false
  | _ :: t => contains needle t
  end.

(** The files the backup query selects. *)
Definition is_backup (f : DriveFile) : bool :=
  contains (js "kolp_backup") (file_name f)
  && jsstring_eqb (file_mimeType f) (js "application/octet-stream")
  && negb (file_trashed f).

Fixpoint insert_newest (f : DriveFile) (sorted : list DriveFile) : list DriveFile :=
  match sorted with
  | [] => [f]
  | g :: rest =>
      if file_modified g <=? file_modified f then f :: sorted
      else g :: insert_newest f rest
  end.

(** [orderBy=modifiedTime desc] *)
Definition newest_first (files : list DriveFile) : list DriveFile :=
  fold_right insert_newest [] files.

Definition file_json (f : DriveFile) : JSValue :=
  JSObject [(js "id", JSString (file_id f)); (js "name", JSString (file_name f))].

Definition has_id (id : jsstring) (f : DriveFile) : bool :=
  jsstring_eqb (file_id f) id.

Definition not_json : Result JSValue := Throw (js "SyntaxError").

Definition answer (g : Google) (request : Request) : Reply * Google :=
  match request with
  | DriveList _ q orderBy pageSize =>
      if jsstring_eqb q
           (js "name contains 'kolp_backup' and mimeType='application/octet-stream' and trashed=false")
         && jsstring_eqb orderBy (js "modifiedTime desc")
      then
        let page := firstn (Z.to_nat pageSize)
                      (newest_first (filter is_backup (drive_files g))) in
        (Response 200 [] (Ok (JSObject [(js "files", JSArray (map file_json page))])), g)
      else (Response 400 [] not_json, g)
  | DriveDelete _ (JSString id) =>
      if existsb (has_id id) (drive_files g) then
        (Response 204 [] not_json,
         {| drive_files := filter (fun f => negb (has_id id f)) (drive_files g);
            drive_time := drive_time g + 1; drive_next := drive_next g;
            token_reply := token_reply g; outages := outages g |})
      else (Response 404 [] not_json, g)
  | DriveUpload _ name mimeType content =>
      let id := js "file-" ++ MiniJSON.number_text (drive_next g) in
      (Response 200 [] (Ok (JSObject [(js "id", JSString id)])),
       {| drive_files :=
            {| file_id := id; file_name := name; file_mimeType := mimeType;
               file_trashed := false; file_modified := drive_time g;
               file_content := content |} :: drive_files g;
          drive_time := drive_time g + 1; drive_next := drive_next g + 1;
          token_reply := token_reply g; outages := outages g |})
  | DriveDownload _ (JSString id) =>
      match find (has_id id) (drive_files g) with
      | Some f => (Response 200 (file_content f) not_json, g)
      | None => (Response 404 [] not_json, g)
      end
  | TokenRefresh _ _ _ | TokenExchange _ _ _ =>
      (Response 200 [] (token_reply g), g)
  | _ => (Response 404 [] not_json, g)
  end.

Definition serve_google (g : Google) (request : Request) : Reply * Google :=
  match outages g with
  | true :: later =>
      (NetworkError (js "ECONNRESET"),
       {| drive_files := drive_files g; drive_time := drive_time g;
          drive_next := drive_next g; token_reply := token_reply g;
          outages := later |})
  | _ =>
      answer {| drive_files := drive_files g; drive_time := drive_time g;
                drive_next := drive_next g; token_reply := token_reply g;
                outages := tl (outages g) |} request
  end.

(** The handlers over this store. *)
Definition google_platform (Data : Type)
  (JSON_stringify : Data -> Result (option jsstring))
  (JSON_parse : jsstring -> Result Data)
  (StringToNumber : JSValue -> option Z) (iso_stamp : Z -> jsstring)
  : Platform := {|
  Data := Data;
  JSON_stringify := JSON_stringify;
  JSON_parse := JSON_parse;
  StringToNumber := StringToNumber;
  iso_stamp := iso_stamp;
  Remote := Google;
  serve := serve_google
|}.

(** The handlers over [MiniJSON] and this store. *)
Definition sample_platform : Platform :=
  google_platform JSValue MiniJSON.stringify MiniJSON.parse (fun _ => None)
    MiniJSON.number_text.

(** ** Sample worlds *)

Definition sample_tokens (expiry : Z) : GoogleTokens :=
  {| access_token := JSString (js "ya29.cached");
     refresh_token := JSString (js "1//refresh");
     expiry_date := expiry;
     email := JSString (js "user@example.com") |}.

Definition backup_file (id name : string) (modified : Z) (content : Buffer)
  : DriveFile :=
  {| file_id := js id; file_name := js name;
     file_mimeType := js "application/octet-stream";
     file_trashed := false; file_modified := modified;
     file_content := content |}.

Definition granted : Result JSValue :=
  Ok (JSObject [(js "access_token", JSString (js "ya29.renewed"));
                (js "expires_in", JSNumber 3599)]).

Definition denied : Result JSValue :=
  Ok (JSObject [(js "error", JSString (js "invalid_grant"))]).

Definition sample_store (files : list DriveFile) (token_endpoint : Result JSValue)
  (failures : list bool) : Google :=
  {| drive_files := files; drive_time := 100; drive_next := 7;
     token_reply := token_endpoint; outages := failures |}.

(** A world whose clock reads [sample_time], one millisecond later at
    each reading. *)
Definition sample_world (tokens : option GoogleTokens) (store : Google)
  : World sample_platform :=
  @Build_World sample_platform
    tokens
    (Some {| clientId := js "client"; clientSecret := js "secret" |})
    (Some (js "previous backup"))
    (fun n => sample_time + Z.of_nat n)
    0
    store
    [].

Definition fresh_tokens : GoogleTokens := sample_tokens (sample_time + 3600000).
Definition stale_tokens : GoogleTokens := sample_tokens (sample_time + 60000).

(** The container an upload from [sample_world] builds: the clock has
    been read once before. *)
Definition uploaded_container : Buffer :=
  match createKolpFile MiniJSON.stringify (sample_time + 1) sample_snapshot with
  | Ok container => container
  | Throw _ => []
  end.

Definition old_backup : DriveFile :=
  backup_file "file-A" "kolp_backup_2024-01-01.klp" 10 (js "old").

Definition newer_backup : DriveFile :=
  backup_file "file-B" "kolp_backup_2024-02-01.klp" 20 (js "newer").

Definition other_file : DriveFile :=
  backup_file "file-C" "holiday.jpg" 30 (js "jpeg").

(** ** The OAuth flow

    [startGoogleAuth] sets up a listener and a timer and leaves the rest
    to callbacks.  A flow is the state those callbacks share; an [Input]
    is one turn of the event loop that runs one of them. *)

Definition GOOGLE_REDIRECT_URI : jsstring := js "http://localhost:8089/callback".
Definition GOOGLE_SCOPES : list jsstring :=
  [js "https://www.googleapis.com/auth/drive.file"; js "email"; js "profile"].

Fixpoint join (parts : list jsstring) (separator : jsstring) : jsstring :=
  match parts with
  | [] => []
  | [p] => p
  | p :: rest => p ++ separator ++ join rest separator
  end.

Inductive AuthResult : Type :=
| AuthSuccess (email : JSValue)      (* { success: true, email } *)
| AuthFailure (error : jsstring).    (* { success: false, error } *)

Inductive FlowEvent : Type :=
| FlListen (port : Z)                  (* server.listen(8089, ...) *)
| FlTimer (ms : Z)                     (* setTimeout(..., 5 * 60 * 1000) *)
| FlOpenExternal (url : jsstring)      (* shell.openExternal(authUrl) *)
| FlRequest (request : Request)        (* a request to Google is sent *)
| FlSaveTokens (tokens : GoogleTokens)
| FlSaveCredentials (credentials : GoogleCredentials)
| FlRespond (status : Z)               (* res.writeHead(status); res.end(...) *)
| FlClose                              (* server.close() *)
| FlResolve (result : AuthResult).     (* resolve(result) *)

(** A request handler waiting at an [await]. *)
Inductive Suspended : Type :=
| AwaitExchange                          (* await exchangeCodeForTokens(...) *)
| AwaitUserInfo (tokenResponse : JSValue)  (* await getUserInfo(...) *)
| Finished.

Inductive ServerState : Type := Starting | Accepting | Closed.

Inductive Input : Type :=
| Listening                              (* the callback of server.listen *)
| Incoming (pathname : jsstring) (code returnedState : JSValue)
    (* a request, with [url.parse(req.url, true)] applied *)
| Settles (handler : nat) (outcome : Result JSValue)
    (* the promise a handler awaits resolves, or rejects with a message *)
| TimerFires.

(** [v !== s], for a string [s] *)
Definition differs (v : JSValue) (s : jsstring) : bool :=
  match v with
  | JSString x => negb (jsstring_eqb x s)
  | _ => true
  end.

Section Flow.

Context {P : Platform}.

Record Flow : Type := {
  flow_clientId : jsstring;
  flow_clientSecret : jsstring;
  flow_state : jsstring;       (* crypto.randomBytes(16).toString('hex') *)
  flow_authUrl : jsstring;
  server : ServerState;
  timer_pending : bool;
  settled : option AuthResult; (* what the promise resolved to, if it has *)
  suspended : list Suspended;  (* the request handlers, oldest first *)
  flow_tokens : option GoogleTokens;            (* google_tokens.json *)
  flow_credentials : option GoogleCredentials;  (* google_credentials.json *)
  flow_clock : nat -> Z;
  flow_reads : nat;
  trace : list FlowEvent
}.

Definition happen (events : list FlowEvent) (f : Flow) : Flow :=
  {| flow_clientId := flow_clientId f; flow_clientSecret := flow_clientSecret f;
     flow_state := flow_state f; flow_authUrl := flow_authUrl f;
     server := server f; timer_pending := timer_pending f;
     settled := settled f; suspended := suspended f;
     flow_tokens := flow_tokens f; flow_credentials := flow_credentials f;
     flow_clock := flow_clock f; flow_reads := flow_reads f;
     trace := trace f ++ events |}.

(** [server.close()] *)
Definition close (f : Flow) : Flow :=
  {| flow_clientId := flow_clientId f; flow_clientSecret := flow_clientSecret f;
     flow_state := flow_state f; flow_authUrl := flow_authUrl f;
     server := Closed; timer_pending := timer_pending f;
     settled := settled f; suspended := suspended f;
     flow_tokens := flow_tokens f; flow_credentials := flow_credentials f;
     flow_clock := flow_clock f; flow_reads := flow_reads f;
     trace := trace f ++ [FlClose] |}.

(** [resolve(result)]: the first call settles the promise, a later one
    changes nothing. *)
Definition resolve (result : AuthResult) (f : Flow) : Flow :=
  {| flow_clientId := flow_clientId f; flow_clientSecret := flow_clientSecret f;
     flow_state := flow_state f; flow_authUrl := flow_authUrl f;
     server := server f; timer_pending := timer_pending f;
     settled := match settled f with
                | None => Some result
                | Some earlier => Some earlier
                end;
     suspended := suspended f;
     flow_tokens := flow_tokens f; flow_credentials := flow_credentials f;
     flow_clock := flow_clock f; flow_reads := flow_reads f;
     trace := trace f ++ [FlResolve result] |}.

Definition set_handlers (handlers : list Suspended) (f : Flow) : Flow :=
  {| flow_clientId := flow_clientId f; flow_clientSecret := flow_clientSecret f;
     flow_state := flow_state f; flow_authUrl := flow_authUrl f;
     server := server f; timer_pending := timer_pending f;
     settled := settled f; suspended := handlers;
     flow_tokens := flow_tokens f; flow_credentials := flow_credentials f;
     flow_clock := flow_clock f; flow_reads := flow_reads f;
     trace := trace f |}.

Fixpoint replace_nth (n : nat) (s : Suspended) (l : list Suspended)
  : list Suspended :=
  match n, l with
  | O, _ :: rest => s :: rest
  | S n', x :: rest => x :: replace_nth n' s rest
  | _, [] => []
  end.

(** The [catch] block of the request handler. *)
Definition catch_block (message : jsstring) (f : Flow) : Flow :=
  resolve (AuthFailure message) (close (happen [FlRespond 500] f)).

(** The handler from [saveTokens] on, the clock read and the tokens
    built. *)
Definition finish (tokens : GoogleTokens) (email : JSValue) (f : Flow) : Flow :=
  let credentials := {| clientId := flow_clientId f;
                        clientSecret := flow_clientSecret f |} in
  let f := {| flow_clientId := flow_clientId f;
              flow_clientSecret := flow_clientSecret f;
              flow_state := flow_state f; flow_authUrl := flow_authUrl f;
              server := server f; timer_pending := timer_pending f;
              settled := settled f; suspended := suspended f;
              flow_tokens := Some tokens;
              flow_credentials := Some credentials;
              flow_clock := flow_clock f; flow_reads := S (flow_reads f);
              trace := trace f ++ [FlSaveTokens tokens;
                                   FlSaveCredentials credentials;
                                   FlRespond 200] |} in
  resolve (AuthSuccess email) (close f).

(** One callback, run to its end or to its next [await]. *)
Definition step (f : Flow) (input : Input) : Flow :=
  match input with
  | Listening =>
      match server f with
      | Starting =>
          happen [FlOpenExternal (flow_authUrl f)]
            {| flow_clientId := flow_clientId f;
               flow_clientSecret := flow_clientSecret f;
               flow_state := flow_state f; flow_authUrl := flow_authUrl f;
               server := Accepting; timer_pending := timer_pending f;
               settled := settled f; suspended := suspended f;
               flow_tokens := flow_tokens f;
               flow_credentials := flow_credentials f;
               flow_clock := flow_clock f; flow_reads := flow_reads f;
               trace := trace f |}
      | _ => f
      end
  | Incoming pathname code returnedState =>
      if jsstring_eqb pathname (js "/callback") then
        if differs returnedState (flow_state f) then
          resolve (AuthFailure (js "Invalid state"))
            (close (happen [FlRespond 400] f))
        else
          set_handlers (suspended f ++ [AwaitExchange])
            (happen [FlRequest (TokenExchange code (flow_clientId f)
                                  (flow_clientSecret f))] f)
      else f
  | Settles n outcome =>
      match nth n (suspended f) Finished with
      | Finished => f
      | AwaitExchange =>
          let f := set_handlers (replace_nth n Finished (suspended f)) f in
          match outcome with
          | Throw message => catch_block message f
          | Ok tokenResponse =>
              match get tokenResponse (js "access_token") with
              | Throw message => catch_block message f
              | Ok token =>
                  if truthy token then
                    set_handlers
                      (replace_nth n (AwaitUserInfo tokenResponse) (suspended f))
                      (happen [FlRequest (UserInfo token)] f)
                  else f
              end
          end
      | AwaitUserInfo tokenResponse =>
          let f := set_handlers (replace_nth n Finished (suspended f)) f in
          match outcome with
          | Throw message => catch_block message f
          | Ok userInfo =>
              match get tokenResponse (js "access_token"),
                    get tokenResponse (js "refresh_token"),
                    get tokenResponse (js "expires_in"),
                    get userInfo (js "email") with
              | Ok token, Ok refresh, Ok expires_in, Ok email =>
                  finish
                    {| access_token := token; refresh_token := refresh;
                       expiry_date :=
                         expiry_after (flow_clock f (flow_reads f)) expires_in;
                       email := email |} email f
              | Throw message, _, _, _ | _, Throw message, _, _
              | _, _, Throw message, _ | _, _, _, Throw message =>
                  catch_block message f
              end
          end
      end
  | TimerFires =>
      if timer_pending f then
        resolve (AuthFailure (js "Authentication timeout"))
          (close
             {| flow_clientId := flow_clientId f;
                flow_clientSecret := flow_clientSecret f;
                flow_state := flow_state f; flow_authUrl := flow_authUrl f;
                server := server f; timer_pending := false;
                settled := settled f; suspended := suspended f;
                flow_tokens := flow_tokens f;
                flow_credentials := flow_credentials f;
                flow_clock := flow_clock f; flow_reads := flow_reads f;
                trace := trace f |})
      else f
  end.

Definition run_flow (f : Flow) (inputs : list Input) : Flow :=
  fold_left step inputs f.

(** The body of the promise that [startGoogleAuth] returns, up to its
    last statement.  [random] is the state it draws; [tokens],
    [credentials] and [clock] are the files and the clock as it finds
    them.  An exception here rejects the promise. *)
Definition startGoogleAuth (clientId clientSecret : jsstring)
  (random : jsstring) (tokens : option GoogleTokens)
  (credentials : option GoogleCredentials) (clock : nat -> Z)
  : Result Flow :=
  (let state := random in
   id <- encodeURIComponent clientId;;
   redirect <- encodeURIComponent GOOGLE_REDIRECT_URI;;
   scope <- encodeURIComponent (join GOOGLE_SCOPES (js " "));;
   let authUrl :=
     js "https://accounts.google.com/o/oauth2/v2/auth?"
     ++ js "client_id=" ++ id
     ++ js "&redirect_uri=" ++ redirect
     ++ js "&response_type=code"
     ++ js "&scope=" ++ scope ++ js " email profile"
     ++ js "&access_type=offline"
     ++ js "&prompt=consent"
     ++ js "&state=" ++ state in
   Ok {| flow_clientId := clientId; flow_clientSecret := clientSecret;
         flow_state := state; flow_authUrl := authUrl;
         server := Starting; timer_pending := true;
         settled := None; suspended := [];
         flow_tokens := tokens; flow_credentials := credentials;
         flow_clock := clock; flow_reads := 0;
         trace := [FlListen 8089; FlTimer (5 * 60 * 1000)] |})%result.

End Flow.


(** A flow for a well-formed client id, over the sample platform. *)
Definition idle_flow : Flow :=
  {| flow_clientId := []; flow_clientSecret := []; flow_state := [];
     flow_authUrl := []; server := Closed; timer_pending := false;
     settled := None; suspended := []; flow_tokens := None;
     flow_credentials := None; flow_clock := fun _ => 0; flow_reads := 0;
     trace := [] |}.

Definition sample_state : jsstring := js "5f2c8a1e9b3d4f60a7c1e2d3b4a59687".

Definition sample_flow : Flow :=
  match startGoogleAuth (js "1234-abc.apps.googleusercontent.com") (js "secret")
          sample_state None None (fun n => sample_time + Z.of_nat n) with
  | Ok f => f
  | Throw _ => idle_flow
  end.

(** ** Vocabulary of the codec *)

Ltac tests :=
  repeat match goal with
  | |- context [?a <? ?b] => destruct (Z.ltb_spec a b); try (exfalso; divlia)
  | |- context [?a <=? ?b] => destruct (Z.leb_spec a b); try (exfalso; divlia)
  | |- context [?a =? ?b] => destruct (Z.eqb_spec a b); try (exfalso; divlia)
  end.

Ltac decode_step :=
  cbn [Utf8.decode_from Utf8.step];
  unfold Utf8.first_byte, Utf8.in_range, Utf8.units;
  cbn [Utf8.lower Utf8.upper Utf8.needed Utf8.code_point];
  tests; cbn [andb app].

Definition credit (st : option Utf8.pending) : nat :=
  match st with None => 0 | Some _ => 1 end.

(** [Date.now()] is an integral number of milliseconds in the range of
    [Date]. *)
Definition valid_time (now : Z) : Prop := Z.abs now <= 8640000000000000.

(** V8's bound on the length of a string, [(1 << 30) - 25] code units at
    most; [JSON.stringify] throws a RangeError rather than build a longer
    one. *)
Definition MAX_STRING_LENGTH : Z := 2 ^ 30 - 25.

(** The forty-nine bytes that [createKolpFile] puts before the payload. *)
Definition header_bytes (now : Z) (payload : Buffer) : Buffer :=
  KOLP_MAGIC ++ [KOLP_VERSION] ++ Buf.le_bytes 8 (now mod 2 ^ 64)
    ++ firstn 32 (Sha256.hex payload)
    ++ Buf.le_bytes 4 (Z.of_nat (length payload)).

(** The buffer has been decoded into [file] in full: the magic matched,
    every header field was read, the stored checksum is the payload's,
    the payload parsed and the timestamp is a date. *)
Definition fully_decoded {Data} (JSON_parse : jsstring -> Result Data)
  (buffer : Buffer) (file : KolpFile Data) : Prop :=
  Buf.toString (Buf.slice buffer 0 4) = js "KOLP" /\
  Buf.readUInt8 buffer 4 = Ok (version file) /\
  (exists t, Buf.readBigInt64LE buffer 5 = Ok t /\
             toISOString t = Ok (timestamp file)) /\
  checksum file = Buf.toString (Buf.slice buffer 13 45) /\
  exists n, Buf.readUInt32LE buffer 45 = Ok n /\
    checksum file = firstn 32 (Sha256.hex (Buf.slice buffer 49 (49 + n))) /\
    JSON_parse (Buf.toString (Buf.slice buffer 49 (49 + n))) = Ok (data file).

Definition sample_container : Buffer :=
  match createKolpFile MiniJSON.stringify sample_time sample_snapshot with
  | Ok container => container
  | Throw _ => []
  end.

(** ** Vocabulary of the sync handlers *)

Definition is_refresh (e : Event) : bool :=
  match e with EvRefresh => true | _ => false end.

Definition is_request (e : Event) : bool :=
  match e with EvHttp _ _ => true | _ => false end.

(** The calls of [https.get] on which the client threw. *)
Definition is_refused (e : Event) : bool :=
  match e with EvRefused _ _ => true | _ => false end.

Definition is_token_save (e : Event) : bool :=
  match e with EvSaveTokens _ => true | _ => false end.


Definition is_drive_event (e : Event) : bool :=
  match e with EvHttp r _ => is_drive_request r | _ => false end.

Definition is_delete_event (e : Event) : bool :=
  match e with EvHttp (DriveDelete _ _) _ => true | _ => false end.

(** The bearer token of a request to the storage API. *)
Definition request_token (r : Request) : JSValue :=
  match r with
  | DriveUpload t _ _ _ | DriveList t _ _ _ | DriveDownload t _
  | DriveDelete t _ | UserInfo t => t
  | _ => JSUndefined
  end.


Definition find_request (token : JSValue) : Request :=
  DriveList token BACKUP_QUERY (js "modifiedTime desc") 1.

Definition failed {P : Platform} (message : string) : IpcResult Data :=
  Failed (JSString (js message)).

Ltac unfold_sync :=
  unfold google_sync_download, google_sync_upload, try_catch, authorize,
    refreshAccessToken, findKolpFileInDrive, downloadFromGoogleDrive,
    deleteFileFromDrive, uploadToGoogleDrive, token_of,
    loadTokens, loadCredentials, saveTokens, writeKolpFile, Date_now, emit,
    https, ret, throw, lift, mbind.

Ltac simpl_world :=
  cbn beta iota zeta delta
    [fst snd tokenFile credentialsFile kolpFile clock reads remote log
     negb truthy].

(** Symbolic execution: every branch of the handler, innermost test first. *)
Ltac run :=
  unfold_sync; simpl_world;
  repeat (match goal with
          | |- context [match ?x with _ => _ end] =>
              lazymatch x with
              | context [match _ with _ => _ end] => fail
              | _ => destruct x eqn:?
              end
          | |- context [if ?x then _ else _] =>
              lazymatch x with
              | context [match _ with _ => _ end] => fail
              | _ => destruct x eqn:?
              end
          end; simpl_world).

Ltac log_extension :=
  rewrite <- ?app_assoc; cbn [app];
  first [reflexivity | symmetry; apply app_nil_r].

Ltac in_log :=
  repeat match goal with
  | H : In _ (_ :: _) |- _ => destruct H as [H | H]
  | H : In _ [] |- _ => destruct H
  | H : _ = _ :> Event |- _ =>
      first [discriminate H | inversion H; subst; clear H]
  end.

Ltac tidy :=
  repeat match goal with
  | H : Some _ = Some _ |- _ => injection H as H; subst
  | H : Ok _ = Ok _ |- _ => injection H as H; subst
  | H : negb _ = true |- _ => apply negb_true_iff in H
  | H : negb _ = false |- _ => apply negb_false_iff in H
  | H : true = false |- _ => discriminate H
  | H : false = true |- _ => discriminate H
  | H : Some _ = None |- _ => discriminate H
  | H : None = Some _ |- _ => discriminate H
  end.

(** The refresh policy of a handler, for tokens [t] on file.  [blocked]
    is what can keep the handler from the search once the tokens are
    settled.  [refused] is the client's message. *)
Definition refresh_policy {P : Platform} (handler : M P (IpcResult Data))
  (blocked : Prop)
  (w : World P) (t : GoogleTokens) : Prop :=
  exists result w' new,
    handler w = (Ok result, w') /\
    log w' = log w ++ new /\
    (clock w (reads w) < expiry_date t - 60000 ->
     filter is_refresh new = [] /\
     filter is_request new = [] /\
     ((filter is_refused new =
         [EvRefused (find_request (access_token t)) ERR_UNESCAPED_CHARACTERS] /\
       result = Failed (JSString ERR_UNESCAPED_CHARACTERS))
      \/ blocked)) /\
    (expiry_date t - 60000 <= clock w (reads w) ->
     exists rest,
       new = EvRefresh :: rest /\
       filter is_refresh rest = [] /\
       (forall token w1,
          refreshAccessToken (snd (Date_now w)) = (Ok token, w1) ->
          truthy token = false ->
          result = failed "Token refresh failed" /\
          filter is_drive_event new = [] /\
          filter is_refused new = [])).

Ltac policy_fresh :=
  split; [reflexivity|];
  split; [reflexivity|];
  cbn [filter is_refused];
  first [ left; split; reflexivity | right; eauto ].

Ltac policy_stale :=
  eexists; split; [reflexivity|];
  split; [reflexivity|];
  intros token w1 Hrefresh Hnone;
  try (injection Hrefresh as Hrefresh _; subst; cbn [truthy] in * );
  first [ congruence | repeat split; reflexivity ].

Ltac policy_leaf :=
  split;
  [ intros Hfresh; first [ exfalso; lia | policy_fresh ]
  | intros Hstale; first [ exfalso; lia | policy_stale ] ].

Definition run_upload (w : World sample_platform) :=
  google_sync_upload (P := sample_platform) sample_snapshot w.

Definition run_download (w : World sample_platform) :=
  google_sync_download (P := sample_platform) w.

Definition backups (w : World sample_platform) : list jsstring :=
  map file_id (filter is_backup (drive_files (remote w))).

Definition one_backup_world : World sample_platform :=
  sample_world (Some fresh_tokens) (sample_store [other_file; old_backup] granted []).

(** A token that expires in exactly sixty seconds is refreshed; the
    search that follows is called with the renewed token. *)
Definition stale_world : World sample_platform :=
  sample_world (Some stale_tokens) (sample_store [old_backup] granted []).

(** The token endpoint turns the refresh down: the search is not
    called and the local backup file is not touched. *)
Definition refused_world : World sample_platform :=
  sample_world (Some stale_tokens) (sample_store [old_backup] denied []).

Definition two_backups_world : World sample_platform :=
  sample_world (Some fresh_tokens)
    (sample_store [old_backup; other_file; newer_backup] granted []).

(** A store that holds [content] as its one backup. *)
Definition stored_world (content : Buffer) : World sample_platform :=
  sample_world (Some fresh_tokens)
    (sample_store [backup_file "file-A" "kolp_backup_2024-01-01.klp" 10 content]
       granted []).

(** ** Vocabulary of the OAuth flow *)

Definition is_close (e : FlowEvent) : bool :=
  match e with FlClose => true | _ => false end.

Definition is_resolve (e : FlowEvent) : bool :=
  match e with FlResolve _ => true | _ => false end.

(** Events other than [server.close()] and [resolve]. *)
Definition quiet (events : list FlowEvent) : Prop :=
  filter is_close events = [] /\ filter is_resolve events = [].

Definition starts_exchange (e : FlowEvent) : bool :=
  match e with FlRequest (TokenExchange _ _ _) => true | _ => false end.

Definition persists (e : FlowEvent) : bool :=
  match e with FlSaveTokens _ | FlSaveCredentials _ => true | _ => false end.

Ltac unfold_flow :=
  unfold step, catch_block, finish, resolve, close, happen, set_handlers;
  cbn beta iota zeta delta
    [trace settled timer_pending server suspended flow_tokens flow_credentials
     flow_state flow_clientId flow_clientSecret flow_authUrl flow_clock
     flow_reads].

Ltac split_flow :=
  repeat (match goal with
          | |- context [match ?x with _ => _ end] =>
              lazymatch x with
              | context [match _ with _ => _ end] => fail
              | _ => destruct x eqn:?
              end
          | |- context [if ?x then _ else _] =>
              lazymatch x with
              | context [match _ with _ => _ end] => fail
              | _ => destruct x eqn:?
              end
          end;
          cbn beta iota zeta delta
            [trace settled timer_pending server suspended flow_tokens
             flow_credentials flow_state flow_clientId flow_clientSecret
             flow_authUrl flow_clock flow_reads]).

(** The promise and the listener, at any moment of a flow.  While the
    promise is pending, [server.close()] has not been called and the
    timer is pending.  Once it is resolved, the trace shows the call
    that resolved it, with [server.close()] immediately before it and
    neither a [close] nor a [resolve] earlier. *)
Definition lifecycle (f : Flow) : Prop :=
  match settled f with
  | None => quiet (trace f) /\ timer_pending f = true
  | Some result =>
      exists before after,
        trace f = before ++ [FlClose; FlResolve result] ++ after /\
        quiet before
  end.

Definition run_sample (inputs : list Input) : Flow :=
  run_flow (P := sample_platform) sample_flow inputs.

Definition forged_callback : Input :=
  Incoming (js "/callback") (JSString (js "4/0AX4XfWh-code"))
    (JSString (js "00000000000000000000000000000000")).

Definition genuine_callback : Input :=
  Incoming (js "/callback") (JSString (js "4/0AX4XfWh-code"))
    (JSString sample_state).

Definition token_reply_ok : Result JSValue :=
  Ok (JSObject [(js "access_token", JSString (js "ya29.first"));
                (js "refresh_token", JSString (js "1//refresh"));
                (js "expires_in", JSNumber 3599)]).

Definition profile_ok : Result JSValue :=
  Ok (JSObject [(js "email", JSString (js "user@example.com"))]).

(** * The requests as they are written to the socket *)

(** A code unit is a 16-bit value. *)
Definition code_units (s : jsstring) : Prop :=
  Forall (fun c => 0 <= c <= 0xFFFF) s.

(** ** [new URLSearchParams(record).toString()]

    The application/x-www-form-urlencoded serializer over the UTF-8
    bytes of each name and value, a lone surrogate counting as U+FFFD:
    letters, digits and [* - . _] stand for themselves, a space becomes
    [+], any other byte is percent-encoded. *)
Definition alphanumeric (b : Z) : bool :=
  ((48 <=? b) && (b <=? 57)) || ((65 <=? b) && (b <=? 90))
  || ((97 <=? b) && (b <=? 122)).

Definition form_unescaped (b : Z) : bool :=
  alphanumeric b || existsb (Z.eqb b) [42; 45; 46; 95].

Definition form_byte (b : Z) : jsstring :=
  if form_unescaped b then [b]
  else if b =? 32 then [43]
  else [37; upper_hex (b / 16); upper_hex (b mod 16)].

Definition form_encode (s : jsstring) : jsstring :=
  flat_map form_byte (Utf8.encode s).

Definition form_entry (entry : jsstring * jsstring) : jsstring :=
  form_encode (fst entry) ++ js "=" ++ form_encode (snd entry).

Definition URLSearchParams_toString (entries : list (jsstring * jsstring))
  : jsstring :=
  join (map form_entry entries) (js "&").

(** What [https.request] is given and what [req.write] sends. *)
Record TokenRequest : Type := {
  tr_hostname : jsstring;
  tr_path : jsstring;
  tr_method : jsstring;
  tr_content_type : jsstring;
  tr_content_length : Z;      (* postData.length, in code units *)
  tr_written : Buffer         (* req.write(postData), as UTF-8 *)
}.

Definition token_request (postData : jsstring) : TokenRequest :=
  {| tr_hostname := js "oauth2.googleapis.com";
     tr_path := js "/token";
     tr_method := js "POST";
     tr_content_type := js "application/x-www-form-urlencoded";
     tr_content_length := Z.of_nat (length postData);
     tr_written := Buf.from postData |}.

(** The request of [exchangeCodeForTokens]. *)
Definition exchange_postData (code clientId clientSecret : jsstring) : jsstring :=
  URLSearchParams_toString
    [ (js "code", code);
      (js "client_id", clientId);
      (js "client_secret", clientSecret);
      (js "redirect_uri", GOOGLE_REDIRECT_URI);
      (js "grant_type", js "authorization_code") ].

Definition exchange_request (code clientId clientSecret : jsstring)
  : TokenRequest :=
  token_request (exchange_postData code clientId clientSecret).

(** The request of [refreshAccessToken]. *)
Definition refresh_postData (clientId clientSecret refresh : jsstring)
  : jsstring :=
  URLSearchParams_toString
    [ (js "client_id", clientId);
      (js "client_secret", clientSecret);
      (js "refresh_token", refresh);
      (js "grant_type", js "refresh_token") ].

Definition refresh_request (clientId clientSecret refresh : jsstring)
  : TokenRequest :=
  token_request (refresh_postData clientId clientSecret refresh).

(** [s.split(separator)] for a one-character separator. *)
Fixpoint split_on (separator : Z) (s : jsstring) : list jsstring :=
  match s with
  | [] => [[]]
  | c :: t =>
      if c =? separator then [] :: split_on separator t
      else match split_on separator t with
           | field :: rest => (c :: field) :: rest
           | [] => [[c]]
           end
  end.

(** What the serializer can write: an ASCII character that is neither
    [&] nor [=]. *)
Definition form_character (c : Z) : Prop :=
  is_ascii c /\ c <> 38 /\ c <> 61.

Ltac booleans :=
  repeat match goal with
  | H : _ || _ = true |- _ => apply orb_true_iff in H; destruct H as [H | H]
  | H : _ && _ = true |- _ => apply andb_true_iff in H; destruct H
  | H : (_ <=? _) = true |- _ => apply Z.leb_le in H
  | H : (_ =? _) = true |- _ => apply Z.eqb_eq in H
  | H : false = true |- _ => discriminate H
  end.

Ltac literal :=
  cbn; unfold code_units, is_ascii;
  repeat (constructor; [lia|]); constructor.


(** * The account handlers *)

(** What [google-status] returns. *)
Inductive Status : Type :=
| Connected (email : JSValue) (expiresAt : Z)
    (* { connected: true, email, expiresAt } *)
| Disconnected.
    (* { connected: false } *)

Section Account.

Context {P : Platform}.

(** [deleteTokens]: the token file is removed if it is there. *)
Definition deleteTokens : M P unit :=
  fun w => (Ok tt,
            {| tokenFile := None; credentialsFile := credentialsFile w;
               kolpFile := kolpFile w; clock := clock w; reads := reads w;
               remote := remote w; log := log w |}).

Definition google_status : M P Status :=
  mbind loadTokens (fun tokens =>
    match tokens with
    | Some t => ret (Connected (email t) (expiry_date t))
    | None => ret Disconnected
    end).

Definition google_disconnect : M P bool :=
  mbind deleteTokens (fun _ => ret true).

End Account.

(** * The local file handlers *)

(** The file system under the handlers: [fs.existsSync],
    [fs.readFileSync] and [fs.writeFileSync], which can throw, and
    [path.join]. *)
Class FileSystem : Type := {
  Disk : Type;
  existsSync : Disk -> jsstring -> bool;
  readFileSync : Disk -> jsstring -> Result Buffer;
  writeFileSync : Disk -> jsstring -> Buffer -> Result unit * Disk;
  path_join : jsstring -> jsstring -> jsstring
}.

(** What a local handler returns. *)
Inductive LocalResult (A : Type) : Type :=
| LocalSuccess (value : A)
    (* { success: true, ... } *)
| LocalFailure (error : jsstring).
    (* { success: false, error } *)
Arguments LocalSuccess {A} value.
Arguments LocalFailure {A} error.

(** What the dialogs resolve to.  A path that is absent counts as the
    empty string: both are falsy. *)
Record SaveDialogReturnValue : Type := {
  save_canceled : bool;
  save_filePath : jsstring
}.

Record OpenDialogReturnValue : Type := {
  open_canceled : bool;
  open_filePaths : list jsstring
}.

Definition is_empty (s : jsstring) : bool :=
  match s with [] => true | _ :: _ => false end.

Section LocalFiles.

Context {F : FileSystem}.

(** [save-file]: the content is written as UTF-8. *)
Definition save_file (filePath content : jsstring) (disk : Disk)
  : LocalResult unit * Disk :=
  match writeFileSync disk filePath (Buf.from content) with
  | (Ok _, disk') => (LocalSuccess tt, disk')
  | (Throw message, disk') => (LocalFailure message, disk')
  end.

(** [read-file]: the bytes are read as UTF-8. *)
Definition read_file (filePath : jsstring) (disk : Disk) : LocalResult jsstring :=
  match readFileSync disk filePath with
  | Ok bytes => LocalSuccess (Buf.toString bytes)
  | Throw message => LocalFailure message
  end.

Variable Data : Type.
Variable JSON_stringify : Data -> Result (option jsstring).
Variable JSON_parse : jsstring -> Result Data.

(** The end of [kolp-import] and [kolp-load-local]: read and decode. *)
Definition read_kolp (filePath : jsstring) (disk : Disk)
  : LocalResult (KolpFile Data) :=
  match readFileSync disk filePath with
  | Throw message => LocalFailure message
  | Ok buffer =>
      match parseKolpFile JSON_parse buffer with
      | Some parsed => LocalSuccess parsed
      | None => LocalFailure (js "Invalid KOLP file")
      end
  end.

(** The end of [kolp-export] and [kolp-save-local]: encode and write. *)
Definition write_kolp (filePath : jsstring) (now : Z) (data : Data)
  (disk : Disk) : LocalResult jsstring * Disk :=
  match createKolpFile JSON_stringify now data with
  | Throw message => (LocalFailure message, disk)
  | Ok kolpBuffer =>
      match writeFileSync disk filePath kolpBuffer with
      | (Ok _, disk') => (LocalSuccess filePath, disk')
      | (Throw message, disk') => (LocalFailure message, disk')
      end
  end.

(** [kolp-export]; [dialog] is what [dialog.showSaveDialog] resolves
    to, or the message it rejects with. *)
Definition kolp_export (dialog : Result SaveDialogReturnValue) (now : Z)
  (data : Data) (disk : Disk) : LocalResult jsstring * Disk :=
  match dialog with
  | Throw message => (LocalFailure message, disk)
  | Ok result =>
      if negb (save_canceled result) && negb (is_empty (save_filePath result))
      then write_kolp (save_filePath result) now data disk
      else (LocalFailure (js "Cancelled"), disk)
  end.

(** [kolp-import] *)
Definition kolp_import (dialog : Result OpenDialogReturnValue) (disk : Disk)
  : LocalResult (KolpFile Data) :=
  match dialog with
  | Throw message => LocalFailure message
  | Ok result =>
      match open_canceled result, open_filePaths result with
      | false, first :: _ => read_kolp first disk
      | _, _ => LocalFailure (js "Cancelled")
      end
  end.

(** [kolp-load-local] *)
Definition kolp_load_local (folderPath : jsstring) (disk : Disk)
  : LocalResult (KolpFile Data) :=
  let backupPath := path_join folderPath (js "kolp_backup.klp") in
  if existsSync disk backupPath then read_kolp backupPath disk
  else LocalFailure (js "Backup file not found").

End LocalFiles.

Arguments kolp_export {F Data} JSON_stringify dialog now data disk.
Arguments kolp_import {F Data} JSON_parse dialog disk.
Arguments kolp_load_local {F Data} JSON_parse folderPath disk.
Arguments read_kolp {F Data} JSON_parse filePath disk.
Arguments write_kolp {F Data} JSON_stringify filePath now data disk.

(** [kolp-save-local] takes a folder and no data: what it encodes is
    this object, [exportDate] being the text of [new Date().toISOString()]. *)
Definition placeholder (exportDate : jsstring) : JSValue :=
  JSObject
    [ (js "notes", JSArray []);
      (js "folders", JSArray []);
      (js "tags", JSArray []);
      (js "settings", JSObject []);
      (js "attachments", JSObject []);
      (js "exportDate", JSString exportDate);
      (js "version", JSString (js "1.0.0")) ].

Definition kolp_save_local {F : FileSystem}
  (JSON_stringify : JSValue -> Result (option jsstring))
  (folderPath exportDate : jsstring) (now : Z) (disk : Disk)
  : LocalResult jsstring * Disk :=
  let backupPath := path_join folderPath (js "kolp_backup.klp") in
  write_kolp JSON_stringify backupPath now (placeholder exportDate) disk.

(** A file system in memory, for running the handlers: the files are
    the pairs of a list, the latest first, and a write needs a path. *)
Fixpoint disk_find (filePath : jsstring) (files : list (jsstring * Buffer))
  : option Buffer :=
  match files with
  | [] => None
  | (name, bytes) :: rest =>
      if jsstring_eqb filePath name then Some bytes else disk_find filePath rest
  end.

Definition memory_disk : FileSystem := {|
  Disk := list (jsstring * Buffer);
  existsSync := fun files filePath =>
    match disk_find filePath files with Some _ => true | None => false end;
  readFileSync := fun files filePath =>
    match disk_find filePath files with
    | Some bytes => Ok bytes
    | None => Throw (js "ENOENT: no such file or directory")
    end;
  writeFileSync := fun files filePath bytes =>
    if is_empty filePath then (Throw (js "ENOENT: no such file or directory"), files)
    else (Ok tt, (filePath, bytes) :: files);
  path_join := fun folder name => folder ++ js "/" ++ name
|}.

(** ** Samples for the codec, the flow and the file handlers *)

Definition sample_file : KolpFile JSValue :=
  {| version := 1; timestamp := ISO sample_time;
     checksum := firstn 32 (Sha256.hex (Utf8.encode sample_text));
     data := sample_snapshot |}.

Definition sample_path : jsstring := js "/home/user/backup.klp".

Definition sample_save : SaveDialogReturnValue :=
  {| save_canceled := false; save_filePath := sample_path |}.

Definition sample_export_date : jsstring := js "2023-11-14T22:13:20.000Z".

Definition sample_placeholder_text : jsstring :=
  match MiniJSON.text (placeholder sample_export_date) with
  | Some t => t
  | None => []
  end.

Definition sample_placeholder_container : Buffer :=
  match createKolpFile MiniJSON.stringify sample_time
          (placeholder sample_export_date) with
  | Ok container => container
  | Throw _ => []
  end.

Definition sample_client_id : jsstring := js "1234-abc.apps.googleusercontent.com".

Definition sample_code : JSValue := JSString (js "4/0AX4XfWh-code").

Definition sample_token_response : JSValue :=
  JSObject [(js "access_token", JSString (js "ya29.first"));
            (js "refresh_token", JSString (js "1//refresh"));
            (js "expires_in", JSNumber 3599)].

Definition sample_refusal : JSValue :=
  JSObject [(js "error", JSString (js "invalid_grant"))].

Definition sample_profile : JSValue :=
  JSObject [(js "email", JSString (js "user@example.com"))].

(** A code with a space, an ampersand, an equals sign and characters
    outside ASCII, one of them a lone surrogate. *)
Definition awkward_code : jsstring :=
  js "4/0A &grant_type=x" ++ [0xF6; 0x20AC; 0xD83D; 0xDE00; 0xDC00].

Definition sample_callback : Input :=
  Incoming (js "/callback") sample_code (JSString sample_state).

(** The code is turned down. *)
Definition refused_flow : Flow :=
  run_sample [Listening; sample_callback; Settles 0 (Ok sample_refusal)].

(** Both replies arrive in time. *)
Definition success_flow : Flow :=
  run_sample [Listening; sample_callback; Settles 0 (Ok sample_token_response);
              Settles 0 (Ok sample_profile)].

(** The timer fires before the replies arrive. *)
Definition late_flow : Flow :=
  run_sample [Listening; sample_callback; TimerFires;
              Settles 0 (Ok sample_token_response);
              Settles 0 (Ok sample_profile)].

Definition sample_saved : GoogleTokens :=
  {| access_token := JSString (js "ya29.first");
     refresh_token := JSString (js "1//refresh");
     expiry_date := sample_time + 3599 * 1000;
     email := JSString (js "user@example.com") |}.

Definition sample_secrets : GoogleCredentials :=
  {| clientId := sample_client_id; clientSecret := js "secret" |}.

(** ** The body of the upload

    [uploadToGoogleDrive] sends the container as the second part of a
    multipart/related body.  A part ends where the delimiter, a line
    break followed by two hyphens and the boundary, next occurs. *)
Definition CRLF : jsstring := [13; 10].

Definition boundary : jsstring := js "-------314159265358979323846".

Definition upload_tail : Buffer :=
  Buf.from (CRLF ++ js "--" ++ boundary ++ js "--").

(** [metadata] is the text of [JSON.stringify({ name, mimeType })]. *)
Definition upload_body (metadata : jsstring) (kolpBuffer : Buffer) : Buffer :=
  Buf.concat
    [ Buf.from (js "--" ++ boundary ++ CRLF
                ++ js "Content-Type: application/json; charset=UTF-8"
                ++ CRLF ++ CRLF ++ metadata ++ CRLF);
      Buf.from (js "--" ++ boundary ++ CRLF
                ++ js "Content-Type: application/octet-stream" ++ CRLF ++ CRLF);
      kolpBuffer;
      upload_tail ].

Definition delimiter : Buffer := Buf.from (CRLF ++ js "--" ++ boundary).

(** [needle] is in [hay] at offset [p]. *)
Definition occurs_at (needle hay : Buffer) (p : nat) : bool :=
  is_prefix needle (skipn p hay).

Definition hex_character (c : Z) : Prop :=
  48 <= c <= 57 \/ 97 <= c <= 102.

Definition sample_metadata : jsstring :=
  match MiniJSON.text
          (JSObject [(js "name",
                      JSString (js "kolp_backup_2023-11-14T22-13-20-000Z.klp"));
                     (js "mimeType", JSString (js "application/octet-stream"))])
  with
  | Some t => t
  | None => []
  end.

(** * Facts about the platform model *)

Lemma jsstring_eqb_eq : forall a b, jsstring_eqb a b = true <-> a = b.
Proof.
  induction a as [|x a IH]; destruct b as [|y b]; simpl; split;
    try congruence; try reflexivity.
  - intros H. apply andb_true_iff in H as [Hx Hr].
    apply Z.eqb_eq in Hx. apply IH in Hr. congruence.
  - intros H. injection H as -> ->. rewrite Z.eqb_refl. simpl.
    apply IH. reflexivity.
Qed.

Lemma jsstring_eqb_refl : forall a, jsstring_eqb a a = true.
Proof. intros a. apply jsstring_eqb_eq. reflexivity. Qed.

Example sha256_constants :
  firstn 2 Sha256.K = [0x428a2f98; 0x71374491] /\
  nth 63 Sha256.K 0 = 0xc67178f2 /\
  Sha256.ha Sha256.initial = 0x6a09e667 /\
  Sha256.hh Sha256.initial = 0x5be0cd19.
Proof. vm_compute. auto. Qed.

Example sha256_abc :
  Sha256.hex (js "abc") =
  js "ba7816bf8f01cfea414140de5dae2223b00361a396177a9cb410ff61f20015ad".
Proof. vm_compute. reflexivity. Qed.

Example sha256_empty :
  Sha256.hex [] =
  js "e3b0c44298fc1c149afbf4c8996fb92427ae41e4649b934ca495991b7852b855".
Proof. vm_compute. reflexivity. Qed.

Example sha256_two_blocks :
  Sha256.hex (js "abcdbcdecdefdefgefghfghighijhijkijkljklmklmnlmnomnopnopq") =
  js "248d6a61d20638b8e5c026930c3e6039a33ce45964ff2167f6ecedd419db06c1".
Proof. vm_compute. reflexivity. Qed.

Example utf8_encode_euro : Utf8.encode [0x20AC] = [0xE2; 0x82; 0xAC].
Proof. reflexivity. Qed.

Example utf8_encode_pair :
  Utf8.encode [0xD83D; 0xDE00] = [0xF0; 0x9F; 0x98; 0x80].
Proof. reflexivity. Qed.

Example utf8_encode_lone : Utf8.encode [0xD83D; 0x41] = [0xEF; 0xBF; 0xBD; 0x41].
Proof. reflexivity. Qed.

Example utf8_decode_pair :
  Utf8.decode [0xF0; 0x9F; 0x98; 0x80; 0xE2; 0x82; 0xAC; 0x41] =
  [0xD83D; 0xDE00; 0x20AC; 0x41].
Proof. reflexivity. Qed.

Example utf8_decode_truncated : Utf8.decode [0xE2; 0x82] = [0xFFFD].
Proof. reflexivity. Qed.

Lemma decode_one : forall c rest, 0 <= c < 0x80 ->
  Utf8.decode_from None (c :: rest) = c :: Utf8.decode_from None rest.
Proof.
  intros c rest H. decode_step. reflexivity.
Qed.

Lemma decode_two : forall c rest, 0x80 <= c < 0x800 ->
  Utf8.decode_from None ((0xC0 + c / 64) :: (0x80 + c mod 64) :: rest)
  = c :: Utf8.decode_from None rest.
Proof.
  intros c rest H. decode_step. decode_step. f_equal. divlia.
Qed.

Lemma decode_three : forall c rest,
  0x800 <= c < 0x10000 -> ~ (0xD800 <= c <= 0xDFFF) ->
  Utf8.decode_from None
    ((0xE0 + c / 4096) :: (0x80 + (c / 64) mod 64) :: (0x80 + c mod 64) :: rest)
  = c :: Utf8.decode_from None rest.
Proof.
  intros c rest H Hs. decode_step; decode_step; decode_step; f_equal; divlia.
Qed.

Lemma decode_four : forall cp rest,
  0x10000 <= cp < 0x110000 ->
  Utf8.decode_from None
    ((0xF0 + cp / 262144) :: (0x80 + (cp / 4096) mod 64)
       :: (0x80 + (cp / 64) mod 64) :: (0x80 + cp mod 64) :: rest)
  = (0xD800 + (cp - 0x10000) / 0x400) :: (0xDC00 + (cp - 0x10000) mod 0x400)
      :: Utf8.decode_from None rest.
Proof.
  intros c rest H.
  decode_step; decode_step; decode_step; decode_step; 
  repeat f_equal; divlia.
Qed.

Lemma surrogate_range_high : forall c,
  is_high_surrogate c = true <-> 0xD800 <= c <= 0xDBFF.
Proof. intros c. unfold is_high_surrogate. rewrite andb_true_iff, !Z.leb_le. tauto. Qed.

Lemma surrogate_range_low : forall c,
  is_low_surrogate c = true <-> 0xDC00 <= c <= 0xDFFF.
Proof. intros c. unfold is_low_surrogate. rewrite andb_true_iff, !Z.leb_le. tauto. Qed.

Lemma decode_encode_bounded : forall n s,
  (length s <= n)%nat -> well_formed s = true ->
  Utf8.decode_from None (Utf8.encode s) = s.
Proof.
  induction n as [|n IH]; intros s Hn Hwf.
  - destruct s; [reflexivity | simpl in Hn; lia].
  - destruct s as [|c t]; [reflexivity|].
    cbn [length] in Hn. cbn [well_formed] in Hwf. cbn [Utf8.encode].
    destruct ((0 <=? c) && (c <=? 0xFFFF)) eqn:Hr; cbn [negb] in Hwf;
      [|discriminate].
    apply andb_true_iff in Hr as [H0 H1]. apply Z.leb_le in H0, H1.
    destruct (is_high_surrogate c) eqn:Hh.
    + apply surrogate_range_high in Hh.
      destruct t as [|d t']; [discriminate|].
      apply andb_true_iff in Hwf as [Hl Hwf]. rewrite Hl.
      apply surrogate_range_low in Hl. cbn [length] in Hn.
      destruct (Z.ltb_spec c 0x80); [lia|].
      destruct (Z.ltb_spec c 0x800); [lia|].
      rewrite decode_four by lia.
      rewrite IH by (assumption || lia).
      f_equal; [divlia | f_equal; divlia].
    + assert (Hnh : ~ 0xD800 <= c <= 0xDBFF).
      { intros X. apply surrogate_range_high in X. congruence. }
      destruct (is_low_surrogate c) eqn:Hl; [discriminate|].
      assert (Hnl : ~ 0xDC00 <= c <= 0xDFFF).
      { intros X. apply surrogate_range_low in X. congruence. }
      destruct (Z.ltb_spec c 0x80).
      * rewrite decode_one by lia. rewrite IH by (assumption || lia). reflexivity.
      * destruct (Z.ltb_spec c 0x800).
        -- rewrite decode_two by lia. rewrite IH by (assumption || lia). reflexivity.
        -- rewrite decode_three by lia. rewrite IH by (assumption || lia). reflexivity.
Qed.

Theorem decode_encode : forall s,
  well_formed s = true -> Utf8.decode (Utf8.encode s) = s.
Proof. intros s. apply (decode_encode_bounded (length s)). lia. Qed.

Lemma encode_length_bounded : forall n s,
  (length s <= n)%nat -> (length (Utf8.encode s) <= 3 * length s)%nat.
Proof.
  induction n as [|n IH]; intros s Hn.
  - destruct s; cbn [length Utf8.encode] in *; lia.
  - destruct s as [|c t]; [cbn [length Utf8.encode]; lia|].
    cbn [length] in Hn. cbn [Utf8.encode].
    assert (Ht : (length (Utf8.encode t) <= 3 * length t)%nat) by (apply IH; lia).
    destruct (c <? 0x80); [cbn [length]; lia|].
    destruct (c <? 0x800); [cbn [length]; lia|].
    destruct (is_high_surrogate c).
    + destruct t as [|d t']; [cbn [length Utf8.replacement]; lia|].
      destruct (is_low_surrogate d).
      * assert (Ht' : (length (Utf8.encode t') <= 3 * length t')%nat).
        { apply IH. cbn [length] in Hn. lia. }
        cbn [length]. lia.
      * rewrite length_app. cbn [length Utf8.replacement] in *. lia.
    + destruct (is_low_surrogate c).
      * rewrite length_app. cbn [length Utf8.replacement]. lia.
      * cbn [length]. lia.
Qed.

Lemma encode_ascii : forall s, Forall is_ascii s -> Utf8.encode s = s.
Proof.
  induction 1 as [|c t Hc _ IH]; [reflexivity|].
  cbn [Utf8.encode]. unfold is_ascii in Hc.
  destruct (Z.ltb_spec c 0x80); [|lia]. now rewrite IH.
Qed.

Lemma well_formed_ascii : forall s, Forall is_ascii s -> well_formed s = true.
Proof.
  induction 1 as [|c t Hc _ IH]; [reflexivity|].
  cbn [well_formed]. unfold is_ascii in Hc.
  unfold is_high_surrogate, is_low_surrogate.
  repeat match goal with
  | |- context [?a <=? ?b] => destruct (Z.leb_spec a b); try lia
  end; cbn [andb negb]. exact IH.
Qed.

Lemma first_byte_credit : forall b,
  (length (fst (Utf8.first_byte b)) + credit (snd (Utf8.first_byte b)) <= 1)%nat.
Proof.
  intros b. unfold Utf8.first_byte.
  repeat match goal with |- context [if ?c then _ else _] => destruct c end;
    cbn; lia.
Qed.

Lemma decode_from_length : forall bytes st,
  (length (Utf8.decode_from st bytes) <= length bytes + credit st)%nat.
Proof.
  induction bytes as [|b t IH]; intros st.
  - destruct st; cbn; lia.
  - cbn [Utf8.decode_from length].
    destruct (Utf8.step st b) as [out st'] eqn:Hs.
    rewrite length_app. specialize (IH st').
    enough (length out + credit st' <= 1 + credit st)%nat by lia.
    clear IH. destruct st as [p|]; cbn [Utf8.step credit] in *.
    + destruct (Utf8.in_range (Utf8.lower p) (Utf8.upper p) b).
      * destruct (Utf8.needed p); injection Hs as <- <-; cbn [credit length].
        -- unfold Utf8.units. destruct (_ <? _); cbn [length]; lia.
        -- lia.
      * pose proof (first_byte_credit b) as Hc.
        destruct (Utf8.first_byte b) as [o s']. injection Hs as <- <-.
        cbn [fst snd length] in *. lia.
    + pose proof (first_byte_credit b) as Hc. rewrite Hs in Hc.
      cbn [fst snd] in Hc. lia.
Qed.

Lemma decode_length : forall bytes,
  (length (Utf8.decode bytes) <= length bytes)%nat.
Proof. intros. unfold Utf8.decode. rewrite decode_from_length. cbn. lia. Qed.

(** SHA-256 digests in hexadecimal *)

Lemma hex_digit_ascii : forall y, is_ascii (Sha256.hex_digit (y mod 16)).
Proof.
  intros y. unfold Sha256.hex_digit, is_ascii.
  destruct (Z.ltb_spec (y mod 16) 10); divlia.
Qed.

Lemma hex32_ascii : forall x, Forall is_ascii (Sha256.hex32 x).
Proof.
  intros x. unfold Sha256.hex32. cbn [map].
  repeat constructor; apply hex_digit_ascii.
Qed.

Lemma hex_length : forall m, length (Sha256.hex m) = 64%nat.
Proof.
  intros m. unfold Sha256.hex, Sha256.hex32.
  rewrite !length_app, !length_map. reflexivity.
Qed.

Lemma hex_ascii : forall m, Forall is_ascii (Sha256.hex m).
Proof.
  intros m. unfold Sha256.hex.
  repeat (apply Forall_app; split); apply hex32_ascii.
Qed.

Lemma Forall_firstn_ascii : forall n s, Forall is_ascii s -> Forall is_ascii (firstn n s).
Proof.
  intros n s H. revert n. induction H; intros [|n]; cbn [firstn]; auto.
Qed.

Lemma checksum_length : forall m, length (firstn 32 (Sha256.hex m)) = 32%nat.
Proof. intros m. rewrite length_firstn, hex_length. reflexivity. Qed.

Lemma checksum_ascii : forall m, Forall is_ascii (firstn 32 (Sha256.hex m)).
Proof. intros m. apply Forall_firstn_ascii, hex_ascii. Qed.

Lemma toString_from_ascii : forall s,
  Forall is_ascii s -> Buf.toString (Buf.from s) = s.
Proof.
  intros s H. unfold Buf.toString, Buf.from.
  apply decode_encode, well_formed_ascii, H.
Qed.

(** Little-endian integers *)

Lemma le_bytes_length : forall n v, length (Buf.le_bytes n v) = n.
Proof. induction n; intros v; cbn [Buf.le_bytes length]; auto. Qed.

Lemma le_value_bytes : forall n v,
  0 <= v < 256 ^ Z.of_nat n -> Buf.le_value (Buf.le_bytes n v) = v.
Proof.
  induction n as [|n IH]; intros v Hv.
  - cbn in *. lia.
  - cbn [Buf.le_bytes Buf.le_value].
    rewrite Nat2Z.inj_succ, Z.pow_succ_r in Hv by lia.
    rewrite IH by divlia. divlia.
Qed.

(** Windows of a buffer *)

Lemma window_at : forall (pre mid post : list Z) o w,
  length pre = o -> length mid = w ->
  firstn w (skipn o (pre ++ mid ++ post)) = mid.
Proof.
  intros pre mid post o w <- <-.
  rewrite skipn_app, skipn_all, Nat.sub_diag, skipn_0. cbn [app].
  rewrite firstn_app, firstn_all, Nat.sub_diag, firstn_0. apply app_nil_r.
Qed.

Lemma copy_at : forall (src pre mid post : list Z) o,
  length pre = o -> length mid = length src ->
  Buf.copy src (pre ++ mid ++ post) o = pre ++ src ++ post.
Proof.
  intros src pre mid post o <- Hm. unfold Buf.copy.
  rewrite firstn_app, firstn_all, Nat.sub_diag, firstn_0, app_nil_r.
  f_equal. f_equal.
  - apply firstn_all2. rewrite !length_app. lia.
  - rewrite <- Hm, app_assoc, <- length_app. 
    rewrite skipn_app, skipn_all, Nat.sub_diag, skipn_0. reflexivity.
Qed.

Lemma copy_length : forall src target o,
  (o <= length target)%nat -> length (Buf.copy src target o) = length target.
Proof.
  intros src target o H. unfold Buf.copy.
  rewrite !length_app, !length_firstn, length_skipn. lia.
Qed.

Lemma write_ok : forall b width lo hi value offset,
  lo <= value <= hi -> (offset + width <= length b)%nat ->
  Buf.write b width lo hi value offset =
  Ok (Buf.copy (Buf.le_bytes width (value mod 256 ^ Z.of_nat width)) b offset).
Proof.
  intros b width lo hi value offset [Hl Hh] Ho. unfold Buf.write.
  apply Z.leb_le in Hl, Hh. apply Nat.leb_le in Ho.
  rewrite Hl, Hh, Ho. reflexivity.
Qed.

Example sample_round_trip :
  MiniJSON.parse
    (match MiniJSON.text sample_snapshot with Some t => t | None => [] end)
  = Ok sample_snapshot.
Proof. vm_compute. reflexivity. Qed.

Example sample_container_round_trip :
  match createKolpFile MiniJSON.stringify sample_time sample_snapshot with
  | Ok container =>
      option_map data (parseKolpFile MiniJSON.parse container)
  | Throw _ => None
  end = Some sample_snapshot.
Proof. vm_compute. reflexivity. Qed.

(** * The container codec *)

Lemma header_bytes_length : forall now payload,
  length (header_bytes now payload) = 49%nat.
Proof.
  intros. unfold header_bytes.
  rewrite !length_app, !le_bytes_length, checksum_length. reflexivity.
Qed.

Lemma header_written : forall now (ck : Buffer) n,
  length ck = 32%nat ->
  Buf.copy (Buf.le_bytes 4 n)
    (Buf.copy ck
       (Buf.copy (Buf.le_bytes 8 now)
          (Buf.copy (Buf.le_bytes 1 (KOLP_VERSION mod 256 ^ Z.of_nat 1))
             (Buf.copy KOLP_MAGIC (Buf.alloc 49) 0) 4) 5) 13) 45
  = KOLP_MAGIC ++ [KOLP_VERSION] ++ Buf.le_bytes 8 now ++ ck ++ Buf.le_bytes 4 n.
Proof.
  intros now ck n Hck.
  change (Buf.copy (Buf.le_bytes 1 (KOLP_VERSION mod 256 ^ Z.of_nat 1))
            (Buf.copy KOLP_MAGIC (Buf.alloc 49) 0) 4)
    with ((KOLP_MAGIC ++ [KOLP_VERSION]) ++ repeat 0 8 ++ repeat 0 36).
  rewrite copy_at by (reflexivity || now rewrite le_bytes_length).
  change (repeat 0 36) with (repeat 0 32 ++ repeat 0 4).
  rewrite (app_assoc (KOLP_MAGIC ++ [KOLP_VERSION])).
  rewrite copy_at; [| rewrite length_app, le_bytes_length; reflexivity
                    | rewrite Hck; reflexivity ].
  rewrite <- (app_nil_r (repeat 0 4)).
  rewrite (app_assoc _ ck).
  rewrite copy_at; [| rewrite !length_app, le_bytes_length, Hck; reflexivity
                    | rewrite le_bytes_length; reflexivity ].
  rewrite app_nil_r, <- !app_assoc. reflexivity.
Qed.

Lemma valid_time_int64 : forall now,
  valid_time now -> - 2 ^ 63 <= now <= 2 ^ 63 - 1.
Proof. unfold valid_time. intros now H. lia. Qed.

Lemma payload_length_u32 : forall text,
  Z.of_nat (length text) <= MAX_STRING_LENGTH ->
  0 <= Z.of_nat (length (Utf8.encode text)) <= 4294967295.
Proof.
  intros text H. unfold MAX_STRING_LENGTH in H.
  pose proof (encode_length_bounded (length text) text (le_n _)). lia.
Qed.

(** The fields of a buffer laid out as a container. *)
Lemma container_windows : forall (m ts ck ln payload : Buffer) v,
  length m = 4%nat -> length ts = 8%nat -> length ck = 32%nat ->
  length ln = 4%nat ->
  let buffer := m ++ [v] ++ ts ++ ck ++ ln ++ payload in
  firstn 4 buffer = m /\
  firstn 1 (skipn 4 buffer) = [v] /\
  firstn 8 (skipn 5 buffer) = ts /\
  firstn 32 (skipn 13 buffer) = ck /\
  firstn 4 (skipn 45 buffer) = ln /\
  skipn 49 buffer = payload.
Proof.
  intros m ts ck ln payload v Hm Hts Hck Hln buffer. subst buffer.
  repeat split.
  - apply (window_at [] m _ 0%nat 4%nat); auto.
  - apply (window_at m [v] _ 4%nat 1%nat); auto.
  - rewrite (app_assoc m). apply window_at; auto.
    rewrite length_app, Hm. reflexivity.
  - rewrite (app_assoc m), (app_assoc _ ts). apply window_at; auto.
    rewrite !length_app, Hm, Hts. reflexivity.
  - rewrite (app_assoc m), (app_assoc _ ts), (app_assoc _ ck).
    apply window_at; auto.
    rewrite !length_app, Hm, Hts, Hck. reflexivity.
  - rewrite (app_assoc m), (app_assoc _ ts), (app_assoc _ ck), (app_assoc _ ln).
    rewrite skipn_app.
    rewrite skipn_all2 by (rewrite !length_app, Hm, Hts, Hck, Hln; cbn; lia).
    rewrite !length_app, Hm, Hts, Hck, Hln. reflexivity.
Qed.

Lemma read_window : forall b width offset w,
  (offset + width <= length b)%nat ->
  firstn width (skipn offset b) = w ->
  Buf.read b width offset = Ok (Buf.le_value w).
Proof.
  intros b width offset w Ho <-. unfold Buf.read.
  apply Nat.leb_le in Ho. rewrite Ho. reflexivity.
Qed.

Lemma slice_payload : forall b n,
  Buf.slice b 49 (49 + n) = firstn (Z.to_nat n) (skipn 49 b).
Proof.
  intros b n. unfold Buf.slice. f_equal. lia.
Qed.

Lemma magic_text : Buf.toString KOLP_MAGIC = js "KOLP".
Proof. reflexivity. Qed.

Lemma int64_round_trip : forall t,
  - 2 ^ 63 <= t <= 2 ^ 63 - 1 ->
  (let u := Buf.le_value (Buf.le_bytes 8 (t mod 2 ^ 64)) in
   if u <? 2 ^ 63 then u else u - 2 ^ 64) = t.
Proof.
  intros t Ht. cbv zeta.
  rewrite le_value_bytes by (change (256 ^ Z.of_nat 8) with (2 ^ 64); apply Z.mod_pos_bound; lia).
  destruct (Z.ltb_spec (t mod 2 ^ 64) (2 ^ 63)); divlia.
Qed.

Lemma toString_ascii : forall s, Forall is_ascii s -> Buf.toString s = s.
Proof.
  intros s H. rewrite <- (encode_ascii s H) at 1. apply toString_from_ascii, H.
Qed.

Lemma header_bytes_fields : forall now payload,
  header_bytes now payload ++ payload =
  KOLP_MAGIC ++ [KOLP_VERSION] ++ Buf.le_bytes 8 (now mod 2 ^ 64)
    ++ firstn 32 (Sha256.hex payload)
    ++ Buf.le_bytes 4 (Z.of_nat (length payload)) ++ payload.
Proof. intros. unfold header_bytes. rewrite <- !app_assoc. reflexivity. Qed.

Section CodecFacts.

Variable Data : Type.
Variable JSON_stringify : Data -> Result (option jsstring).
Variable JSON_parse : jsstring -> Result Data.

(** What [createKolpFile] returns when the serialization fits. *)
Lemma createKolpFile_bytes : forall snapshot text now,
  JSON_stringify snapshot = Ok (Some text) ->
  Z.of_nat (length text) <= MAX_STRING_LENGTH ->
  valid_time now ->
  createKolpFile JSON_stringify now snapshot =
  Ok (header_bytes now (Utf8.encode text) ++ Utf8.encode text).
Proof.
  intros snapshot text now Hs Hlen Hnow.
  unfold createKolpFile. rewrite Hs. cbn [bind Buffer_from].
  unfold Buf.writeUInt8, Buf.writeBigInt64LE, Buf.writeUInt32LE.
  rewrite write_ok;
    [| unfold KOLP_VERSION; lia
     | rewrite copy_length; cbn; lia ].
  cbn [bind].
  rewrite write_ok;
    [| apply valid_time_int64, Hnow
     | rewrite !copy_length; cbn; lia ].
  cbn [bind].
  rewrite write_ok;
    [| apply payload_length_u32, Hlen
     | rewrite !copy_length; cbn; lia ].
  cbn [bind].
  unfold Buf.from at 1. rewrite (encode_ascii (firstn 32 _)) by apply checksum_ascii.
  rewrite header_written by apply checksum_length.
  unfold Buf.concat, Buf.from. cbn [concat]. rewrite app_nil_r.
  unfold header_bytes. repeat f_equal.
  change (256 ^ Z.of_nat 4) with 4294967296.
  pose proof (payload_length_u32 text Hlen). apply Z.mod_small. lia.
Qed.

(** [parseKolpFile]'s [try] block on a buffer that has all six fields. *)
Lemma parse_laid_out : forall (m ts ck ln rest : Buffer) v,
  length m = 4%nat -> length ts = 8%nat -> length ck = 32%nat ->
  length ln = 4%nat ->
  parseKolpFile_try JSON_parse (m ++ [v] ++ ts ++ ck ++ ln ++ rest) =
  if negb (jsstring_eqb (Buf.toString m) (js "KOLP"))
  then Throw (js "Invalid KOLP file format")
  else
    let t := (let u := Buf.le_value ts in
              if u <? 2 ^ 63 then u else u - 2 ^ 64) in
    let dataBuffer := firstn (Z.to_nat (Buf.le_value ln)) rest in
    if negb (jsstring_eqb (Buf.toString ck)
               (firstn 32 (Sha256.hex dataBuffer)))
    then Throw (js "Checksum verification failed")
    else
      (data <- JSON_parse (Buf.toString dataBuffer);;
       iso <- toISOString t;;
       Ok {| version := v; timestamp := iso;
             checksum := Buf.toString ck; data := data |})%result.
Proof.
  intros m ts ck ln rest v Hm Hts Hck Hln.
  destruct (container_windows m ts ck ln rest v Hm Hts Hck Hln)
    as (Wm & Wv & Wts & Wck & Wln & Wrest).
  assert (Hlen : (49 <= length (m ++ [v] ++ ts ++ ck ++ ln ++ rest))%nat).
  { rewrite !length_app, Hm, Hts, Hck, Hln. cbn [length]. lia. }
  unfold parseKolpFile_try.
  change (Buf.slice ?b 0 4) with (firstn 4 b). rewrite Wm.
  destruct (negb (jsstring_eqb (Buf.toString m) (js "KOLP"))); [reflexivity|].
  unfold Buf.readUInt8, Buf.readBigInt64LE, Buf.readUInt32LE.
  rewrite (read_window _ 1 4 [v]) by (lia || exact Wv).
  rewrite (read_window _ 8 5 ts) by (lia || exact Wts).
  rewrite (read_window _ 4 45 ln) by (lia || exact Wln).
  cbn [bind]. rewrite slice_payload, Wrest.
  change (Buf.slice ?b 13 45) with (firstn 32 (skipn 13 b)). rewrite Wck.
  cbn [Buf.le_value]. rewrite Z.mul_0_r, Z.add_0_r. reflexivity.
Qed.

Lemma parse_created : forall text d now,
  well_formed text = true ->
  Z.of_nat (length text) <= MAX_STRING_LENGTH ->
  JSON_parse text = Ok d ->
  valid_time now ->
  parseKolpFile_try JSON_parse
    (header_bytes now (Utf8.encode text) ++ Utf8.encode text) =
  Ok {| version := 1; timestamp := ISO now;
        checksum := firstn 32 (Sha256.hex (Utf8.encode text)); data := d |}.
Proof.
  intros text d now Hwf Hlen Hd Hnow.
  rewrite header_bytes_fields.
  rewrite parse_laid_out
    by (reflexivity || apply le_bytes_length || apply checksum_length).
  rewrite magic_text, jsstring_eqb_refl. cbn [negb]. cbv zeta.
  pose proof (payload_length_u32 text Hlen) as Hn.
  rewrite (le_value_bytes 4) by (change (256 ^ Z.of_nat 4) with 4294967296; lia).
  rewrite Nat2Z.id, firstn_all.
  rewrite (toString_ascii (firstn 32 _)) by apply checksum_ascii.
  rewrite jsstring_eqb_refl. cbn [negb].
  unfold Buf.toString. rewrite decode_encode by exact Hwf.
  rewrite Hd. cbn [bind].
  pose proof (int64_round_trip now (valid_time_int64 now Hnow)) as Ht.
  cbv zeta in Ht. rewrite Ht.
  unfold toISOString. unfold valid_time in Hnow.
  apply Z.leb_le in Hnow. rewrite Hnow. reflexivity.
Qed.

(** C1. Round trip: when [JSON.stringify] gives the text of a snapshot
    (a well-formed string within the engine's length bound, as it always
    is) and [JSON.parse] reads that text back as [d], then
    [parseKolpFile (createKolpFile snapshot)] is not null and its [data]
    field is [d], the snapshot after a JSON round trip; the version is 1
    and the timestamp is the instant of encoding. *)
Theorem kolp_round_trip : forall snapshot text d now,
  JSON_stringify snapshot = Ok (Some text) ->
  well_formed text = true ->
  Z.of_nat (length text) <= MAX_STRING_LENGTH ->
  JSON_parse text = Ok d ->
  valid_time now ->
  exists container,
    createKolpFile JSON_stringify now snapshot = Ok container /\
    parseKolpFile JSON_parse container =
      Some {| version := 1; timestamp := ISO now;
              checksum := firstn 32 (Sha256.hex (Utf8.encode text));
              data := d |}.
Proof.
  intros snapshot text d now Hs Hwf Hlen Hd Hnow.
  exists (header_bytes now (Utf8.encode text) ++ Utf8.encode text). split.
  - apply createKolpFile_bytes; assumption.
  - unfold parseKolpFile. rewrite (parse_created text d now) by assumption.
    reflexivity.
Qed.

(** C2. Layout: the container is forty-nine bytes followed by the
    payload, the UTF-8 bytes of the JSON text, uncompressed.  Bytes 0-3
    are "KOLP", byte 4 is 1, bytes 13-44 are the first thirty-two
    hexadecimal characters of the payload's SHA-256 digest, bytes 45-48
    are the payload length as a little-endian 32-bit integer. *)
Theorem createKolpFile_layout : forall snapshot text now,
  JSON_stringify snapshot = Ok (Some text) ->
  Z.of_nat (length text) <= MAX_STRING_LENGTH ->
  valid_time now ->
  exists container,
    createKolpFile JSON_stringify now snapshot = Ok container /\
    Z.of_nat (length container) = 49 + Z.of_nat (length (Utf8.encode text)) /\
    Buf.slice container 0 4 = [0x4B; 0x4F; 0x4C; 0x50] /\
    Buf.slice container 4 5 = [1] /\
    Buf.slice container 13 45 = firstn 32 (Sha256.hex (Utf8.encode text)) /\
    Forall is_ascii (Buf.slice container 13 45) /\
    Buf.slice container 45 49 =
      Buf.le_bytes 4 (Z.of_nat (length (Utf8.encode text))) /\
    Buf.readUInt32LE container 45 =
      Ok (Z.of_nat (length (Utf8.encode text))) /\
    skipn 49 container = Utf8.encode text.
Proof.
  intros snapshot text now Hs Hlen Hnow.
  exists (header_bytes now (Utf8.encode text) ++ Utf8.encode text).
  split; [apply createKolpFile_bytes; assumption|].
  pose proof (payload_length_u32 text Hlen) as Hn.
  set (payload := Utf8.encode text) in *.
  destruct (container_windows KOLP_MAGIC
              (Buf.le_bytes 8 (now mod 2 ^ 64))
              (firstn 32 (Sha256.hex payload))
              (Buf.le_bytes 4 (Z.of_nat (length payload))) payload
              KOLP_VERSION)
    as (Wm & Wv & Wts & Wck & Wln & Wrest);
    try (reflexivity || apply le_bytes_length || apply checksum_length).
  rewrite <- header_bytes_fields in *.
  repeat apply conj.
  - rewrite length_app, header_bytes_length. lia.
  - exact Wm.
  - exact Wv.
  - exact Wck.
  - change (Buf.slice ?b 13 45) with (firstn 32 (skipn 13 b)).
    rewrite Wck. apply checksum_ascii.
  - exact Wln.
  - unfold Buf.readUInt32LE.
    rewrite (read_window _ 4 45 _ ltac:(rewrite length_app, header_bytes_length; lia) Wln).
    rewrite le_value_bytes by (change (256 ^ Z.of_nat 4) with 4294967296; lia).
    reflexivity.
  - exact Wrest.
Qed.

Lemma parse_short : forall buffer,
  (length buffer < 49)%nat -> parseKolpFile JSON_parse buffer = None.
Proof.
  intros buffer Hlen. unfold parseKolpFile, parseKolpFile_try.
  destruct (negb _); [reflexivity|].
  unfold Buf.readUInt8, Buf.readBigInt64LE, Buf.readUInt32LE, Buf.read.
  destruct (4 + 1 <=? length buffer)%nat; [|reflexivity].
  destruct (5 + 8 <=? length buffer)%nat; [|reflexivity].
  destruct (Nat.leb_spec (45 + 4) (length buffer)); [lia|reflexivity].
Qed.

(** C9. [parseKolpFile] is total: whatever the buffer, either the [try]
    block ran to its end and the result is the file decoded in full, or
    a step threw, the exception was caught and the result is null.  A
    buffer shorter than the header, the empty one among them, gives
    null. *)
Theorem parseKolpFile_total : forall buffer,
  ((exists file,
      parseKolpFile JSON_parse buffer = Some file /\
      parseKolpFile_try JSON_parse buffer = Ok file /\
      fully_decoded JSON_parse buffer file)
   \/
   (exists message,
      parseKolpFile JSON_parse buffer = None /\
      parseKolpFile_try JSON_parse buffer = Throw message))
  /\ ((length buffer < 49)%nat -> parseKolpFile JSON_parse buffer = None).
Proof.
  intros buffer. split; [|apply parse_short].
  unfold parseKolpFile.
  destruct (parseKolpFile_try JSON_parse buffer) as [file|message] eqn:Htry;
    [left | right; eauto].
  exists file. split; [reflexivity|]. split; [reflexivity|].
  unfold parseKolpFile_try in Htry. unfold fully_decoded.
  destruct (jsstring_eqb (Buf.toString (Buf.slice buffer 0 4)) (js "KOLP"))
    eqn:Hmagic; cbn [negb] in Htry; [|discriminate].
  apply jsstring_eqb_eq in Hmagic.
  destruct (Buf.readUInt8 buffer 4) as [v|] eqn:Hv; [|discriminate].
  destruct (Buf.readBigInt64LE buffer 5) as [t|] eqn:Ht; [|discriminate].
  destruct (Buf.readUInt32LE buffer 45) as [n|] eqn:Hn; [|discriminate].
  cbn [bind] in Htry.
  destruct (jsstring_eqb _ _) eqn:Hck in Htry; cbn [negb] in Htry;
    [|discriminate].
  apply jsstring_eqb_eq in Hck.
  destruct (JSON_parse _) as [d|] eqn:Hd in Htry; [|discriminate].
  cbn [bind] in Htry.
  destruct (toISOString t) as [iso|] eqn:Hiso; [|discriminate].
  cbn [bind] in Htry. injection Htry as <-. cbn [version timestamp checksum data].
  repeat split; eauto 10.
Qed.

(** A container whose payload bytes were replaced decodes only if the
    replacement has the same truncated digest. *)
Lemma replaced_payload_collision : forall now payload payload' file,
  length payload' = length payload ->
  Z.of_nat (length payload) <= 4294967295 ->
  parseKolpFile JSON_parse (header_bytes now payload ++ payload') = Some file ->
  firstn 32 (Sha256.hex payload') = firstn 32 (Sha256.hex payload).
Proof.
  intros now payload payload' file Hlen Hn Hparse.
  unfold parseKolpFile in Hparse. unfold header_bytes in Hparse.
  rewrite <- !app_assoc in Hparse.
  rewrite parse_laid_out in Hparse
    by (reflexivity || apply le_bytes_length || apply checksum_length).
  rewrite magic_text, jsstring_eqb_refl in Hparse. cbn [negb] in Hparse.
  cbv zeta in Hparse.
  rewrite (le_value_bytes 4) in Hparse
    by (change (256 ^ Z.of_nat 4) with 4294967296; lia).
  rewrite Nat2Z.id, <- Hlen, firstn_all in Hparse.
  rewrite (toString_ascii (firstn 32 _)) in Hparse by apply checksum_ascii.
  destruct (jsstring_eqb _ _) eqn:Hck in Hparse; cbn [negb] in Hparse;
    [|discriminate].
  apply jsstring_eqb_eq in Hck. symmetry. exact Hck.
Qed.

End CodecFacts.

(** ** The codec on concrete buffers *)

Lemma flip_bit_payload : forall (header payload : Buffer) index bit,
  (length header <= index)%nat ->
  flip_bit (header ++ payload) index bit =
  header ++ flip_bit payload (index - length header) bit.
Proof.
  intros header payload index bit H. unfold flip_bit.
  rewrite firstn_app, skipn_app.
  rewrite firstn_all2, skipn_all2 by lia.
  rewrite <- app_assoc. reflexivity.
Qed.

Lemma flip_bit_length : forall buffer index bit,
  length (flip_bit buffer index bit) = length buffer.
Proof.
  intros buffer index bit. unfold flip_bit.
  rewrite <- (firstn_skipn index buffer) at 3.
  rewrite !length_app. f_equal.
  destruct (skipn index buffer); reflexivity.
Qed.

(** Tampering with the payload of a container: the decoder returns null
    unless the altered payload has the truncated digest of the original. *)
Lemma tampered_container : forall Data (JSON_parse : jsstring -> Result Data)
    now text index bit,
  Z.of_nat (length text) <= MAX_STRING_LENGTH ->
  (49 <= index)%nat ->
  parseKolpFile JSON_parse
    (flip_bit (header_bytes now (Utf8.encode text) ++ Utf8.encode text)
       index bit) = None
  \/ firstn 32 (Sha256.hex (flip_bit (Utf8.encode text) (index - 49) bit))
     = firstn 32 (Sha256.hex (Utf8.encode text)).
Proof.
  intros Data JSON_parse now text index bit Hlen Hi.
  rewrite flip_bit_payload by (rewrite header_bytes_length; exact Hi).
  rewrite header_bytes_length.
  destruct (parseKolpFile JSON_parse _) as [file|] eqn:Hp; [right | left; reflexivity].
  apply (replaced_payload_collision Data JSON_parse now _ _ file).
  - apply flip_bit_length.
  - apply payload_length_u32, Hlen.
  - exact Hp.
Qed.

Example sample_container_header :
  firstn 5 sample_container = [0x4B; 0x4F; 0x4C; 0x50; 1] /\
  firstn 8 (skipn 5 sample_container) = [0; 0x68; 0xE5; 0xCF; 0x8B; 1; 0; 0] /\
  Buf.readUInt32LE sample_container 45 = Ok (Z.of_nat (length sample_container) - 49).
Proof. vm_compute. auto. Qed.

Example sample_bit_flip_rejected :
  parseKolpFile MiniJSON.parse (flip_bit sample_container 60 3) = None.
Proof. vm_compute. reflexivity. Qed.

Example parse_empty : parseKolpFile MiniJSON.parse [] = None.
Proof. reflexivity. Qed.

Example parse_truncated :
  parseKolpFile MiniJSON.parse (firstn 100 sample_container) = None.
Proof. vm_compute. reflexivity. Qed.

(** A payload that is not JSON, under a header that fits it. *)
Example parse_not_json :
  match createKolpFile (fun _ : unit => Ok (Some (js "not json"))) sample_time tt with
  | Ok container => parseKolpFile MiniJSON.parse container
  | Throw _ => None
  end = None.
Proof. vm_compute. reflexivity. Qed.

(** A declared length beyond the bytes present is clamped by [slice]; the
    checksum is then taken over the bytes that are there. *)
Example parse_declared_length_clamped :
  option_map data
    (parseKolpFile MiniJSON.parse
       (KOLP_MAGIC ++ [1] ++ Buf.le_bytes 8 sample_time
          ++ firstn 32 (Sha256.hex (js "{}")) ++ Buf.le_bytes 4 1000 ++ js "{}"))
  = Some (JSObject []).
Proof. vm_compute. reflexivity. Qed.

Example parse_bad_date :
  parseKolpFile MiniJSON.parse
    (KOLP_MAGIC ++ [1] ++ Buf.le_bytes 8 (2 ^ 62)
       ++ firstn 32 (Sha256.hex (js "{}")) ++ Buf.le_bytes 4 2 ++ js "{}")
  = None.
Proof. vm_compute. reflexivity. Qed.

Lemma kolp_round_trip_witness :
  MiniJSON.stringify sample_snapshot = Ok (Some sample_text) /\
  exists container,
    createKolpFile MiniJSON.stringify sample_time sample_snapshot = Ok container /\
    parseKolpFile MiniJSON.parse container =
      Some {| version := 1; timestamp := ISO sample_time;
              checksum := firstn 32 (Sha256.hex (Utf8.encode sample_text));
              data := sample_snapshot |}.
Proof.
  split; [reflexivity|].
  apply (kolp_round_trip JSValue MiniJSON.stringify MiniJSON.parse
           sample_snapshot sample_text sample_snapshot sample_time).
  - reflexivity.
  - vm_compute. reflexivity.
  - vm_compute. discriminate.
  - vm_compute. reflexivity.
  - vm_compute. discriminate.
Defined.

Lemma createKolpFile_layout_witness :
  exists container,
    createKolpFile MiniJSON.stringify sample_time sample_snapshot = Ok container /\
    Z.of_nat (length container) = 49 + Z.of_nat (length (Utf8.encode sample_text)) /\
    Buf.slice container 0 4 = [0x4B; 0x4F; 0x4C; 0x50] /\
    Buf.slice container 4 5 = [1] /\
    Buf.slice container 13 45 = firstn 32 (Sha256.hex (Utf8.encode sample_text)) /\
    Forall is_ascii (Buf.slice container 13 45) /\
    Buf.slice container 45 49 =
      Buf.le_bytes 4 (Z.of_nat (length (Utf8.encode sample_text))) /\
    Buf.readUInt32LE container 45 =
      Ok (Z.of_nat (length (Utf8.encode sample_text))) /\
    skipn 49 container = Utf8.encode sample_text.
Proof.
  apply (createKolpFile_layout JSValue MiniJSON.stringify
           sample_snapshot sample_text sample_time).
  - reflexivity.
  - vm_compute. discriminate.
  - vm_compute. discriminate.
Defined.

Lemma tampered_container_witness :
  parseKolpFile MiniJSON.parse
    (flip_bit (header_bytes sample_time (Utf8.encode sample_text)
               ++ Utf8.encode sample_text) 60 3) = None
  \/ firstn 32 (Sha256.hex (flip_bit (Utf8.encode sample_text) (60 - 49) 3))
     = firstn 32 (Sha256.hex (Utf8.encode sample_text)).
Proof.
  apply (tampered_container JSValue MiniJSON.parse sample_time sample_text 60 3).
  - vm_compute. discriminate.
  - lia.
Defined.

(** * The sync handlers *)

(** The path of the search holds a space, after [orderBy=modifiedTime]:
    the client throws on it. *)
Lemma search_path_rejected :
  findKolpFileInDrive_path = Throw ERR_UNESCAPED_CHARACTERS.
Proof. vm_compute. reflexivity. Qed.

(** Symbolic execution of a sync handler. *)
Ltac run_sync :=
  unfold google_sync_upload, google_sync_download, findKolpFileInDrive;
  rewrite search_path_rejected; run; tidy.

Ltac clock_tests :=
  repeat match goal with
         | H : (_ >=? _) = true |- _ =>
             rewrite Z.geb_leb in H; apply Z.leb_le in H
         | H : (_ >=? _) = false |- _ =>
             rewrite Z.geb_leb in H; apply Z.leb_gt in H
         end.

Section SyncFacts.

Context {P : Platform}.


(** C4, where the program departs from it.  Refresh policy of both sync
    handlers, for tokens on file.  With an expiry more than 60 s after
    the current time, [refreshAccessToken] is not called and the handler
    calls the search with the cached access token, as claimed; but the
    remote call does not proceed: the client refuses the path of the
    search, no request is sent, and the handler returns the client's
    message.  With an expiry within 60 s or past, the handler calls
    [refreshAccessToken] once, before anything else; when that returns
    no token the result is 'Token refresh failed', the search is not
    called and the storage API is not contacted, as claimed. *)
Theorem refresh_skip_policy : forall (data : Data) (w : World P) t,
  tokenFile w = Some t ->
  refresh_policy (google_sync_upload data)
    (exists message,
       createKolpFile JSON_stringify (clock w (S (reads w))) data =
       Throw message) w t
  /\ refresh_policy google_sync_download False w t.
Proof.
  intros data w t Ht. unfold refresh_policy. split.
  - run_sync.
    all: do 3 eexists; split; [reflexivity|]; split; [log_extension|].
    all: clock_tests.
    all: try rewrite Ht in *; tidy.
    all: policy_leaf.
  - run_sync.
    all: do 3 eexists; split; [reflexivity|]; split; [log_extension|].
    all: clock_tests.
    all: try rewrite Ht in *; tidy.
    all: policy_leaf.
Qed.


End SyncFacts.

(** * The handlers against the model of the remote store *)

Section StoreFacts.

Variable D : Type.
Variable stringify : D -> Result (option jsstring).
Variable parse : jsstring -> Result D.
Variable to_number : JSValue -> option Z.
Variable stamp : Z -> jsstring.

Let P : Platform := google_platform D stringify parse to_number stamp.

(** A request to the token endpoint leaves the files of the store. *)
Lemma token_request_keeps_files : forall (g : Google) a b c,
  drive_files (snd (serve_google g (TokenRefresh a b c))) = drive_files g.
Proof.
  intros g a b c. unfold serve_google.
  destruct (outages g) as [|[|] later]; reflexivity.
Qed.

(** C7, where the program departs from it.  An upload never replaces
    the backup in the store.  Whatever the store holds, and so when it
    holds exactly one backup object, every run fails, sends neither the
    search nor a delete nor an upload, and leaves the files of the store
    as they were: the old object is not deleted and the new container
    is not stored.  With a token on file that is more than a minute
    from expiry and a snapshot that encodes, the handler overwrites the
    local backup file with the new container, calls the search, and
    returns the message with which the client refuses its path. *)
Theorem upload_leaves_remote_store : forall (data : D) (w : World P),
  exists result w' new,
    google_sync_upload (P := P) data w = (Ok result, w') /\
    log w' = log w ++ new /\
    succeeded result = false /\
    filter is_drive_event new = [] /\
    drive_files (remote w') = drive_files (remote w) /\
    forall t kolpBuffer,
      tokenFile w = Some t ->
      clock w (reads w) < expiry_date t - 60000 ->
      createKolpFile stringify (clock w (S (reads w))) data = Ok kolpBuffer ->
      result = Failed (JSString ERR_UNESCAPED_CHARACTERS) /\
      new = [EvWriteBackup kolpBuffer;
             EvRefused (find_request (access_token t))
               ERR_UNESCAPED_CHARACTERS] /\
      kolpFile w' = Some kolpBuffer /\
      remote w' = remote w.
Proof.
  intros data w.
  pose proof (token_request_keeps_files (remote w)) as Hkeep.
  run_sync.
  all: do 3 eexists; split; [reflexivity|]; split; [log_extension|].
  all: simpl_world.
  all: repeat apply conj; try reflexivity.
  all: try match goal with
       | H : _ = (_, ?r) |- drive_files ?r = _ =>
           apply (f_equal snd) in H; cbn [snd] in H; subst r; apply Hkeep
       end.
  all: clock_tests.
  all: intros t0 kolpBuffer Ht0 Hfresh Hc; rewrite ?Ht0 in *; tidy.
  all: try (exfalso; lia).
  all: cbn [clock reads] in *.
  all: match goal with
       | H : createKolpFile JSON_stringify _ _ = ?x |- _ =>
           pose proof (eq_trans (eq_sym Hc) H : Ok kolpBuffer = x) as Hsame
       end.
  all: first [ discriminate Hsame
             | injection Hsame as <-; repeat apply conj; reflexivity ].
Qed.

End StoreFacts.

(** ** Runs on sample worlds *)

(** The store holds one backup: the upload fails at the search, the
    old object stays, the new container is written to the local file
    only. *)
Example upload_one_backup :
  fst (run_upload one_backup_world) =
    Ok (Failed (JSString ERR_UNESCAPED_CHARACTERS)) /\
  backups one_backup_world = [js "file-A"] /\
  backups (snd (run_upload one_backup_world)) = [js "file-A"] /\
  kolpFile (snd (run_upload one_backup_world)) = Some uploaded_container /\
  log (snd (run_upload one_backup_world)) =
    [EvWriteBackup uploaded_container;
     EvRefused (find_request (JSString (js "ya29.cached")))
       ERR_UNESCAPED_CHARACTERS].
Proof. vm_compute. auto 6. Qed.

Lemma refresh_skip_policy_witness :
  refresh_policy (google_sync_upload (P := sample_platform) sample_snapshot)
    (exists message,
       createKolpFile MiniJSON.stringify
         (clock one_backup_world (S (reads one_backup_world))) sample_snapshot =
       Throw message)
    one_backup_world fresh_tokens
  /\ refresh_policy (google_sync_download (P := sample_platform)) False
       one_backup_world fresh_tokens.
Proof.
  apply (refresh_skip_policy (P := sample_platform) sample_snapshot
           one_backup_world fresh_tokens).
  reflexivity.
Defined.

Example upload_refreshes_stale_token :
  map (fun e => match e with
                | EvRefresh => js "refresh"
                | EvHttp r _ =>
                    match request_token r with JSString s => s | _ => js "token endpoint" end
                | EvRefused r _ =>
                    match request_token r with
                    | JSString s => js "refused: " ++ s
                    | _ => js "refused"
                    end
                | EvSaveTokens _ => js "save tokens"
                | EvWriteBackup _ => js "write backup"
                end) (log (snd (run_upload stale_world)))
  = [js "refresh"; js "token endpoint"; js "save tokens"; js "write backup";
     js "refused: ya29.renewed"].
Proof. vm_compute. reflexivity. Qed.

Example upload_refresh_refused :
  fst (run_upload refused_world) = Ok (failed "Token refresh failed") /\
  filter is_drive_event (log (snd (run_upload refused_world))) = [] /\
  filter is_refused (log (snd (run_upload refused_world))) = [] /\
  filter is_refresh (log (snd (run_upload refused_world))) = [EvRefresh] /\
  kolpFile (snd (run_upload refused_world)) = kolpFile refused_world.
Proof. vm_compute. auto 6. Qed.

Example download_refresh_refused :
  fst (run_download refused_world) = Ok (failed "Token refresh failed") /\
  filter is_drive_event (log (snd (run_download refused_world))) = [] /\
  filter is_refused (log (snd (run_download refused_world))) = [].
Proof. vm_compute. auto. Qed.

Example find_refused :
  fst (findKolpFileInDrive (P := sample_platform) (JSString (js "ya29.cached"))
         two_backups_world) = Throw ERR_UNESCAPED_CHARACTERS.
Proof. vm_compute. reflexivity. Qed.

Example upload_two_backups :
  backups two_backups_world = [js "file-A"; js "file-B"] /\
  backups (snd (run_upload two_backups_world)) = [js "file-A"; js "file-B"] /\
  filter is_delete_event (log (snd (run_upload two_backups_world))) = [].
Proof. vm_compute. auto. Qed.

Example download_valid_backup :
  fst (run_download (stored_world sample_container)) =
    Ok (Failed (JSString ERR_UNESCAPED_CHARACTERS)) /\
  kolpFile (snd (run_download (stored_world sample_container))) =
    Some (js "previous backup") /\
  log (snd (run_download (stored_world sample_container))) =
    [EvRefused (find_request (JSString (js "ya29.cached")))
       ERR_UNESCAPED_CHARACTERS].
Proof. vm_compute. auto. Qed.

Example download_not_authenticated :
  fst (run_download (sample_world None (sample_store [old_backup] granted []))) =
    Ok (failed "Not authenticated").
Proof. vm_compute. reflexivity. Qed.

(** * The OAuth flow *)

Lemma differs_spec : forall v s, differs v s = false <-> v = JSString s.
Proof.
  intros v s. unfold differs. destruct v; try (split; [discriminate | congruence]).
  rewrite negb_false_iff, jsstring_eqb_eq. split; congruence.
Qed.

Lemma quiet_app : forall a b, quiet a -> quiet b -> quiet (a ++ b).
Proof.
  unfold quiet. intros a b [Ha1 Ha2] [Hb1 Hb2].
  rewrite !filter_app, Ha1, Ha2, Hb1, Hb2. auto.
Qed.

Section FlowFacts.

Context {P : Platform}.

(** What one callback does to the promise and the listener: either it
    calls neither [server.close()] nor [resolve], or it ends with
    [server.close()] followed at once by [resolve].  The state token is
    never changed; the timer is pending until it fires, and when it
    fires it resolves. *)
Lemma step_shape : forall (f : Flow) (input : Input),
  flow_state (step f input) = flow_state f /\
  ((exists events,
      trace (step f input) = trace f ++ events /\ quiet events /\
      settled (step f input) = settled f /\
      timer_pending (step f input) = timer_pending f)
   \/
   (exists events result,
      trace (step f input) = trace f ++ events ++ [FlClose; FlResolve result] /\
      quiet events /\
      settled (step f input) =
        match settled f with None => Some result | Some r => Some r end)).
Proof.
  intros f input. destruct input; unfold_flow; split_flow.
  all: split; [reflexivity|].
  all: try (left; exists []; rewrite app_nil_r; unfold quiet; cbn; auto; fail).
  all: try (left; eexists; split; [reflexivity|]; unfold quiet; cbn; auto; fail).
  all: right; rewrite <- ?app_assoc; cbn [app].
  all: first
    [ exists []; eexists; split; [reflexivity|]; unfold quiet; cbn; auto; fail
    | eexists [_]; eexists; split; [reflexivity|]; unfold quiet; cbn; auto; fail
    | eexists [_; _; _]; eexists; split; [reflexivity|]; unfold quiet; cbn; auto ].
Qed.

Lemma timer_step : forall (f : Flow) (input : Input),
  settled f = None -> timer_pending f = true ->
  settled (step f input) = None -> timer_pending (step f input) = true.
Proof.
  intros f input Hs Ht. destruct input; unfold_flow; rewrite ?Hs, ?Ht;
    split_flow; cbn; congruence.
Qed.

Lemma lifecycle_step : forall (f : Flow) (input : Input),
  lifecycle f -> lifecycle (step f input).
Proof.
  intros f input Hf. unfold lifecycle in *.
  pose proof (timer_step f input) as Htimer.
  destruct (step_shape f input) as [_ [(events & Ht & Hq & Hs & _)
                                      | (events & result & Ht & Hq & Hs)]].
  - rewrite Hs in *. destruct (settled f) as [r|].
    + destruct Hf as (before & after & Hf & Hb).
      exists before, (after ++ events). split; [|exact Hb].
      rewrite Ht, Hf, <- !app_assoc. reflexivity.
    + destruct Hf as [Hquiet Htm]. split.
      * rewrite Ht. apply quiet_app; assumption.
      * apply Htimer; auto.
  - rewrite Hs. destruct (settled f) as [r|].
    + destruct Hf as (before & after & Hf & Hb).
      exists before, (after ++ events ++ [FlClose; FlResolve result]).
      split; [|exact Hb]. rewrite Ht, Hf, <- !app_assoc. reflexivity.
    + destruct Hf as [Hquiet _].
      exists (trace f ++ events), []. split.
      * rewrite Ht, <- !app_assoc. reflexivity.
      * apply quiet_app; assumption.
Qed.

Lemma started_flow : forall clientId clientSecret random tokens credentials
    clock f0,
  startGoogleAuth clientId clientSecret random tokens credentials clock = Ok f0 ->
  lifecycle f0 /\ flow_state f0 = random /\
  flow_tokens f0 = tokens /\ flow_credentials f0 = credentials.
Proof.
  intros clientId clientSecret random tokens credentials clock f0 H.
  unfold startGoogleAuth in H.
  destruct (encodeURIComponent clientId); [|discriminate].
  destruct (encodeURIComponent GOOGLE_REDIRECT_URI); [|discriminate].
  destruct (encodeURIComponent _); [|discriminate].
  cbn [bind] in H. injection H as <-.
  unfold lifecycle, quiet. cbn. auto.
Qed.

Lemma run_flow_invariant : forall inputs f,
  lifecycle f ->
  lifecycle (run_flow f inputs) /\
  flow_state (run_flow f inputs) = flow_state f.
Proof.
  induction inputs as [|input inputs IH]; intros f Hf; [auto|].
  cbn [run_flow fold_left].
  destruct (IH (step f input) (lifecycle_step f input Hf)) as [Hl Hs].
  split; [exact Hl|]. unfold run_flow in Hs. rewrite Hs.
  apply step_shape.
Qed.

(** The listener is stopped exactly once before the flow resolves:
    whatever callbacks have run, in whatever order, the call that
    resolved the promise comes right after a [server.close()], and no
    other [close] or [resolve] precedes it. *)
Lemma listener_stopped_before_resolve :
  forall clientId clientSecret random tokens credentials clock f0 inputs result,
    startGoogleAuth clientId clientSecret random tokens credentials clock = Ok f0 ->
    settled (run_flow f0 inputs) = Some result ->
    exists before after,
      trace (run_flow f0 inputs) = before ++ [FlClose; FlResolve result] ++ after /\
      filter is_close before = [] /\ filter is_resolve before = [].
Proof.
  intros clientId clientSecret random tokens credentials clock f0 inputs result
    Hstart Hsettled.
  destruct (started_flow _ _ _ _ _ _ _ Hstart) as [Hl _].
  destruct (run_flow_invariant inputs f0 Hl) as [Hrun _].
  unfold lifecycle in Hrun. rewrite Hsettled in Hrun.
  destruct Hrun as (before & after & Ht & Hq1 & Hq2). eauto.
Qed.

Lemma settled_stays : forall inputs f result,
  settled f = Some result -> settled (run_flow f inputs) = Some result.
Proof.
  induction inputs as [|input inputs IH]; intros f result H; [exact H|].
  cbn [run_flow fold_left]. apply IH.
  destruct (step_shape f input) as [_ [(e & _ & _ & Hs & _) | (e & r & _ & _ & Hs)]];
    rewrite Hs, H; reflexivity.
Qed.

(** The flow resolves when its timer fires, if it has not before. *)
Lemma timer_resolves :
  forall clientId clientSecret random tokens credentials clock f0 inputs later,
    startGoogleAuth clientId clientSecret random tokens credentials clock = Ok f0 ->
    exists result,
      settled (run_flow f0 (inputs ++ TimerFires :: later)) = Some result.
Proof.
  intros clientId clientSecret random tokens credentials clock f0 inputs later
    Hstart.
  destruct (started_flow _ _ _ _ _ _ _ Hstart) as [Hl _].
  destruct (run_flow_invariant inputs f0 Hl) as [Hrun _].
  unfold run_flow. rewrite fold_left_app. cbn [fold_left].
  fold (run_flow f0 inputs). set (f := run_flow f0 inputs) in *.
  assert (exists result, settled (step f TimerFires) = Some result) as [r Hr].
  { unfold lifecycle in Hrun. destruct (settled f) as [r|] eqn:Hs.
    - exists r.
      destruct (step_shape f TimerFires)
        as [_ [(e & _ & _ & H & _) | (e & r' & _ & _ & H)]];
        rewrite H, Hs; reflexivity.
    - destruct Hrun as [_ Htimer]. eexists.
      unfold step. rewrite Htimer. unfold resolve, close. cbn [settled].
      rewrite Hs. reflexivity. }
  exists r. apply (settled_stays later _ _ Hr).
Qed.

(** A network or parse failure during the code exchange rejects the
    promise that the handler awaits; its [catch] block answers 500,
    stops the listener and resolves the flow, if it is still pending,
    as failed with the message of the error. *)
Lemma exchange_failure_resolves : forall (f : Flow) n message,
  nth n (suspended f) Finished = AwaitExchange ->
  trace (step f (Settles n (Throw message))) =
    trace f ++ [FlRespond 500; FlClose; FlResolve (AuthFailure message)] /\
  (settled f = None ->
   settled (step f (Settles n (Throw message))) = Some (AuthFailure message)).
Proof.
  intros f n message Hn. unfold_flow. rewrite Hn. unfold_flow.
  split; [rewrite <- !app_assoc; reflexivity|].
  intros Hs. rewrite Hs. reflexivity.
Qed.

(** C5. A flow started by [startGoogleAuth] drew the state [random].  At
    any later moment, a request to [/callback] whose [state] is not that
    string is answered 400, the listener is stopped and [resolve] is
    called with the error 'Invalid state', which settles the flow if it
    is pending.  Whatever the [code], no exchange request is sent, no
    handler is left waiting and the token and credential files are as
    they were. *)
Theorem state_mismatch_rejected :
  forall clientId clientSecret random tokens credentials clock f0 inputs
         code returnedState,
    startGoogleAuth clientId clientSecret random tokens credentials clock = Ok f0 ->
    returnedState <> JSString random ->
    trace (step (run_flow f0 inputs)
             (Incoming (js "/callback") code returnedState)) =
      trace (run_flow f0 inputs) ++
      [FlRespond 400; FlClose; FlResolve (AuthFailure (js "Invalid state"))] /\
    server (step (run_flow f0 inputs)
              (Incoming (js "/callback") code returnedState)) = Closed /\
    suspended (step (run_flow f0 inputs)
                 (Incoming (js "/callback") code returnedState)) =
      suspended (run_flow f0 inputs) /\
    flow_tokens (step (run_flow f0 inputs)
                   (Incoming (js "/callback") code returnedState)) =
      flow_tokens (run_flow f0 inputs) /\
    flow_credentials (step (run_flow f0 inputs)
                        (Incoming (js "/callback") code returnedState)) =
      flow_credentials (run_flow f0 inputs) /\
    (settled (run_flow f0 inputs) = None ->
     settled (step (run_flow f0 inputs)
                (Incoming (js "/callback") code returnedState)) =
       Some (AuthFailure (js "Invalid state"))).
Proof.
  intros clientId clientSecret random tokens credentials clock f0 inputs
    code returnedState Hstart Hdiff.
  destruct (started_flow _ _ _ _ _ _ _ Hstart) as (Hl & Hstate & _).
  destruct (run_flow_invariant inputs f0 Hl) as [_ Hrun].
  set (f := run_flow f0 inputs) in *.
  assert (Hd : differs returnedState (flow_state f) = true).
  { rewrite Hrun, Hstate. destruct (differs returnedState random) eqn:E; auto.
    apply differs_spec in E. contradiction. }
  unfold step. change (jsstring_eqb (js "/callback") (js "/callback")) with true.
  cbn iota. rewrite Hd. unfold resolve, close, happen. cbn.
  repeat split; try reflexivity.
  - rewrite <- !app_assoc. reflexivity.
  - intros Hs. rewrite Hs. reflexivity.
Qed.

End FlowFacts.

(** C8, at the input where the code departs from it.  A client id with
    a lone surrogate: [encodeURIComponent] throws while
    the authorization URL is built, inside the promise's executor, so the
    promise is rejected.  No listener is started and no result, of success
    or of failure, is ever delivered. *)
Theorem startGoogleAuth_rejects : forall clientSecret random tokens credentials clock,
  startGoogleAuth [0xD800] clientSecret random tokens credentials clock =
  Throw URI_malformed.
Proof. reflexivity. Qed.

Example sample_flow_started :
  startGoogleAuth (js "1234-abc.apps.googleusercontent.com") (js "secret")
    sample_state None None (fun n => sample_time + Z.of_nat n) = Ok sample_flow.
Proof. reflexivity. Qed.

Example flow_success :
  settled (run_sample [Listening; genuine_callback; Settles 0 token_reply_ok;
                       Settles 0 profile_ok]) =
    Some (AuthSuccess (JSString (js "user@example.com"))) /\
  filter is_close
    (trace (run_sample [Listening; genuine_callback; Settles 0 token_reply_ok;
                        Settles 0 profile_ok])) = [FlClose] /\
  option_map access_token
    (flow_tokens (run_sample [Listening; genuine_callback;
                              Settles 0 token_reply_ok; Settles 0 profile_ok])) =
    Some (JSString (js "ya29.first")).
Proof. vm_compute. auto. Qed.

Example flow_forged_state :
  settled (run_sample [Listening; forged_callback]) =
    Some (AuthFailure (js "Invalid state")) /\
  flow_tokens (run_sample [Listening; forged_callback]) = None /\
  filter starts_exchange (trace (run_sample [Listening; forged_callback])) = [].
Proof. vm_compute. auto. Qed.

(** The timer is not cleared when the flow resolves: it fires later and
    calls [server.close()] and [resolve] again, to no effect. *)
Example flow_timer_after_success :
  map (fun e => match e with
                | FlClose => js "close"
                | FlResolve (AuthSuccess _) => js "resolve success"
                | FlResolve (AuthFailure e) => js "resolve: " ++ e
                | _ => []
                end)
    (filter (fun e => is_close e || is_resolve e)
       (trace (run_sample [Listening; genuine_callback; Settles 0 token_reply_ok;
                           Settles 0 profile_ok; TimerFires]))) =
    [js "close"; js "resolve success";
     js "close"; js "resolve: Authentication timeout"] /\
  settled (run_sample [Listening; genuine_callback; Settles 0 token_reply_ok;
                       Settles 0 profile_ok; TimerFires]) =
    Some (AuthSuccess (JSString (js "user@example.com"))).
Proof. vm_compute. auto. Qed.

(** A reply of the token endpoint without an access token: the handler
    ends without a word, and the flow waits for its timer. *)
Example flow_grant_refused :
  settled (run_sample [Listening; genuine_callback; Settles 0 denied]) = None /\
  server (run_sample [Listening; genuine_callback; Settles 0 denied]) = Accepting /\
  settled (run_sample [Listening; genuine_callback; Settles 0 denied; TimerFires]) =
    Some (AuthFailure (js "Authentication timeout")).
Proof. vm_compute. auto. Qed.

Example flow_exchange_fails :
  settled (run_sample [Listening; genuine_callback;
                       Settles 0 (Throw (js "getaddrinfo ENOTFOUND"))]) =
    Some (AuthFailure (js "getaddrinfo ENOTFOUND")).
Proof. vm_compute. reflexivity. Qed.

Lemma state_mismatch_rejected_witness :
  trace (step (P := sample_platform) (run_sample [Listening]) forged_callback) =
    trace (run_sample [Listening]) ++
    [FlRespond 400; FlClose; FlResolve (AuthFailure (js "Invalid state"))] /\
  server (step (P := sample_platform) (run_sample [Listening]) forged_callback) = Closed /\
  suspended (step (P := sample_platform) (run_sample [Listening]) forged_callback) =
    suspended (run_sample [Listening]) /\
  flow_tokens (step (P := sample_platform) (run_sample [Listening]) forged_callback) =
    flow_tokens (run_sample [Listening]) /\
  flow_credentials (step (P := sample_platform) (run_sample [Listening]) forged_callback) =
    flow_credentials (run_sample [Listening]) /\
  (settled (run_sample [Listening]) = None ->
   settled (step (P := sample_platform) (run_sample [Listening]) forged_callback) =
     Some (AuthFailure (js "Invalid state"))).
Proof.
  apply (state_mismatch_rejected (P := sample_platform)
           (js "1234-abc.apps.googleusercontent.com") (js "secret")
           sample_state None None (fun n => sample_time + Z.of_nat n)
           sample_flow [Listening]).
  - reflexivity.
  - intros H. vm_compute in H. discriminate H.
Defined.

Lemma listener_stopped_before_resolve_witness :
  exists before after,
    trace (run_sample [Listening; genuine_callback; Settles 0 token_reply_ok;
                       Settles 0 profile_ok; TimerFires]) =
      before ++ [FlClose; FlResolve (AuthSuccess (JSString (js "user@example.com")))]
        ++ after /\
    filter is_close before = [] /\ filter is_resolve before = [].
Proof.
  apply (listener_stopped_before_resolve (P := sample_platform)
           (js "1234-abc.apps.googleusercontent.com") (js "secret")
           sample_state None None (fun n => sample_time + Z.of_nat n)
           sample_flow).
  - reflexivity.
  - vm_compute. reflexivity.
Defined.

Lemma timer_resolves_witness :
  exists result,
    settled (run_sample ([Listening; genuine_callback] ++
                         TimerFires :: [Settles 0 token_reply_ok])) = Some result.
Proof.
  apply (timer_resolves (P := sample_platform)
           (js "1234-abc.apps.googleusercontent.com") (js "secret")
           sample_state None None (fun n => sample_time + Z.of_nat n)
           sample_flow).
  reflexivity.
Defined.

Lemma exchange_failure_resolves_witness :
  trace (step (P := sample_platform) (run_sample [Listening; genuine_callback])
           (Settles 0 (Throw (js "socket hang up")))) =
    trace (run_sample [Listening; genuine_callback]) ++
    [FlRespond 500; FlClose; FlResolve (AuthFailure (js "socket hang up"))] /\
  (settled (run_sample [Listening; genuine_callback]) = None ->
   settled (step (P := sample_platform) (run_sample [Listening; genuine_callback])
              (Settles 0 (Throw (js "socket hang up")))) =
     Some (AuthFailure (js "socket hang up"))).
Proof.
  apply (exchange_failure_resolves (P := sample_platform)
           (run_sample [Listening; genuine_callback]) 0 (js "socket hang up")).
  vm_compute. reflexivity.
Defined.

(** * The container codec: what the decoder does not look at *)

Lemma read_app : forall (b extra : Buffer) width offset,
  (offset + width <= length b)%nat ->
  Buf.read (b ++ extra) width offset = Buf.read b width offset.
Proof.
  intros b extra width offset H. unfold Buf.read.
  rewrite length_app.
  destruct (Nat.leb_spec (offset + width) (length b)); [|lia].
  destruct (Nat.leb_spec (offset + width) (length b + length extra)); [|lia].
  rewrite skipn_app, firstn_app, length_skipn.
  replace (width - (length b - offset))%nat with 0%nat by lia.
  rewrite firstn_0, app_nil_r. reflexivity.
Qed.

Lemma slice_app : forall (b extra : Buffer) start stop,
  0 <= start -> stop <= Z.of_nat (length b) ->
  Buf.slice (b ++ extra) start stop = Buf.slice b start stop.
Proof.
  intros b extra start stop H0 H. unfold Buf.slice.
  rewrite skipn_app, firstn_app, length_skipn.
  replace (Z.to_nat (stop - start) - (length b - Z.to_nat start))%nat
    with 0%nat by lia.
  rewrite firstn_0, app_nil_r. reflexivity.
Qed.

Lemma read_length : forall (b : Buffer) width offset n,
  Buf.read b width offset = Ok n -> (offset + width <= length b)%nat.
Proof.
  intros b width offset n H. unfold Buf.read in H.
  destruct (Nat.leb_spec (offset + width) (length b)); [assumption|discriminate].
Qed.

(** A buffer of at least forty-nine bytes, cut into the six fields. *)
Lemma container_fields : forall b : Buffer,
  (49 <= length b)%nat ->
  exists m v ts ck ln rest,
    b = m ++ [v] ++ ts ++ ck ++ ln ++ rest /\
    length m = 4%nat /\ length ts = 8%nat /\ length ck = 32%nat /\
    length ln = 4%nat.
Proof.
  intros b H.
  destruct b as [|b0 [|b1 [|b2 [|b3 [|v b]]]]]; cbn [length] in H; try lia.
  exists [b0; b1; b2; b3], v, (firstn 8 b), (firstn 32 (skipn 8 b)),
    (firstn 4 (skipn 40 b)), (skipn 44 b).
  cbn [length] in H.
  repeat apply conj; try (rewrite length_firstn, ?length_skipn; lia); try reflexivity.
  cbn [app]. do 5 f_equal.
  rewrite <- (firstn_skipn 8 b) at 1. f_equal.
  rewrite <- (firstn_skipn 32 (skipn 8 b)) at 1. f_equal.
  rewrite skipn_skipn. cbn [Nat.add].
  rewrite <- (firstn_skipn 4 (skipn 40 b)) at 1. f_equal.
  rewrite skipn_skipn. reflexivity.
Qed.

Section CodecEdges.

Variable Data : Type.
Variable JSON_parse : jsstring -> Result Data.

Lemma parse_long : forall buffer file,
  parseKolpFile JSON_parse buffer = Some file -> (49 <= length buffer)%nat.
Proof.
  intros buffer file H.
  destruct (Nat.le_gt_cases 49 (length buffer)) as [|Hs]; [assumption|].
  rewrite (parse_short Data JSON_parse buffer Hs) in H. discriminate.
Qed.

(** The decoder reads the header and the [dataLength] bytes after it:
    whatever follows them in the buffer is ignored. *)
Theorem parse_ignores_trailing_bytes : forall buffer extra n,
  Buf.readUInt32LE buffer 45 = Ok n ->
  49 + n <= Z.of_nat (length buffer) ->
  parseKolpFile JSON_parse (buffer ++ extra) = parseKolpFile JSON_parse buffer.
Proof.
  intros buffer extra n Hn Hlen.
  pose proof (read_length _ _ _ _ Hn) as H49.
  unfold parseKolpFile, parseKolpFile_try.
  unfold Buf.readUInt8, Buf.readBigInt64LE, Buf.readUInt32LE in *.
  rewrite !read_app by lia.
  rewrite !(slice_app buffer extra) by lia.
  rewrite Hn. cbn [bind].
  rewrite (slice_app buffer extra 49 (49 + n)) by lia.
  reflexivity.
Qed.

(** The checksum covers the payload only.  The version byte and the
    timestamp of a buffer the decoder accepts can be overwritten with
    any byte and any instant in the range of [Date]: the decoder accepts
    the result and reports the new version and timestamp with the data
    and checksum unchanged. *)
Theorem header_fields_not_verified : forall buffer file v t,
  parseKolpFile JSON_parse buffer = Some file ->
  0 <= v <= 255 ->
  valid_time t ->
  parseKolpFile JSON_parse
    (Buf.copy (v :: Buf.le_bytes 8 (t mod 2 ^ 64)) buffer 4)
  = Some {| version := v; timestamp := ISO t;
            checksum := checksum file; data := data file |}.
Proof.
  intros buffer file v t Hparse Hv Ht.
  destruct (container_fields buffer (parse_long _ _ Hparse))
    as (m & v0 & ts & ck & ln & rest & -> & Hm & Hts & Hck & Hln).
  change (m ++ [v0] ++ ts ++ ck ++ ln ++ rest)
    with (m ++ ([v0] ++ ts) ++ ck ++ ln ++ rest) at 1.
  replace (m ++ ([v0] ++ ts) ++ ck ++ ln ++ rest)
    with (m ++ ([v0] ++ ts) ++ (ck ++ ln ++ rest))
    by (rewrite <- !app_assoc; reflexivity).
  rewrite copy_at
    by (try assumption; cbn [length app]; rewrite le_bytes_length, Hts; reflexivity).
  change (m ++ (v :: Buf.le_bytes 8 (t mod 2 ^ 64)) ++ ck ++ ln ++ rest)
    with (m ++ [v] ++ Buf.le_bytes 8 (t mod 2 ^ 64) ++ ck ++ ln ++ rest).
  unfold parseKolpFile in *.
  rewrite parse_laid_out in Hparse by assumption.
  rewrite parse_laid_out by (assumption || apply le_bytes_length).
  destruct (negb (jsstring_eqb (Buf.toString m) (js "KOLP"))); [discriminate|].
  cbv zeta in *.
  destruct (negb (jsstring_eqb (Buf.toString ck) _)); [discriminate|].
  destruct (JSON_parse _) as [d|]; [|discriminate].
  cbn [bind] in *.
  destruct (toISOString _) as [iso|] in Hparse; [|discriminate].
  cbn [bind] in Hparse. injection Hparse as <-.
  cbn [checksum data].
  pose proof (int64_round_trip t (valid_time_int64 t Ht)) as Hround.
  cbv zeta in Hround. rewrite Hround.
  unfold toISOString. unfold valid_time in Ht. apply Z.leb_le in Ht.
  rewrite Ht. reflexivity.
Qed.

(** Nor is the length field compared with the size of the buffer:
    [slice] clamps it.  When the declared length already reaches the end
    of the buffer, any larger 32-bit value in its place changes
    nothing. *)
Theorem declared_length_not_verified : forall buffer n n',
  Buf.readUInt32LE buffer 45 = Ok n ->
  Z.of_nat (length buffer) <= 49 + n ->
  0 <= n' <= 4294967295 -> n <= n' ->
  parseKolpFile JSON_parse (Buf.copy (Buf.le_bytes 4 n') buffer 45)
  = parseKolpFile JSON_parse buffer.
Proof.
  intros buffer n n' Hn Hlen Hn' Hle.
  pose proof (read_length _ _ _ _ Hn) as H49.
  destruct (container_fields buffer ltac:(lia))
    as (m & v & ts & ck & ln & rest & -> & Hm & Hts & Hck & Hln).
  unfold Buf.readUInt32LE in Hn.
  destruct (container_windows m ts ck ln rest v Hm Hts Hck Hln)
    as (_ & _ & _ & _ & Wln & _).
  rewrite (read_window _ 4 45 ln H49 Wln) in Hn. injection Hn as Hn.
  rewrite !length_app, Hm, Hts, Hck, Hln in Hlen. cbn [length] in Hlen.
  replace (m ++ [v] ++ ts ++ ck ++ ln ++ rest)
    with ((m ++ [v] ++ ts ++ ck) ++ ln ++ rest) at 1
    by (rewrite <- !app_assoc; reflexivity).
  rewrite copy_at;
    [| rewrite !length_app, Hm, Hts, Hck; reflexivity
     | rewrite le_bytes_length; assumption ].
  rewrite <- !app_assoc.
  unfold parseKolpFile.
  rewrite !parse_laid_out by (assumption || apply le_bytes_length).
  cbv zeta.
  rewrite (le_value_bytes 4) by (change (256 ^ Z.of_nat 4) with 4294967296; lia).
  rewrite Hn.
  rewrite (firstn_all2 (n := Z.to_nat n') rest) by lia.
  rewrite (firstn_all2 (n := Z.to_nat n) rest) by lia.
  reflexivity.
Qed.

End CodecEdges.

(** ** Decoding to ASCII

    The decoder yields a code unit below 0x80 only for the byte of the
    same value: every multi-byte sequence, and every ill-formed one,
    yields something larger. *)

Lemma pending_not_ascii : forall bytes p,
  0x80 <= (Utf8.code_point p * 64 + (Utf8.lower p - 0x80))
            * 64 ^ Z.of_nat (Utf8.needed p) ->
  0x80 <= Utf8.lower p ->
  Exists (fun c => 0x80 <= c) (Utf8.decode_from (Some p) bytes).
Proof.
  induction bytes as [|b t IH]; intros p Hp Hl.
  - cbn. constructor. lia.
  - cbn [Utf8.decode_from Utf8.step].
    destruct (Utf8.in_range (Utf8.lower p) (Utf8.upper p) b) eqn:Hr.
    + unfold Utf8.in_range in Hr. apply andb_true_iff in Hr as [Hlo _].
      apply Z.leb_le in Hlo.
      destruct (Utf8.needed p) as [|n] eqn:Hn.
      * apply Exists_app. left. unfold Utf8.units.
        change (64 ^ Z.of_nat 0) with 1 in Hp.
        destruct (Z.ltb_spec (Utf8.code_point p * 64 + (b - 0x80)) 0x10000).
        -- constructor. lia.
        -- constructor. divlia.
      * cbn [app]. apply IH; cbn [Utf8.code_point Utf8.lower Utf8.needed]; [|lia].
        rewrite Nat2Z.inj_succ, Z.pow_succ_r in Hp by lia.
        assert (0 <= 64 ^ Z.of_nat n) by (apply Z.pow_nonneg; lia).
        nia.
    + destruct (Utf8.first_byte b) as [out st']. cbn [app].
      constructor. lia.
Qed.

Lemma decode_ascii_inv : forall bytes,
  Forall (fun c => c < 0x80) (Utf8.decode bytes) -> Utf8.decode bytes = bytes.
Proof.
  unfold Utf8.decode.
  induction bytes as [|b t IH]; intros H; [reflexivity|].
  cbn [Utf8.decode_from Utf8.step] in *.
  unfold Utf8.first_byte in *.
  destruct (Z.leb_spec b 0x7F).
  - cbn [app] in *. inversion H; subst. f_equal. auto.
  - exfalso.
    assert (Hbig : forall out st',
              Exists (fun c => 0x80 <= c) (out ++ Utf8.decode_from st' t) ->
              Forall (fun c => c < 0x80) (out ++ Utf8.decode_from st' t) -> False).
    { intros out st' He Hf. rewrite Forall_forall in Hf.
      apply Exists_exists in He as (c & Hin & Hc).
      specialize (Hf c Hin). cbv beta in Hf. lia. }
    unfold Utf8.in_range in H.
    destruct (Z.leb_spec 0xC2 b), (Z.leb_spec b 0xDF); cbn [andb] in H;
      try (apply (Hbig _ _) in H; [exact H|]; cbn [app];
           apply pending_not_ascii;
           cbn [Utf8.code_point Utf8.lower Utf8.needed]; cbn; lia).
    all: destruct (Z.leb_spec 0xE0 b), (Z.leb_spec b 0xEF); cbn [andb] in H;
      try (apply (Hbig _ _) in H; [exact H|]; cbn [app];
           apply pending_not_ascii;
           cbn [Utf8.code_point Utf8.lower Utf8.needed];
           destruct (Z.eqb_spec b 0xE0); cbn; lia).
    all: destruct (Z.leb_spec 0xF0 b), (Z.leb_spec b 0xF4); cbn [andb] in H;
      try (apply (Hbig _ _) in H; [exact H|]; cbn [app];
           apply pending_not_ascii;
           cbn [Utf8.code_point Utf8.lower Utf8.needed];
           destruct (Z.eqb_spec b 0xF0); cbn; lia).
    all: cbn [app] in H; inversion H; lia.
Qed.

Lemma ascii_below : forall s, Forall is_ascii s -> Forall (fun c => c < 0x80) s.
Proof.
  intros s H. eapply Forall_impl; [|exact H]. unfold is_ascii. intros; lia.
Qed.

Section AcceptedBuffers.

Variable Data : Type.
Variable JSON_parse : jsstring -> Result Data.

(** What the decoder accepts starts with the four bytes of the magic
    and carries, at offsets 13 to 44, the bytes of the first 32
    lower-case hexadecimal digits of the SHA-256 of the payload it
    reads: no other encoding of either text passes the comparison. *)
Theorem accepted_header : forall buffer file,
  parseKolpFile JSON_parse buffer = Some file ->
  exists n,
    Buf.readUInt32LE buffer 45 = Ok n /\
    Buf.slice buffer 0 4 = [0x4B; 0x4F; 0x4C; 0x50] /\
    Buf.slice buffer 13 45 = checksum file /\
    checksum file = firstn 32 (Sha256.hex (Buf.slice buffer 49 (49 + n))).
Proof.
  intros buffer file Hparse.
  unfold parseKolpFile in Hparse.
  destruct (parseKolpFile_try JSON_parse buffer) as [file'|] eqn:Htry;
    [|discriminate Hparse].
  injection Hparse as ->.
  unfold parseKolpFile_try in Htry.
  destruct (jsstring_eqb (Buf.toString (Buf.slice buffer 0 4)) (js "KOLP"))
    eqn:Hm; cbn [negb] in Htry; [|discriminate Htry].
  apply jsstring_eqb_eq in Hm.
  destruct (Buf.readUInt8 buffer 4) as [v|]; [|discriminate Htry].
  destruct (Buf.readBigInt64LE buffer 5) as [t|]; [|discriminate Htry].
  destruct (Buf.readUInt32LE buffer 45) as [n|]; [|discriminate Htry].
  cbn [bind] in Htry.
  destruct (jsstring_eqb _ _) eqn:Hck in Htry; cbn [negb] in Htry;
    [|discriminate Htry].
  apply jsstring_eqb_eq in Hck.
  destruct (JSON_parse _) as [d|] in Htry; [|discriminate Htry].
  cbn [bind] in Htry.
  destruct (toISOString t) as [iso|]; [|discriminate Htry].
  cbn [bind] in Htry. injection Htry as <-. cbn [checksum].
  exists n. split; [reflexivity|].
  unfold Buf.toString in *.
  assert (Hbytes : Buf.slice buffer 13 45
                   = firstn 32 (Sha256.hex (Buf.slice buffer 49 (49 + n)))).
  { rewrite <- (decode_ascii_inv (Buf.slice buffer 13 45)); [exact Hck|].
    rewrite Hck. apply ascii_below, checksum_ascii. }
  split; [| split].
  - rewrite <- (decode_ascii_inv (Buf.slice buffer 0 4)); [exact Hm|].
    rewrite Hm. repeat constructor.
  - rewrite Hck. exact Hbytes.
  - exact Hck.
Qed.

End AcceptedBuffers.

(** * The requests on the wire *)

Lemma encode_bytes_bounded : forall n s,
  (length s <= n)%nat -> code_units s ->
  Forall (fun b => 0 <= b <= 255) (Utf8.encode s).
Proof.
  unfold code_units.
  induction n as [|n IH]; intros s Hn Hs.
  - destruct s; [constructor | cbn [length] in Hn; lia].
  - destruct s as [|c t]; [constructor|].
    cbn [length] in Hn. inversion Hs as [|? ? Hc Ht]; subst.
    assert (Hrest : Forall (fun b => 0 <= b <= 255) (Utf8.encode t))
      by (apply IH; [lia | assumption]).
    cbn [Utf8.encode].
    destruct (Z.ltb_spec c 0x80); [constructor; [lia | assumption]|].
    destruct (Z.ltb_spec c 0x800);
      [repeat (constructor; [divlia|]); assumption|].
    destruct (is_high_surrogate c) eqn:Hh.
    + apply surrogate_range_high in Hh.
      destruct t as [|d t']; [repeat constructor; lia|].
      destruct (is_low_surrogate d) eqn:Hl.
      * apply surrogate_range_low in Hl.
        inversion Ht; subst. cbn [length] in Hn.
        repeat (constructor; [divlia|]). apply IH; [lia | assumption].
      * apply Forall_app. split; [repeat constructor; lia | assumption].
    + destruct (is_low_surrogate c).
      * apply Forall_app. split; [repeat constructor; lia | assumption].
      * repeat (constructor; [divlia|]). assumption.
Qed.

Lemma encode_bytes : forall s,
  code_units s -> Forall (fun b => 0 <= b <= 255) (Utf8.encode s).
Proof. intros s. apply (encode_bytes_bounded (length s)). lia. Qed.

Lemma form_byte_characters : forall b,
  0 <= b <= 255 -> Forall form_character (form_byte b).
Proof.
  intros b Hb. unfold form_byte, form_character, is_ascii.
  destruct (form_unescaped b) eqn:Hu.
  - unfold form_unescaped, alphanumeric in Hu. cbn [existsb] in Hu.
    booleans; repeat constructor; lia.
  - destruct (Z.eqb_spec b 32); [repeat constructor; lia|].
    unfold upper_hex.
    destruct (Z.ltb_spec (b / 16) 10), (Z.ltb_spec (b mod 16) 10);
      repeat constructor; divlia.
Qed.

Lemma form_encode_characters : forall s,
  code_units s -> Forall form_character (form_encode s).
Proof.
  intros s Hs. unfold form_encode.
  pose proof (encode_bytes s Hs) as Hb.
  induction Hb as [|b t Hb _ IH]; [constructor|].
  cbn [flat_map]. apply Forall_app. split; [apply form_byte_characters, Hb | exact IH].
Qed.

Lemma form_characters_ascii : forall s,
  Forall form_character s -> Forall is_ascii s.
Proof.
  intros s H. eapply Forall_impl; [|exact H]. unfold form_character. tauto.
Qed.

Lemma form_characters_without : forall s c,
  Forall form_character s -> c = 38 \/ c = 61 -> ~ In c s.
Proof.
  intros s c H Hc Hin. rewrite Forall_forall in H.
  destruct (H c Hin) as (_ & H38 & H61). lia.
Qed.

Lemma form_entry_ascii : forall entry,
  code_units (fst entry) -> code_units (snd entry) ->
  Forall is_ascii (form_entry entry).
Proof.
  intros entry Hk Hv. unfold form_entry.
  apply Forall_app. split; [apply form_characters_ascii, form_encode_characters, Hk|].
  apply Forall_app. split; [literal|].
  apply form_characters_ascii, form_encode_characters, Hv.
Qed.

Lemma join_ascii : forall parts separator,
  Forall (Forall is_ascii) parts -> Forall is_ascii separator ->
  Forall is_ascii (join parts separator).
Proof.
  intros parts separator Hp Hs.
  induction Hp as [|p rest Hp Hrest IH]; [constructor|].
  cbn [join]. destruct rest as [|q rest]; [exact Hp|].
  apply Forall_app. split; [exact Hp|].
  apply Forall_app. split; [exact Hs | exact IH].
Qed.

Lemma serialized_ascii : forall entries,
  Forall (fun e => code_units (fst e) /\ code_units (snd e)) entries ->
  Forall is_ascii (URLSearchParams_toString entries).
Proof.
  intros entries H. unfold URLSearchParams_toString.
  apply join_ascii; [|literal].
  apply Forall_map. eapply Forall_impl; [|exact H].
  intros e [Hk Hv]. apply form_entry_ascii; assumption.
Qed.

Lemma token_request_length : forall entries,
  Forall (fun e => code_units (fst e) /\ code_units (snd e)) entries ->
  tr_content_length (token_request (URLSearchParams_toString entries)) =
  Z.of_nat (length (tr_written (token_request (URLSearchParams_toString entries)))).
Proof.
  intros entries H. cbn [token_request tr_content_length tr_written].
  unfold Buf.from. rewrite encode_ascii by apply serialized_ascii, H.
  reflexivity.
Qed.

(** [Content-Length] of the two token requests.  The header is set from
    [postData.length], a count of code units, and the body is written as
    UTF-8; the serializer leaves nothing outside ASCII, so the header is
    the number of bytes written, whatever the code, the client id, the
    client secret and the refresh token contain. *)
Theorem token_request_content_length :
  forall code clientId clientSecret refresh,
  code_units code -> code_units clientId -> code_units clientSecret ->
  code_units refresh ->
  tr_content_length (exchange_request code clientId clientSecret) =
    Z.of_nat (length (tr_written (exchange_request code clientId clientSecret)))
  /\
  tr_content_length (refresh_request clientId clientSecret refresh) =
    Z.of_nat (length (tr_written (refresh_request clientId clientSecret refresh))).
Proof.
  intros code clientId clientSecret refresh Hc Hi Hs Hr.
  split; apply token_request_length;
    repeat (constructor; [cbn [fst snd]; split;
                          (assumption || literal)|]);
    constructor.
Qed.

Lemma split_on_none : forall separator s,
  ~ In separator s -> split_on separator s = [s].
Proof.
  intros separator s H. induction s as [|c t IH]; [reflexivity|].
  cbn [split_on]. destruct (Z.eqb_spec c separator) as [->|_].
  - exfalso. apply H. left. reflexivity.
  - rewrite IH by (intros X; apply H; right; exact X). reflexivity.
Qed.

Lemma split_on_field : forall separator field rest,
  ~ In separator field ->
  split_on separator (field ++ separator :: rest)
  = field :: split_on separator rest.
Proof.
  intros separator field rest H. induction field as [|c t IH].
  - cbn [app split_on]. rewrite Z.eqb_refl. reflexivity.
  - cbn [app split_on]. destruct (Z.eqb_spec c separator) as [->|_].
    + exfalso. apply H. left. reflexivity.
    + rewrite IH by (intros X; apply H; right; exact X). reflexivity.
Qed.


Lemma form_entry_no_ampersand : forall entry,
  code_units (fst entry) -> code_units (snd entry) ->
  ~ In 38 (form_entry entry).
Proof.
  intros entry Hk Hv Hin. unfold form_entry in Hin.
  apply in_app_or in Hin as [Hin | Hin].
  - revert Hin. apply form_characters_without; [|left; reflexivity].
    apply form_encode_characters, Hk.
  - apply in_app_or in Hin as [Hin | Hin].
    + cbn in Hin. intuition lia.
    + revert Hin. apply form_characters_without; [|left; reflexivity].
      apply form_encode_characters, Hv.
Qed.

Lemma split_entry : forall entry rest,
  code_units (fst entry) -> code_units (snd entry) ->
  split_on 38 (form_entry entry ++ js "&" ++ rest)
  = form_entry entry :: split_on 38 rest.
Proof.
  intros entry rest Hk Hv.
  change (js "&" ++ rest) with (38 :: rest).
  apply split_on_field, form_entry_no_ampersand; assumption.
Qed.

(** The fields of the two token requests.  Cut at every [&], the body
    is the list of the fields of the source, each a name, [=] and the
    encoded value; no encoded value holds an [=] or an [&].  Nothing in
    a code, a client id, a client secret or a refresh token can add a
    field to the request or cut one short. *)
Theorem token_request_fields : forall code clientId clientSecret refresh,
  code_units code -> code_units clientId -> code_units clientSecret ->
  code_units refresh ->
  split_on 38 (exchange_postData code clientId clientSecret) =
    [ js "code=" ++ form_encode code;
      js "client_id=" ++ form_encode clientId;
      js "client_secret=" ++ form_encode clientSecret;
      js "redirect_uri=http%3A%2F%2Flocalhost%3A8089%2Fcallback";
      js "grant_type=authorization_code" ]
  /\
  split_on 38 (refresh_postData clientId clientSecret refresh) =
    [ js "client_id=" ++ form_encode clientId;
      js "client_secret=" ++ form_encode clientSecret;
      js "refresh_token=" ++ form_encode refresh;
      js "grant_type=refresh_token" ]
  /\
  Forall (fun value => ~ In 61 (form_encode value) /\ ~ In 38 (form_encode value))
    [code; clientId; clientSecret; refresh].
Proof.
  intros code clientId clientSecret refresh Hc Hi Hs Hr.
  split; [|split].
  - unfold exchange_postData, URLSearchParams_toString. cbn [map join].
    rewrite !split_entry by (cbn [fst snd]; (assumption || literal)).
    reflexivity.
  - unfold refresh_postData, URLSearchParams_toString. cbn [map join].
    rewrite !split_entry by (cbn [fst snd]; (assumption || literal)).
    reflexivity.
  - repeat (constructor;
            [split; (apply form_characters_without;
                     [apply form_encode_characters; assumption | auto])|]).
    constructor.
Qed.

(** The path of the search.  [findKolpFileInDrive] writes the order as
    [orderBy=modifiedTime desc], with a space, in the path it gives to
    [https.get]; the client rejects a path with a space before it sends
    anything.  The paths of the download and the delete request are
    accepted for every file id made of the characters from [!] to
    U+00FF. *)
Theorem find_request_path_rejected :
  findKolpFileInDrive_path = Throw ERR_UNESCAPED_CHARACTERS /\
  forall fileId,
    Forall (fun c => 0x21 <= c <= 0xFF) fileId ->
    downloadFromGoogleDrive_path fileId
      = Ok (js "/drive/v3/files/" ++ fileId ++ js "?alt=media") /\
    deleteFileFromDrive_path fileId = Ok (js "/drive/v3/files/" ++ fileId).
Proof.
  split; [reflexivity|].
  intros fileId H.
  assert (Hid : forall rest, INVALID_PATH rest = false ->
                  INVALID_PATH (fileId ++ rest) = false).
  { intros rest Hrest. unfold INVALID_PATH in *.
    rewrite existsb_app, Hrest, orb_false_r.
    induction H as [|c t Hc _ IH]; [reflexivity|].
    cbn [existsb]. rewrite IH, orb_false_r.
    destruct (Z.leb_spec 0x21 c), (Z.leb_spec c 0xFF);
      first [reflexivity | exfalso; lia]. }
  unfold downloadFromGoogleDrive_path, deleteFileFromDrive_path, ClientRequest_path.
  split.
  - replace (INVALID_PATH (js "/drive/v3/files/" ++ fileId ++ js "?alt=media"))
      with false; [reflexivity|].
    symmetry. unfold INVALID_PATH. rewrite existsb_app.
    change (existsb _ (js "/drive/v3/files/")) with false. cbn [orb].
    apply Hid. reflexivity.
  - replace (INVALID_PATH (js "/drive/v3/files/" ++ fileId)) with false;
      [reflexivity|].
    symmetry. unfold INVALID_PATH. rewrite existsb_app.
    change (existsb _ (js "/drive/v3/files/")) with false. cbn [orb].
    rewrite <- (app_nil_r fileId). apply Hid. reflexivity.
Qed.

(** * The account and sync handlers: further properties *)

Section AccountFacts.

Context {P : Platform}.

(** Disconnecting removes the token file and nothing else: the stored
    client credentials and the local backup stay, and no request is
    sent.  From then on [google-status] reports no connection and both
    sync handlers answer [Not authenticated] without reading the clock,
    writing a file or sending a request. *)
Theorem disconnect_stops_sync : forall (data : Data) (w : World P),
  exists w1,
    google_disconnect w = (Ok true, w1) /\
    credentialsFile w1 = credentialsFile w /\
    kolpFile w1 = kolpFile w /\
    remote w1 = remote w /\
    log w1 = log w /\
    google_status w1 = (Ok Disconnected, w1) /\
    google_sync_upload data w1 = (Ok (failed "Not authenticated"), w1) /\
    google_sync_download w1 = (Ok (failed "Not authenticated"), w1).
Proof.
  intros data w. eexists. repeat apply conj; reflexivity.
Qed.

(** [refreshAccessToken] never throws and sends one request at most.
    When it returns nothing the token file is as it was.  When it
    returns a token, that token and the new expiry have been saved with
    the refresh token and the e-mail address of the old record. *)
Theorem refresh_outcome : forall w : World P,
  exists token w' new,
    refreshAccessToken w = (Ok token, w') /\
    log w' = log w ++ EvRefresh :: new /\
    credentialsFile w' = credentialsFile w /\
    kolpFile w' = kolpFile w /\
    (length (filter is_request new) <= 1)%nat /\
    (truthy token = false ->
       tokenFile w' = tokenFile w /\ filter is_token_save new = []) /\
    (truthy token = true ->
       exists old credentials status body response expires_in saved,
         tokenFile w = Some old /\
         credentialsFile w = Some credentials /\
         new = [EvHttp (TokenRefresh (clientId credentials)
                          (clientSecret credentials) (refresh_token old))
                  (Response status body (Ok response));
                EvSaveTokens saved] /\
         get response (js "access_token") = Ok token /\
         get response (js "expires_in") = Ok expires_in /\
         saved = {| access_token := token;
                    refresh_token := refresh_token old;
                    expiry_date := expiry_after (clock w (reads w)) expires_in;
                    email := email old |} /\
         tokenFile w' = Some saved).
Proof.
  intros w. run; tidy.
  all: do 3 eexists; split; [reflexivity|]; split; [log_extension|].
  all: simpl_world.
  all: repeat apply conj; try reflexivity.
  all: cbn [filter is_request is_token_save length]; try lia.
  all: try (intros; split; reflexivity).
  all: try (cbn [truthy]; intros; discriminate).
  all: try congruence.
  all: intros _; do 7 eexists; repeat apply conj; try reflexivity; eauto.
Qed.

End AccountFacts.

Section SyncEdges.

Context {P : Platform}.

(** After a refresh the handlers use the renewed token.  When the
    stored token expires within a minute and the refresh succeeds, a
    sync handler calls the search with the access token that
    [refreshAccessToken] saved in the same run, not with the one it
    first loaded; it is this call that the client refuses.  When the
    refresh returns nothing the search is not called. *)
Theorem renewed_token_is_used : forall (data : Data) (w : World P) t,
  tokenFile w = Some t ->
  expiry_date t - 60000 <= clock w (reads w) ->
  forall handler,
    handler = google_sync_upload data \/ handler = google_sync_download ->
    exists result w' new,
      handler w = (Ok result, w') /\
      log w' = log w ++ new /\
      (forall r message,
         In (EvRefused r message) new ->
         exists saved,
           In (EvSaveTokens saved) new /\
           tokenFile w' = Some saved /\
           r = find_request (access_token saved)) /\
      (forall saved,
         In (EvSaveTokens saved) new ->
         (exists message,
            In (EvRefused (find_request (access_token saved)) message) new)
         \/ exists message,
              createKolpFile JSON_stringify
                (clock w (S (S (reads w)))) data = Throw message).
Proof.
  intros data w t Ht Hstale handler [-> | ->].
  all: run_sync; try rewrite Ht in *; tidy.
  all: try match goal with
       | H : (_ >=? _) = false |- _ =>
           exfalso; revert H; cbn [expiry_date];
           destruct (Z.geb_spec (clock w (reads w)) (expiry_date t - 60000));
           [discriminate | lia]
       end.
  all: do 3 eexists; split; [reflexivity|]; split; [log_extension|].
  all: split; [intros ? ? Hin; in_log|intros ? Hin; in_log].
  all: try (eexists; split; [cbn [In]; eauto 10|];
            split; [reflexivity|]; reflexivity).
  all: try (exfalso; congruence).
  all: first [ solve [left; eexists; cbn [In]; eauto 10]
             | right; cbn [clock reads] in *; eauto ].
Qed.

End SyncEdges.

(** * The OAuth flow: further properties *)

Lemma encodeURIComponent_bounded : forall n s,
  (length s <= n)%nat -> code_units s ->
  if well_formed s
  then exists encoded, encodeURIComponent s = Ok encoded
  else encodeURIComponent s = Throw URI_malformed.
Proof.
  unfold code_units.
  induction n as [|n IH]; intros s Hn Hs.
  - destruct s; [cbn; eauto | cbn [length] in Hn; lia].
  - destruct s as [|c t]; [cbn; eauto|].
    cbn [length] in Hn. inversion Hs as [|? ? Hc Ht]; subst.
    cbn [well_formed encodeURIComponent].
    destruct (Z.leb_spec 0 c), (Z.leb_spec c 0xFFFF); try lia. cbn [andb negb].
    pose proof (IH t ltac:(lia) Ht) as IHt.
    destruct (unreserved c) eqn:Hu.
    + assert (Hascii : is_high_surrogate c = false /\ is_low_surrogate c = false).
      { unfold unreserved in Hu. cbn [existsb] in Hu.
        unfold is_high_surrogate, is_low_surrogate.
        booleans; split; lia. }
      destruct Hascii as [-> ->].
      destruct (well_formed t).
      * destruct IHt as [r ->]. eauto.
      * rewrite IHt. reflexivity.
    + destruct (is_high_surrogate c) eqn:Hh.
      * assert (Hl : is_low_surrogate c = false).
        { unfold is_high_surrogate, is_low_surrogate in *. booleans. lia. }
        rewrite Hl.
        destruct t as [|d t']; [reflexivity|].
        destruct (is_low_surrogate d); cbn [andb]; [|reflexivity].
        inversion Ht; subst. cbn [length] in Hn.
        pose proof (IH t' ltac:(lia) ltac:(assumption)) as IHt'.
        destruct (well_formed t').
        -- destruct IHt' as [r ->]. eauto.
        -- rewrite IHt'. reflexivity.
      * destruct (is_low_surrogate c); [reflexivity|].
        destruct (well_formed t).
        -- destruct IHt as [r ->]. eauto.
        -- rewrite IHt. reflexivity.
Qed.

Lemma redirect_encoded :
  encodeURIComponent GOOGLE_REDIRECT_URI
  = Ok (js "http%3A%2F%2Flocalhost%3A8089%2Fcallback").
Proof. vm_compute. reflexivity. Qed.

Lemma scopes_encoded :
  encodeURIComponent (join GOOGLE_SCOPES (js " "))
  = Ok (js "https%3A%2F%2Fwww.googleapis.com%2Fauth%2Fdrive.file%20email%20profile").
Proof. vm_compute. reflexivity. Qed.

Section FlowEdges.

Context {P : Platform}.

(** [startGoogleAuth] starts a flow exactly for the client ids that are
    well-formed strings.  For those it sets up the listener on port
    8089 and the five-minute timer and nothing is resolved yet; for a
    client id with a lone surrogate the promise is rejected with a
    URIError.  The client secret plays no part. *)
Theorem startGoogleAuth_starts_iff :
  forall clientId clientSecret random tokens credentials clock,
    code_units clientId ->
    if well_formed clientId
    then exists f0,
           startGoogleAuth clientId clientSecret random tokens credentials clock
             = Ok f0 /\
           trace f0 = [FlListen 8089; FlTimer 300000] /\
           settled f0 = None /\ server f0 = Starting /\
           flow_state f0 = random
    else startGoogleAuth clientId clientSecret random tokens credentials clock
           = Throw URI_malformed.
Proof.
  intros clientId clientSecret random tokens credentials clock Hid.
  pose proof (encodeURIComponent_bounded (length clientId) clientId (le_n _) Hid) as H.
  unfold startGoogleAuth.
  destruct (well_formed clientId).
  - destruct H as [encoded ->]. cbn [bind].
    rewrite redirect_encoded, scopes_encoded. cbn [bind].
    eexists. split; [reflexivity|].
    cbn [trace settled server flow_state]. auto.
  - rewrite H. reflexivity.
Qed.

Lemma run_flow_cons : forall (f : Flow) input inputs,
  run_flow f (input :: inputs) = run_flow (step f input) inputs.
Proof. reflexivity. Qed.

Ltac started H :=
  unfold startGoogleAuth in H;
  destruct (encodeURIComponent _) in H; [|discriminate H];
  destruct (encodeURIComponent GOOGLE_REDIRECT_URI) in H; [|discriminate H];
  destruct (encodeURIComponent _) in H; [|discriminate H];
  cbn [bind] in H;
  lazymatch type of H with
  | Ok (Build_Flow _ _ _ ?u _ _ _ _ _ _ _ _ _) = _ =>
      let url := fresh "url" in
      let Hurl := fresh in
      remember u as url eqn:Hurl; clear Hurl
  end;
  injection H as <-.

(** One callback of a flow whose state is known: [branch] selects the
    branch of [step], [record] computes the flow it leaves. *)
Ltac branch :=
  rewrite run_flow_cons; unfold step;
  cbn beta iota zeta delta [nth suspended server timer_pending flow_state];
  change (jsstring_eqb (js "/callback") (js "/callback")) with true;
  unfold differs; rewrite ?jsstring_eqb_refl;
  cbn beta iota zeta delta [negb].

Ltac fields :=
  cbn beta iota zeta delta
    [trace settled timer_pending server suspended flow_tokens flow_credentials
     flow_state flow_clientId flow_clientSecret flow_authUrl flow_clock
     flow_reads app replace_nth].

Ltac record :=
  unfold finish, catch_block; fields;
  unfold happen, set_handlers; fields;
  unfold close; fields;
  unfold resolve; fields.

Ltac evaluate_flow :=
  match goal with
  | |- let f := ?r in _ => eassert (Hf : r = _); [| cbv zeta; rewrite Hf; clear Hf]
  end.

(** The token endpoint turns the code down.  A reply without an access
    token, an error object for one, ends the request handler in
    silence: the browser gets no answer, the listener stays open and
    the promise stays pending.  Only the timer resolves such a flow,
    five minutes after its start, as a timeout. *)
Theorem token_refusal_leaves_flow_pending :
  forall clientId clientSecret random tokens credentials clock f0
         code response token,
    startGoogleAuth clientId clientSecret random tokens credentials clock = Ok f0 ->
    get response (js "access_token") = Ok token ->
    truthy token = false ->
    let f := run_flow f0 [Listening;
                          Incoming (js "/callback") code (JSString random);
                          Settles 0 (Ok response)] in
    settled f = None /\
    server f = Accepting /\
    trace f = trace f0 ++ [FlOpenExternal (flow_authUrl f0);
                           FlRequest (TokenExchange code clientId clientSecret)] /\
    flow_tokens f = tokens /\
    flow_credentials f = credentials /\
    settled (step f TimerFires) = Some (AuthFailure (js "Authentication timeout")).
Proof.
  intros clientId clientSecret random tokens credentials clock f0
    code response token Hstart Hget Htoken.
  started Hstart. evaluate_flow.
  { branch. record. branch. record.
    branch. rewrite Hget. cbn iota. rewrite Htoken. record. reflexivity. }
  unfold step. record. repeat apply conj; reflexivity.
Qed.

(** The flow on its way to success: the tokens saved are the access and
    refresh token of the reply, the expiry computed from [expires_in]
    at the time of saving and the e-mail address of the profile; the
    client id and secret given to [startGoogleAuth] are saved with them;
    the browser is answered 200, the listener is stopped and the promise
    resolves with the address. *)
Theorem successful_flow_persists :
  forall clientId clientSecret random tokens credentials clock f0
         code tokenResponse userInfo token refresh expires_in address,
    startGoogleAuth clientId clientSecret random tokens credentials clock = Ok f0 ->
    get tokenResponse (js "access_token") = Ok token ->
    truthy token = true ->
    get tokenResponse (js "refresh_token") = Ok refresh ->
    get tokenResponse (js "expires_in") = Ok expires_in ->
    get userInfo (js "email") = Ok address ->
    let saved := {| access_token := token; refresh_token := refresh;
                    expiry_date := expiry_after (clock 0%nat) expires_in;
                    email := address |} in
    let secrets := {| clientId := clientId; clientSecret := clientSecret |} in
    let f := run_flow f0 [Listening;
                          Incoming (js "/callback") code (JSString random);
                          Settles 0 (Ok tokenResponse);
                          Settles 0 (Ok userInfo)] in
    settled f = Some (AuthSuccess address) /\
    flow_tokens f = Some saved /\
    flow_credentials f = Some secrets /\
    server f = Closed /\
    trace f = trace f0 ++
      [FlOpenExternal (flow_authUrl f0);
       FlRequest (TokenExchange code clientId clientSecret);
       FlRequest (UserInfo token);
       FlSaveTokens saved; FlSaveCredentials secrets;
       FlRespond 200; FlClose; FlResolve (AuthSuccess address)].
Proof.
  intros clientId clientSecret random tokens credentials clock f0
    code tokenResponse userInfo token refresh expires_in address
    Hstart Htoken Htruthy Hrefresh Hexpires Hemail saved secrets.
  started Hstart. evaluate_flow.
  { branch. record. branch. record.
    branch. rewrite Htoken. cbn iota. rewrite Htruthy. record.
    branch. rewrite Htoken, Hrefresh, Hexpires, Hemail. cbn iota. record.
    reflexivity. }
  record. repeat apply conj; reflexivity.
Qed.

(** Resolving does not stop a handler that is under way.  When the
    timer fires between the callback and the replies of Google, the
    promise resolves as a timeout and stays so; the handler still saves
    the tokens and the client credentials when the replies arrive. *)
Theorem tokens_saved_after_timeout :
  forall clientId clientSecret random tokens credentials clock f0
         code tokenResponse userInfo token refresh expires_in address,
    startGoogleAuth clientId clientSecret random tokens credentials clock = Ok f0 ->
    get tokenResponse (js "access_token") = Ok token ->
    truthy token = true ->
    get tokenResponse (js "refresh_token") = Ok refresh ->
    get tokenResponse (js "expires_in") = Ok expires_in ->
    get userInfo (js "email") = Ok address ->
    let f := run_flow f0 [Listening;
                          Incoming (js "/callback") code (JSString random);
                          TimerFires;
                          Settles 0 (Ok tokenResponse);
                          Settles 0 (Ok userInfo)] in
    settled f = Some (AuthFailure (js "Authentication timeout")) /\
    flow_tokens f =
      Some {| access_token := token; refresh_token := refresh;
              expiry_date := expiry_after (clock 0%nat) expires_in;
              email := address |} /\
    flow_credentials f =
      Some {| clientId := clientId; clientSecret := clientSecret |}.
Proof.
  intros clientId clientSecret random tokens credentials clock f0
    code tokenResponse userInfo token refresh expires_in address
    Hstart Htoken Htruthy Hrefresh Hexpires Hemail.
  started Hstart. evaluate_flow.
  { branch. record. branch. record.
    branch. record.
    branch. rewrite Htoken. cbn iota. rewrite Htruthy. record.
    branch. rewrite Htoken, Hrefresh, Hexpires, Hemail. cbn iota. record.
    reflexivity. }
  record. repeat apply conj; reflexivity.
Qed.

End FlowEdges.

(** * The local file handlers *)

Section LocalFacts.

Context {F : FileSystem}.

(** What the theorems below ask of the file system: a file that has
    been written is there and holds what was written. *)
Hypothesis read_after_write : forall disk filePath bytes disk',
  writeFileSync disk filePath bytes = (Ok tt, disk') ->
  readFileSync disk' filePath = Ok bytes.

Hypothesis exists_after_write : forall disk filePath bytes disk',
  writeFileSync disk filePath bytes = (Ok tt, disk') ->
  existsSync disk' filePath = true.

(** [save-file] followed by [read-file] on the same path gives the
    content back after a UTF-8 round trip: unchanged when it is a
    well-formed string, with U+FFFD for every lone surrogate
    otherwise. *)
Theorem save_file_then_read_file : forall filePath content disk disk',
  save_file filePath content disk = (LocalSuccess tt, disk') ->
  read_file filePath disk' = LocalSuccess (Utf8.decode (Utf8.encode content)) /\
  (well_formed content = true -> read_file filePath disk' = LocalSuccess content).
Proof.
  intros filePath content disk disk' Hsave.
  unfold save_file in Hsave.
  destruct (writeFileSync disk filePath (Buf.from content)) as [[[]|message] d]
    eqn:Hwrite; [|discriminate Hsave].
  injection Hsave as <-.
  unfold read_file. rewrite (read_after_write _ _ _ _ Hwrite).
  unfold Buf.toString, Buf.from. split; [reflexivity|].
  intros Hwf. rewrite decode_encode by exact Hwf. reflexivity.
Qed.

Variable Data : Type.
Variable JSON_stringify : Data -> Result (option jsstring).
Variable JSON_parse : jsstring -> Result Data.

Lemma written_then_read : forall filePath now data disk disk' written text d,
  JSON_stringify data = Ok (Some text) ->
  well_formed text = true ->
  Z.of_nat (length text) <= MAX_STRING_LENGTH ->
  JSON_parse text = Ok d ->
  valid_time now ->
  write_kolp JSON_stringify filePath now data disk = (LocalSuccess written, disk') ->
  written = filePath /\
  writeFileSync disk filePath
    (header_bytes now (Utf8.encode text) ++ Utf8.encode text) = (Ok tt, disk') /\
  read_kolp JSON_parse filePath disk' =
    LocalSuccess {| version := 1; timestamp := ISO now;
                    checksum := firstn 32 (Sha256.hex (Utf8.encode text));
                    data := d |}.
Proof.
  intros filePath now data disk disk' written text d Hs Hwf Hlen Hd Hnow Hwrite.
  unfold write_kolp in Hwrite.
  rewrite (createKolpFile_bytes Data JSON_stringify data text now Hs Hlen Hnow)
    in Hwrite.
  destruct (writeFileSync disk filePath _) as [[[]|message] disk1] eqn:Hfs;
    [|discriminate Hwrite].
  injection Hwrite as <- <-.
  split; [reflexivity|]. split; [reflexivity|].
  unfold read_kolp. rewrite (read_after_write _ _ _ _ Hfs).
  unfold parseKolpFile.
  rewrite (parse_created Data JSON_parse text d now Hwf Hlen Hd Hnow).
  reflexivity.
Qed.

(** Export, then import.  When [kolp-export] has written the file the
    user chose, [kolp-import] of that file succeeds and returns the
    snapshot after a JSON round trip, with version 1 and the instant of
    the export. *)
Theorem export_then_import :
  forall dialog now data disk disk' written text d others,
    JSON_stringify data = Ok (Some text) ->
    well_formed text = true ->
    Z.of_nat (length text) <= MAX_STRING_LENGTH ->
    JSON_parse text = Ok d ->
    valid_time now ->
    kolp_export JSON_stringify (Ok dialog) now data disk
      = (LocalSuccess written, disk') ->
    written = save_filePath dialog /\
    kolp_import JSON_parse
      (Ok {| open_canceled := false; open_filePaths := written :: others |})
      disk'
    = LocalSuccess {| version := 1; timestamp := ISO now;
                      checksum := firstn 32 (Sha256.hex (Utf8.encode text));
                      data := d |}.
Proof.
  intros dialog now data disk disk' written text d others
    Hs Hwf Hlen Hd Hnow Hexport.
  unfold kolp_export in Hexport.
  destruct (negb (save_canceled dialog) && negb (is_empty (save_filePath dialog)));
    [|discriminate Hexport].
  destruct (written_then_read _ _ _ _ _ _ _ _ Hs Hwf Hlen Hd Hnow Hexport)
    as (-> & _ & Hread).
  split; [reflexivity|].
  unfold kolp_import. cbn [open_canceled open_filePaths]. exact Hread.
Qed.

End LocalFacts.

Section SaveLocal.

Context {F : FileSystem}.

Hypothesis read_after_write : forall disk filePath bytes disk',
  writeFileSync disk filePath bytes = (Ok tt, disk') ->
  readFileSync disk' filePath = Ok bytes.

Hypothesis exists_after_write : forall disk filePath bytes disk',
  writeFileSync disk filePath bytes = (Ok tt, disk') ->
  existsSync disk' filePath = true.

Variable JSON_stringify : JSValue -> Result (option jsstring).
Variable JSON_parse : jsstring -> Result JSValue.

(** [kolp-save-local] saves no note.  It is given a folder and nothing
    else; the file it writes there holds the empty snapshot, and
    [kolp-load-local] on the same folder returns that snapshot, after a
    JSON round trip, whatever the application holds. *)
Theorem save_local_then_load_local :
  forall folderPath exportDate now disk disk' written text d,
    JSON_stringify (placeholder exportDate) = Ok (Some text) ->
    well_formed text = true ->
    Z.of_nat (length text) <= MAX_STRING_LENGTH ->
    JSON_parse text = Ok d ->
    valid_time now ->
    kolp_save_local JSON_stringify folderPath exportDate now disk
      = (LocalSuccess written, disk') ->
    written = path_join folderPath (js "kolp_backup.klp") /\
    kolp_load_local JSON_parse folderPath disk'
    = LocalSuccess {| version := 1; timestamp := ISO now;
                      checksum := firstn 32 (Sha256.hex (Utf8.encode text));
                      data := d |}.
Proof.
  intros folderPath exportDate now disk disk' written text d
    Hs Hwf Hlen Hd Hnow Hsave.
  unfold kolp_save_local in Hsave. cbv zeta in Hsave.
  destruct (written_then_read read_after_write JSValue JSON_stringify JSON_parse
              _ _ _ _ _ _ _ _ Hs Hwf Hlen Hd Hnow Hsave)
    as (-> & Hfs & Hread).
  split; [reflexivity|].
  unfold kolp_load_local. cbv zeta.
  rewrite (exists_after_write _ _ _ _ Hfs). exact Hread.
Qed.

End SaveLocal.

(** * The container inside the multipart body *)

Lemma is_prefix_nth_error : forall needle hay,
  is_prefix needle hay = true ->
  forall k a, nth_error needle k = Some a -> nth_error hay k = Some a.
Proof.
  induction needle as [|x needle IH]; intros hay H k a Hk.
  - destruct k; discriminate Hk.
  - destruct hay as [|y hay]; [discriminate H|].
    cbn [is_prefix] in H. apply andb_true_iff in H as [Hxy H].
    apply Z.eqb_eq in Hxy. subst y.
    destruct k as [|k]; [exact Hk|]. cbn [nth_error] in *. eauto.
Qed.

Lemma occurs_at_mismatch : forall needle hay p k a b,
  nth_error needle k = Some a ->
  nth_error hay (p + k) = Some b ->
  a <> b ->
  occurs_at needle hay p = false.
Proof.
  intros needle hay p k a b Hn Hh Hab. unfold occurs_at.
  destruct (is_prefix needle (skipn p hay)) eqn:E; [|reflexivity].
  pose proof (is_prefix_nth_error _ _ E k a Hn) as H.
  rewrite nth_error_skipn in H. congruence.
Qed.

Lemma delimiter_bytes :
  delimiter = [13; 10] ++ repeat 45 9 ++ js "314159265358979323846".
Proof. vm_compute. reflexivity. Qed.

Lemma delimiter_line_break : forall k,
  (1 <= k <= 10)%nat ->
  exists a, nth_error delimiter k = Some a /\ (a = 10 \/ a = 45).
Proof.
  intros k Hk. rewrite delimiter_bytes.
  do 11 (destruct k as [|k];
         [first [exfalso; lia | eexists; split; [reflexivity | auto]]|]).
  exfalso; lia.
Qed.

Lemma hex_digit_character : forall y,
  hex_character (Sha256.hex_digit (y mod 16)).
Proof.
  intros y. unfold Sha256.hex_digit, hex_character.
  destruct (Z.ltb_spec (y mod 16) 10); divlia.
Qed.

Lemma firstn_characters : forall n s,
  Forall hex_character s -> Forall hex_character (firstn n s).
Proof.
  intros n s H. revert n. induction H; intros [|n]; cbn [firstn]; auto.
Qed.

Lemma checksum_characters : forall m,
  Forall hex_character (firstn 32 (Sha256.hex m)).
Proof.
  intros m. apply firstn_characters. unfold Sha256.hex.
  repeat (apply Forall_app; split);
    unfold Sha256.hex32; cbn [map];
    repeat (apply Forall_cons; [apply hex_digit_character|]);
    apply Forall_nil.
Qed.

Lemma encode_printable_bounded : forall n s,
  (length s <= n)%nat -> Forall (fun c => 0x20 <= c) s ->
  Forall (fun b => 0x20 <= b) (Utf8.encode s).
Proof.
  induction n as [|n IH]; intros s Hn Hs.
  - destruct s; [constructor | cbn [length] in Hn; lia].
  - destruct s as [|c t]; [constructor|].
    cbn [length] in Hn. inversion Hs as [|? ? Hc Ht]; subst.
    assert (Hrest : Forall (fun b => 0x20 <= b) (Utf8.encode t))
      by (apply IH; [lia | assumption]).
    cbn [Utf8.encode].
    destruct (Z.ltb_spec c 0x80); [constructor; [lia | assumption]|].
    destruct (Z.ltb_spec c 0x800);
      [repeat (constructor; [divlia|]); assumption|].
    destruct (is_high_surrogate c) eqn:Hh.
    + apply surrogate_range_high in Hh.
      destruct t as [|d t']; [repeat constructor; lia|].
      destruct (is_low_surrogate d) eqn:Hl.
      * apply surrogate_range_low in Hl.
        inversion Ht; subst. cbn [length] in Hn.
        repeat (constructor; [divlia|]). apply IH; [lia | assumption].
      * apply Forall_app. split; [repeat constructor; lia | assumption].
    + destruct (is_low_surrogate c).
      * apply Forall_app. split; [repeat constructor; lia | assumption].
      * repeat (constructor; [divlia|]). assumption.
Qed.

Lemma encode_first_byte : forall s,
  Forall (fun c => 0x20 <= c) s -> hd 0 s <> 45 ->
  exists b, nth_error (Utf8.encode s ++ upload_tail) 0 = Some b /\
            b <> 10 /\ b <> 45.
Proof.
  intros s Hs Hhd. destruct s as [|c t].
  - exists 13. split; [reflexivity | split; lia].
  - inversion Hs; subst. cbn [hd] in Hhd. cbn [Utf8.encode].
    destruct (Z.ltb_spec c 0x80);
      [exists c; split; [reflexivity | split; lia]|].
    destruct (Z.ltb_spec c 0x800);
      [eexists; split; [reflexivity | split; divlia]|].
    destruct (is_high_surrogate c) eqn:Hh.
    + apply surrogate_range_high in Hh.
      destruct t as [|d t'];
        [exists 0xEF; split; [reflexivity | split; lia]|].
      destruct (is_low_surrogate d) eqn:Hl.
      * apply surrogate_range_low in Hl.
        eexists; split; [reflexivity | split; divlia].
      * exists 0xEF; split; [reflexivity | split; lia].
    + destruct (is_low_surrogate c).
      * exists 0xEF; split; [reflexivity | split; lia].
      * eexists; split; [reflexivity | split; divlia].
Qed.

(** No delimiter in a buffer laid out as a container whose checksum
    field holds hexadecimal digits and whose payload holds no control
    character and does not begin with a hyphen. *)
Lemma laid_out_free_of_delimiter : forall (ts ck ln payload : Buffer) p,
  length ts = 8%nat -> length ck = 32%nat -> length ln = 4%nat ->
  Forall hex_character ck ->
  Forall (fun b => 0x20 <= b) payload ->
  (exists b, nth_error (payload ++ upload_tail) 0 = Some b /\ b <> 10 /\ b <> 45) ->
  (p < 49 + length payload)%nat ->
  occurs_at delimiter
    (KOLP_MAGIC ++ [KOLP_VERSION] ++ ts ++ ck ++ ln ++ payload ++ upload_tail) p
  = false.
Proof.
  intros ts ck ln payload p Hts Hck Hln Hhex Hpay (b0 & Hb0 & Hb10 & Hb45) Hp.
  set (buffer := KOLP_MAGIC ++ [KOLP_VERSION] ++ ts ++ ck ++ ln
                   ++ payload ++ upload_tail).
  assert (Hck_at : forall i, (i < 32)%nat ->
            exists c, nth_error buffer (13 + i) = Some c /\ hex_character c).
  { intros i Hi. unfold buffer.
    rewrite (app_assoc KOLP_MAGIC), (app_assoc _ ts).
    rewrite nth_error_app2 by (rewrite !length_app, Hts; cbn; lia).
    rewrite !length_app, Hts. change (length KOLP_MAGIC) with 4%nat.
    cbn [length].
    replace (13 + i - (4 + 1 + 8))%nat with i by lia.
    rewrite nth_error_app1 by lia.
    destruct (nth_error ck i) as [c|] eqn:E.
    - exists c. split; [reflexivity|].
      rewrite Forall_forall in Hhex. apply Hhex. eapply nth_error_In, E.
    - apply nth_error_None in E. lia. }
  assert (Hrest_at : forall i,
            nth_error buffer (49 + i) = nth_error (payload ++ upload_tail) i).
  { intros i. unfold buffer.
    rewrite (app_assoc KOLP_MAGIC), (app_assoc _ ts), (app_assoc _ ck),
      (app_assoc _ ln).
    rewrite nth_error_app2 by (rewrite !length_app, Hts, Hck, Hln; cbn; lia).
    rewrite !length_app, Hts, Hck, Hln. change (length KOLP_MAGIC) with 4%nat.
    cbn [length]. f_equal. lia. }
  assert (Hcr : nth_error delimiter 0 = Some 13) by reflexivity.
  destruct (Nat.lt_ge_cases p 5) as [Hlow|Hlow].
  - (* in the magic or the version byte *)
    do 5 (destruct p as [|p];
          [eapply (occurs_at_mismatch _ _ _ 0%nat); [exact Hcr | reflexivity |];
           intros Hsame; vm_compute in Hsame; discriminate Hsame|]).
    lia.
  - destruct (Nat.lt_ge_cases p 13) as [Hts_p|Hts_p].
    + (* in the timestamp: the first checksum digit is in the way *)
      destruct (delimiter_line_break (13 - p)) as (a & Ha & Hchoice); [lia|].
      destruct (Hck_at 0%nat) as (c & Hc & Hhexc); [lia|].
      eapply (occurs_at_mismatch _ _ _ (13 - p)%nat); [exact Ha | |].
      * replace (p + (13 - p))%nat with (13 + 0)%nat by lia. exact Hc.
      * unfold hex_character in Hhexc. lia.
    + destruct (Nat.lt_ge_cases p 45) as [Hck_p|Hck_p].
      * (* in the checksum *)
        destruct (Hck_at (p - 13)%nat) as (c & Hc & Hhexc); [lia|].
        eapply (occurs_at_mismatch _ _ _ 0%nat); [exact Hcr | |].
        -- replace (p + 0)%nat with (13 + (p - 13))%nat by lia. exact Hc.
        -- unfold hex_character in Hhexc. lia.
      * destruct (Nat.lt_ge_cases p 49) as [Hln_p|Hln_p].
        -- (* in the length: the first byte after the header is in the way *)
           destruct (delimiter_line_break (49 - p)) as (a & Ha & Hchoice); [lia|].
           eapply (occurs_at_mismatch _ _ _ (49 - p)%nat); [exact Ha | |].
           ++ replace (p + (49 - p))%nat with (49 + 0)%nat by lia.
              rewrite Hrest_at. exact Hb0.
           ++ lia.
        -- (* in the payload *)
           destruct (nth_error payload (p - 49)) as [b|] eqn:E.
           ++ eapply (occurs_at_mismatch _ _ _ 0%nat); [exact Hcr | |].
              ** replace (p + 0)%nat with (49 + (p - 49))%nat by lia.
                 rewrite Hrest_at, nth_error_app1 by lia. exact E.
              ** rewrite Forall_forall in Hpay.
                 pose proof (Hpay b (nth_error_In _ _ E)). cbv beta in *. lia.
           ++ apply nth_error_None in E. lia.
Qed.

Section Multipart.

Variable Data : Type.
Variable JSON_stringify : Data -> Result (option jsstring).

(** The container cannot cut the upload short.  When the text of the
    snapshot holds no control character and does not begin with a
    hyphen, as the text [JSON.stringify] gives of an object does, the
    multipart delimiter occurs nowhere inside the container that
    [createKolpFile] builds: in the body of the upload the first
    delimiter from the start of the container on is the closing one,
    right after the last byte of the container. *)
Theorem container_free_of_delimiter : forall data text now metadata,
  JSON_stringify data = Ok (Some text) ->
  Z.of_nat (length text) <= MAX_STRING_LENGTH ->
  valid_time now ->
  Forall (fun c => 0x20 <= c) text ->
  hd 0 text <> 45 ->
  exists container before,
    createKolpFile JSON_stringify now data = Ok container /\
    upload_body metadata container = before ++ container ++ upload_tail /\
    (forall p, (p < length container)%nat ->
       occurs_at delimiter (container ++ upload_tail) p = false) /\
    occurs_at delimiter (container ++ upload_tail) (length container) = true.
Proof.
  intros data text now metadata Hs Hlen Hnow Hprint Hhd.
  exists (header_bytes now (Utf8.encode text) ++ Utf8.encode text).
  eexists. split; [apply createKolpFile_bytes; assumption|].
  split; [unfold upload_body, Buf.concat; cbn [concat];
          rewrite app_nil_r, app_assoc; reflexivity|].
  split.
  - intros p Hp. rewrite length_app, header_bytes_length in Hp.
    unfold header_bytes. rewrite <- !app_assoc.
    apply laid_out_free_of_delimiter.
    + apply le_bytes_length.
    + apply checksum_length.
    + apply le_bytes_length.
    + apply checksum_characters.
    + apply (encode_printable_bounded (length text)); [lia | exact Hprint].
    + apply encode_first_byte; assumption.
    + lia.
  - unfold occurs_at. rewrite skipn_app, skipn_all, Nat.sub_diag. reflexivity.
Qed.

End Multipart.

(** * The sync handlers and the request line *)

Section SearchFacts.

Context {P : Platform}.

(** Neither sync handler ever reaches the storage API.  The search is
    the first request of both and its path is rejected, so every run
    ends in a failed result with no request to the storage API sent.  A download
    leaves the local backup file as it was.  An upload that got as far
    as the search has already overwritten the local backup file with
    the new container, and then fails with the message of the
    client. *)
Theorem sync_stops_at_the_search : forall (data : Data) (w : World P),
  (exists result w' new,
     google_sync_upload data w = (Ok result, w') /\
     log w' = log w ++ new /\
     succeeded result = false /\
     filter is_drive_event new = [] /\
     forall t now container,
       tokenFile w = Some t ->
       clock w (reads w) < expiry_date t - 60000 ->
       now = clock w (S (reads w)) ->
       createKolpFile JSON_stringify now data = Ok container ->
       result = Failed (JSString ERR_UNESCAPED_CHARACTERS) /\
       kolpFile w' = Some container)
  /\
  (exists result w' new,
     google_sync_download w = (Ok result, w') /\
     log w' = log w ++ new /\
     succeeded result = false /\
     filter is_drive_event new = [] /\
     kolpFile w' = kolpFile w /\
     forall t,
       tokenFile w = Some t ->
       clock w (reads w) < expiry_date t - 60000 ->
       result = Failed (JSString ERR_UNESCAPED_CHARACTERS)).
Proof.
  intros data w. split.
  - unfold google_sync_upload, findKolpFileInDrive.
    rewrite search_path_rejected. run; tidy.
    all: do 3 eexists; split; [reflexivity|]; split; [log_extension|].
    all: simpl_world.
    all: repeat apply conj; try reflexivity.
    all: intros t now container Ht Hfresh -> Hc; rewrite ?Ht in *; tidy.
    all: try match goal with
         | H : (_ >=? _) = true |- _ => apply Z.geb_le in H; exfalso; lia
         end.
    all: try (cbn [clock reads] in *; congruence).
    all: split; [reflexivity|]; cbn [clock reads] in *; congruence.
  - unfold google_sync_download, findKolpFileInDrive.
    rewrite search_path_rejected. run; tidy.
    all: do 3 eexists; split; [reflexivity|]; split; [log_extension|].
    all: simpl_world.
    all: repeat apply conj; try reflexivity.
    all: intros t Ht Hfresh; rewrite ?Ht in *; tidy.
    all: try match goal with
         | H : (_ >=? _) = true |- _ => apply Z.geb_le in H; exfalso; lia
         end.
    all: try congruence; reflexivity.
Qed.

End SearchFacts.

(** * The wire, the flow and the file handlers on samples *)

Lemma parse_ignores_trailing_bytes_witness :
  parseKolpFile MiniJSON.parse (sample_container ++ [0x0A; 0x00; 0xFF])
  = parseKolpFile MiniJSON.parse sample_container.
Proof.
  apply (parse_ignores_trailing_bytes JSValue MiniJSON.parse sample_container
           [0x0A; 0x00; 0xFF] (Z.of_nat (length sample_container) - 49)).
  - vm_compute. reflexivity.
  - vm_compute. discriminate.
Defined.

Lemma header_fields_not_verified_witness :
  parseKolpFile MiniJSON.parse
    (Buf.copy (7 :: Buf.le_bytes 8 (86400000 mod 2 ^ 64)) sample_container 4)
  = Some {| version := 7; timestamp := ISO 86400000;
            checksum := checksum sample_file; data := data sample_file |}.
Proof.
  apply (header_fields_not_verified JSValue MiniJSON.parse sample_container
           sample_file 7 86400000).
  - vm_compute. reflexivity.
  - lia.
  - unfold valid_time. lia.
Defined.

Lemma declared_length_not_verified_witness :
  parseKolpFile MiniJSON.parse
    (Buf.copy (Buf.le_bytes 4 100000) sample_container 45)
  = parseKolpFile MiniJSON.parse sample_container.
Proof.
  apply (declared_length_not_verified JSValue MiniJSON.parse sample_container
           (Z.of_nat (length sample_container) - 49) 100000).
  - vm_compute. reflexivity.
  - vm_compute. discriminate.
  - lia.
  - vm_compute. discriminate.
Defined.

Lemma accepted_header_witness :
  exists n,
    Buf.readUInt32LE sample_container 45 = Ok n /\
    Buf.slice sample_container 0 4 = [0x4B; 0x4F; 0x4C; 0x50] /\
    Buf.slice sample_container 13 45 = checksum sample_file /\
    checksum sample_file
    = firstn 32 (Sha256.hex (Buf.slice sample_container 49 (49 + n))).
Proof.
  apply (accepted_header JSValue MiniJSON.parse sample_container sample_file).
  vm_compute. reflexivity.
Defined.

Lemma token_request_content_length_witness :
  tr_content_length (exchange_request awkward_code (js "client") (js "secret")) =
    Z.of_nat (length (tr_written
                        (exchange_request awkward_code (js "client") (js "secret"))))
  /\
  tr_content_length (refresh_request (js "client") (js "secret") (js "1//refresh")) =
    Z.of_nat (length (tr_written
                        (refresh_request (js "client") (js "secret")
                           (js "1//refresh")))).
Proof.
  apply (token_request_content_length awkward_code (js "client") (js "secret")
           (js "1//refresh")); literal.
Defined.

Lemma token_request_fields_witness :
  split_on 38 (exchange_postData awkward_code (js "client") (js "secret")) =
    [ js "code=" ++ form_encode awkward_code;
      js "client_id=" ++ form_encode (js "client");
      js "client_secret=" ++ form_encode (js "secret");
      js "redirect_uri=http%3A%2F%2Flocalhost%3A8089%2Fcallback";
      js "grant_type=authorization_code" ]
  /\
  split_on 38 (refresh_postData (js "client") (js "secret") (js "1//refresh")) =
    [ js "client_id=" ++ form_encode (js "client");
      js "client_secret=" ++ form_encode (js "secret");
      js "refresh_token=" ++ form_encode (js "1//refresh");
      js "grant_type=refresh_token" ]
  /\
  Forall (fun value => ~ In 61 (form_encode value) /\ ~ In 38 (form_encode value))
    [awkward_code; js "client"; js "secret"; js "1//refresh"].
Proof.
  apply (token_request_fields awkward_code (js "client") (js "secret")
           (js "1//refresh")); literal.
Defined.

Example awkward_code_encoded :
  form_encode awkward_code =
  js "4%2F0A+%26grant_type%3Dx%C3%B6%E2%82%AC%F0%9F%98%80%EF%BF%BD".
Proof. vm_compute. reflexivity. Qed.

Lemma renewed_token_is_used_witness :
  exists result w' new,
    run_upload stale_world = (Ok result, w') /\
    log w' = log stale_world ++ new /\
    (forall r message,
       In (EvRefused r message) new ->
       exists saved,
         In (EvSaveTokens saved) new /\
         tokenFile w' = Some saved /\
         r = find_request (access_token saved)) /\
    (forall saved,
       In (EvSaveTokens saved) new ->
       (exists message,
          In (EvRefused (find_request (access_token saved)) message) new)
       \/ exists message,
            createKolpFile MiniJSON.stringify
              (clock stale_world (S (S (reads stale_world)))) sample_snapshot
            = Throw message).
Proof.
  apply (renewed_token_is_used (P := sample_platform) sample_snapshot
           stale_world stale_tokens).
  - reflexivity.
  - vm_compute. discriminate.
  - left. reflexivity.
Defined.

Example renewed_token_search :
  filter is_refused (log (snd (run_upload stale_world))) =
    [EvRefused (find_request (JSString (js "ya29.renewed")))
       ERR_UNESCAPED_CHARACTERS] /\
  option_map access_token (tokenFile stale_world) =
    Some (JSString (js "ya29.cached")) /\
  option_map access_token (tokenFile (snd (run_upload stale_world))) =
    Some (JSString (js "ya29.renewed")).
Proof. vm_compute. auto. Qed.

Lemma startGoogleAuth_starts_iff_witness :
  exists f0,
    startGoogleAuth sample_client_id (js "secret") sample_state None None
      (fun n => sample_time + Z.of_nat n) = Ok f0 /\
    trace f0 = [FlListen 8089; FlTimer 300000] /\
    settled f0 = None /\ server f0 = Starting /\
    flow_state f0 = sample_state.
Proof.
  apply (startGoogleAuth_starts_iff sample_client_id (js "secret") sample_state
           None None (fun n => sample_time + Z.of_nat n)).
  literal.
Defined.

Lemma token_refusal_leaves_flow_pending_witness :
  settled refused_flow = None /\
  server refused_flow = Accepting /\
  trace refused_flow = trace sample_flow ++
    [FlOpenExternal (flow_authUrl sample_flow);
     FlRequest (TokenExchange sample_code sample_client_id (js "secret"))] /\
  flow_tokens refused_flow = None /\
  flow_credentials refused_flow = None /\
  settled (step (P := sample_platform) refused_flow TimerFires)
  = Some (AuthFailure (js "Authentication timeout")).
Proof.
  exact (token_refusal_leaves_flow_pending (P := sample_platform)
           sample_client_id (js "secret") sample_state None None
           (fun n => sample_time + Z.of_nat n) sample_flow sample_code
           sample_refusal JSUndefined eq_refl eq_refl eq_refl).
Defined.

Lemma successful_flow_persists_witness :
  settled success_flow = Some (AuthSuccess (JSString (js "user@example.com"))) /\
  flow_tokens success_flow = Some sample_saved /\
  flow_credentials success_flow = Some sample_secrets /\
  server success_flow = Closed /\
  trace success_flow = trace sample_flow ++
    [FlOpenExternal (flow_authUrl sample_flow);
     FlRequest (TokenExchange sample_code sample_client_id (js "secret"));
     FlRequest (UserInfo (JSString (js "ya29.first")));
     FlSaveTokens sample_saved; FlSaveCredentials sample_secrets;
     FlRespond 200; FlClose;
     FlResolve (AuthSuccess (JSString (js "user@example.com")))].
Proof.
  exact (successful_flow_persists (P := sample_platform)
           sample_client_id (js "secret") sample_state None None
           (fun n => sample_time + Z.of_nat n) sample_flow sample_code
           sample_token_response sample_profile
           (JSString (js "ya29.first")) (JSString (js "1//refresh"))
           (JSNumber 3599) (JSString (js "user@example.com"))
           eq_refl eq_refl eq_refl eq_refl eq_refl eq_refl).
Defined.

Lemma tokens_saved_after_timeout_witness :
  settled late_flow = Some (AuthFailure (js "Authentication timeout")) /\
  flow_tokens late_flow = Some sample_saved /\
  flow_credentials late_flow = Some sample_secrets.
Proof.
  exact (tokens_saved_after_timeout (P := sample_platform)
           sample_client_id (js "secret") sample_state None None
           (fun n => sample_time + Z.of_nat n) sample_flow sample_code
           sample_token_response sample_profile
           (JSString (js "ya29.first")) (JSString (js "1//refresh"))
           (JSNumber 3599) (JSString (js "user@example.com"))
           eq_refl eq_refl eq_refl eq_refl eq_refl eq_refl).
Defined.

(** The file system in memory keeps what is written to it. *)
Lemma memory_read_after_write :
  forall (disk : @Disk memory_disk) filePath bytes disk',
    @writeFileSync memory_disk disk filePath bytes = (Ok tt, disk') ->
    @readFileSync memory_disk disk' filePath = Ok bytes.
Proof.
  intros disk filePath bytes disk' H. cbn in *.
  destruct (is_empty filePath); [discriminate H|].
  injection H as <-. cbn [disk_find]. rewrite jsstring_eqb_refl. reflexivity.
Qed.

Lemma memory_exists_after_write :
  forall (disk : @Disk memory_disk) filePath bytes disk',
    @writeFileSync memory_disk disk filePath bytes = (Ok tt, disk') ->
    @existsSync memory_disk disk' filePath = true.
Proof.
  intros disk filePath bytes disk' H. cbn in *.
  destruct (is_empty filePath); [discriminate H|].
  injection H as <-. cbn [disk_find]. rewrite jsstring_eqb_refl. reflexivity.
Qed.

Lemma save_file_then_read_file_witness :
  read_file (F := memory_disk) sample_path
    [(sample_path, Buf.from [0x4B; 0xF6; 0xD83D])]
  = LocalSuccess (Utf8.decode (Utf8.encode [0x4B; 0xF6; 0xD83D])) /\
  (well_formed [0x4B; 0xF6; 0xD83D] = true ->
   read_file (F := memory_disk) sample_path
     [(sample_path, Buf.from [0x4B; 0xF6; 0xD83D])]
   = LocalSuccess [0x4B; 0xF6; 0xD83D]).
Proof.
  apply (save_file_then_read_file (F := memory_disk) memory_read_after_write
           sample_path [0x4B; 0xF6; 0xD83D] []).
  reflexivity.
Defined.

(** A lone surrogate does not survive the trip through a file. *)
Example lone_surrogate_saved :
  read_file (F := memory_disk) sample_path
    (snd (save_file (F := memory_disk) sample_path [0x4B; 0xF6; 0xD83D] []))
  = LocalSuccess [0x4B; 0xF6; 0xFFFD].
Proof. reflexivity. Qed.

Lemma export_then_import_witness :
  sample_path = save_filePath sample_save /\
  kolp_import (F := memory_disk) MiniJSON.parse
    (Ok {| open_canceled := false; open_filePaths := [sample_path] |})
    [(sample_path, sample_container)]
  = LocalSuccess sample_file.
Proof.
  apply (export_then_import (F := memory_disk) memory_read_after_write
           JSValue MiniJSON.stringify MiniJSON.parse
           sample_save sample_time sample_snapshot []
           [(sample_path, sample_container)] sample_path
           sample_text sample_snapshot []).
  - reflexivity.
  - vm_compute. reflexivity.
  - vm_compute. discriminate.
  - vm_compute. reflexivity.
  - vm_compute. discriminate.
  - vm_compute. reflexivity.
Defined.

Lemma save_local_then_load_local_witness :
  js "/sync/kolp_backup.klp"
  = path_join (FileSystem := memory_disk) (js "/sync") (js "kolp_backup.klp") /\
  kolp_load_local (F := memory_disk) MiniJSON.parse (js "/sync")
    [(js "/sync/kolp_backup.klp", sample_placeholder_container)]
  = LocalSuccess
      {| version := 1; timestamp := ISO sample_time;
         checksum := firstn 32 (Sha256.hex (Utf8.encode sample_placeholder_text));
         data := placeholder sample_export_date |}.
Proof.
  apply (save_local_then_load_local (F := memory_disk)
           memory_read_after_write memory_exists_after_write
           MiniJSON.stringify MiniJSON.parse
           (js "/sync") sample_export_date sample_time []
           [(js "/sync/kolp_backup.klp", sample_placeholder_container)]
           (js "/sync/kolp_backup.klp")
           sample_placeholder_text (placeholder sample_export_date)).
  - vm_compute. reflexivity.
  - vm_compute. reflexivity.
  - vm_compute. discriminate.
  - vm_compute. reflexivity.
  - vm_compute. discriminate.
  - vm_compute. reflexivity.
Defined.

(** What is saved is empty whatever the application holds: the notes of
    the file that [kolp-load-local] returns. *)
Example saved_locally_without_notes :
  match kolp_load_local (F := memory_disk) MiniJSON.parse (js "/sync")
          (snd (kolp_save_local (F := memory_disk) MiniJSON.stringify
                  (js "/sync") sample_export_date sample_time []))
  with
  | LocalSuccess file => lookup (js "notes") match data file with
                                             | JSObject fields => fields
                                             | _ => []
                                             end
  | LocalFailure _ => JSUndefined
  end = JSArray [].
Proof. vm_compute. reflexivity. Qed.

Lemma printable_checked : forall s,
  forallb (fun c => 0x20 <=? c) s = true -> Forall (fun c => 0x20 <= c) s.
Proof.
  intros s H. apply Forall_forall. intros c Hc.
  rewrite forallb_forall in H. apply Z.leb_le, H, Hc.
Qed.

Lemma container_free_of_delimiter_witness :
  exists container before,
    createKolpFile MiniJSON.stringify sample_time sample_snapshot = Ok container /\
    upload_body sample_metadata container = before ++ container ++ upload_tail /\
    (forall p, (p < length container)%nat ->
       occurs_at delimiter (container ++ upload_tail) p = false) /\
    occurs_at delimiter (container ++ upload_tail) (length container) = true.
Proof.
  apply (container_free_of_delimiter JSValue MiniJSON.stringify
           sample_snapshot sample_text sample_time sample_metadata).
  - reflexivity.
  - vm_compute. discriminate.
  - vm_compute. discriminate.
  - apply printable_checked. vm_compute. reflexivity.
  - vm_compute. discriminate.
Defined.
